(** * personal-rag-system: the ingestion and retrieval pipeline, embedded in Rocq

    The development follows the TypeScript sources and the SQL schema:

    - [Schema] and [Store]: the tables of the migration, the write issued by
      the ingestion script and the SQL function [search_similar_chunks];
    - [Runtime]: the effects of the scripts (requests to the embeddings
      endpoint, pauses, console output, clock readings, the database,
      written files) as an explicit world threaded through an error monad;
    - [Embedding]: [EmbeddingService];
    - [JsString]: the string and path functions the sources call;
    - [Processors]: [CodeProcessor] and [AirtableProcessor];
    - [Chunker]: the text splitter, which the repository takes from a
      package; it is written from the specification;
    - [Generator]: [KnowledgeBaseGenerator];
    - [Ingest]: [ingestProject].

    Strings are sequences of code units ([string]); embedding components
    are rationals ([Q]); scores are [FLOAT] values ([float8]: a number, an
    infinity or NaN); the distance operator of the vector extension, the
    rounding of [FLOAT] arithmetic, the access path of the search and the
    remote services are section variables. *)

From Stdlib Require Import List String Ascii Bool Arith ZArith QArith Qround Qabs.
From Stdlib Require Import DecimalString DecimalNat.
From Stdlib Require Import Lia Lqa Permutation Sorted.
From Equations Require Import Equations.
Import ListNotations.

Local Open Scope string_scope.
Local Open Scope nat_scope.
Local Open Scope list_scope.

Infix "+++" := String.append (right associativity, at level 60).

(* ===================================================================== *)
(** * The schema (supabase migration)                                      *)
(* ===================================================================== *)

Module Schema.

(** UUID columns. Values are opaque tokens; [gen_random_uuid()] is modelled
    by a seed kept beside the tables. *)
Definition uuid := nat.

(** [source_type TEXT CHECK (source_type IN ('code','docs','issues','design','config'))] *)
Inductive source_type := Code | Docs | Issues | Design | Config.

Definition source_type_eqb (a b : source_type) : bool :=
  match a, b with
  | Code, Code | Docs, Docs | Issues, Issues | Design, Design | Config, Config => true
  | _, _ => false
  end.

Definition source_type_text (s : source_type) : string :=
  match s with
  | Code => "code" | Docs => "docs" | Issues => "issues"
  | Design => "design" | Config => "config"
  end.

(** [VECTOR(1536)] *)
Definition embedding := list Q.
Definition EMBEDDING_DIM : nat := 1536.

(** [ProcessedDocument.metadata] (code-processor.ts), stored as the JSONB
    column [metadata]. *)
Record doc_metadata := {
  filePath : string;
  fileType : string;
  projectId : uuid;
  sourceType : source_type;
  lastModified : option string;
  recordId : option string;
  table : option string;
  fields : option (list string)
}.

Record ProcessedDocument := {
  content : string;
  metadata : doc_metadata
}.

(** [projects] *)
Record project := {
  p_id : uuid;
  p_name : string;
  p_description : option string;
  p_tech_stack : list string;
  p_repository_url : option string
}.

(** [document_chunks]. The two timestamp columns are left out: no modelled
    operation reads them. *)
Record document_chunk := {
  dc_id : uuid;
  dc_project_id : option uuid;
  dc_source_type : source_type;
  dc_file_path : option string;
  dc_chunk_content : string;
  dc_contextual_content : option string;
  dc_metadata : option doc_metadata;
  dc_embedding : option embedding
}.

(** [knowledge_contexts] *)
Record knowledge_context := {
  kc_id : uuid;
  kc_project_id : option uuid;
  kc_context_type : string;
  kc_title : string;
  kc_content : string;
  kc_file_path : string;
  kc_tags : list string
}.

Record database := {
  projects : list project;
  document_chunks : list document_chunk;
  knowledge_contexts : list knowledge_context;
  uuid_seed : uuid
}.

(** [FLOAT] columns and JavaScript numbers (binary64): a number, an
    infinity or NaN. *)
Inductive float8 := Finite (x : Q) | PosInf | NegInf | NaN.

(** The order of the store on [FLOAT]: NaN equals itself and is above every
    other value. *)
Definition float8_le (a b : float8) : bool :=
  match a, b with
  | _, NaN => true
  | NaN, _ => false
  | NegInf, _ => true
  | _, NegInf => false
  | _, PosInf => true
  | PosInf, _ => false
  | Finite x, Finite y => Qle_bool x y
  end.

(** *** Rounding to binary64

    The number nearest to a real among those with 53 significant bits and an
    exponent in range, the one with an even last bit on a tie, and an
    infinity beyond the range. *)
Definition pow2 (e : Z) : Q :=
  if (0 <=? e)%Z then inject_Z (2 ^ e) else Qinv (inject_Z (2 ^ (- e))).

Definition round_half_even (x : Q) : Z :=
  let below := Qfloor x in
  match Qcompare (x - inject_Z below) (1 # 2) with
  | Lt => below
  | Gt => (below + 1)%Z
  | Eq => if Z.even below then below else (below + 1)%Z
  end.

Definition binary64 (x : Q) : float8 :=
  match Qcompare x 0 with
  | Eq => Finite 0
  | sign =>
      let a := Qabs x in
      let high := (Z.log2 (Qnum a) - Z.log2 (Zpos (Qden a)))%Z in
      let leading := if Qle_bool (pow2 high) a then high else (high - 1)%Z in
      let e := Z.max (leading - 52) (-1074) in
      let v := Qred (inject_Z (round_half_even (a / pow2 e)) * pow2 e) in
      if Qle_bool (pow2 1024) v then
        match sign with Lt => NegInf | _ => PosInf end
      else
        match sign with Lt => Finite (Qred (- v)) | _ => Finite v end
  end.

Inductive pg_error :=
| ForeignKeyViolation (column : string)
| NotNullViolation (column : string)
| UniqueViolation (column : string)
| VectorDimensionMismatch (expected got : nat)
| NegativeLimit.

End Schema.
Export Schema.

(* ===================================================================== *)
(** * The store: the chunk write and the similarity search                 *)
(* ===================================================================== *)

Module Store.

Definition project_exists (db : database) (p : uuid) : bool :=
  existsb (fun pr => Nat.eqb (p_id pr) p) (projects db).

Definition has_id (i : uuid) (r : document_chunk) : bool := Nat.eqb (dc_id r) i.

(** [INSERT ... ON CONFLICT (id) DO UPDATE SET ...]: the row whose primary
    key equals the new row's is overwritten in place; without one the row is
    appended. *)
Fixpoint insert_on_conflict_id (rows : list document_chunk) (r : document_chunk)
  : list document_chunk :=
  match rows with
  | [] => [r]
  | x :: rest =>
      if has_id (dc_id r) x then r :: rest
      else x :: insert_on_conflict_id rest r
  end.

(** The row the write sends: [id] comes from the column default, and
    [contextual_content] is not sent. *)
Definition written_row (db : database) (project_id : uuid) (st : source_type)
  (file_path chunk_content : string) (md : doc_metadata) (e : embedding)
  : document_chunk :=
  {| dc_id := uuid_seed db;
     dc_project_id := Some project_id;
     dc_source_type := st;
     dc_file_path := Some file_path;
     dc_chunk_content := chunk_content;
     dc_contextual_content := None;
     dc_metadata := Some md;
     dc_embedding := Some e |}.

(** The write of ingest-project.ts:
<<
    supabase.from('document_chunks').upsert({
      project_id, source_type, file_path, chunk_content, metadata, embedding })
>>
    No [id] is sent and no [onConflict] column is named, so the conflict
    target is the primary key [id], which the column default draws afresh.
    The table has no other unique constraint. The foreign key on
    [project_id] and the dimension of the vector column are checked. *)
Definition upsert_document_chunk (db : database) (project_id : uuid)
  (st : source_type) (file_path chunk_content : string) (md : doc_metadata)
  (e : embedding) : database * option pg_error :=
  if negb (project_exists db project_id) then
    (db, Some (ForeignKeyViolation "project_id"))
  else if negb (Nat.eqb (List.length e) EMBEDDING_DIM) then
    (db, Some (VectorDimensionMismatch EMBEDDING_DIM (List.length e)))
  else
    let row := written_row db project_id st file_path chunk_content md e in
    ({| projects := projects db;
        document_chunks := insert_on_conflict_id (document_chunks db) row;
        knowledge_contexts := knowledge_contexts db;
        uuid_seed := S (uuid_seed db) |}, None).

(** Rows stored for one (project, origin path). *)
Definition at_key (p : uuid) (path : string) (r : document_chunk) : bool :=
  match dc_project_id r, dc_file_path r with
  | Some p', Some path' => Nat.eqb p' p && String.eqb path' path
  | _, _ => false
  end.

Definition chunks_at (db : database) (p : uuid) (path : string) : list document_chunk :=
  filter (at_key p path) (document_chunks db).

(** Every stored primary key was drawn before the current seed. *)
Definition ids_fresh (db : database) : Prop :=
  Forall (fun r => dc_id r < uuid_seed db) (document_chunks db).

(** Every stored vector has the declared dimension, and every row points to
    a stored project. *)
Definition stored_dimension (db : database) : Prop :=
  Forall (fun r => forall e, dc_embedding r = Some e -> List.length e = EMBEDDING_DIM)
    (document_chunks db).

Definition references_projects (db : database) : Prop :=
  Forall (fun r => forall p, dc_project_id r = Some p -> project_exists db p = true)
    (document_chunks db).

(** ** The order on [FLOAT] *)

Lemma float8_le_refl a : float8_le a a = true.
Proof. destruct a; simpl; trivial. apply Qle_bool_iff, Qle_refl. Qed.

Lemma float8_le_total a b : float8_le a b = false -> float8_le b a = true.
Proof.
  destruct a, b; simpl; trivial; try discriminate.
  intros H. apply Qle_bool_iff, Qlt_le_weak, Qnot_le_lt. intros Hle.
  apply Qle_bool_iff in Hle. congruence.
Qed.

Lemma float8_le_trans a b c :
  float8_le a b = true -> float8_le b c = true -> float8_le a c = true.
Proof.
  destruct a, b, c; simpl; trivial; try discriminate.
  rewrite !Qle_bool_iff. apply Qle_trans.
Qed.

Lemma float8_le_NaN a : float8_le NaN a = true -> a = NaN.
Proof. destruct a; simpl; trivial; discriminate. Qed.

(** ** [search_similar_chunks] *)

Record search_row := {
  sr_id : uuid;
  sr_project_id : option uuid;
  sr_source_type : source_type;
  sr_file_path : option string;
  sr_chunk_content : string;
  sr_contextual_content : option string;
  sr_metadata : option doc_metadata;
  similarity : float8
}.


(** Rows as the function orders them: a row whose score is NaN comes after
    every row whose score is not, and among the latter the later one does
    not score above the earlier one. *)
Definition score_order (a b : search_row) : Prop :=
  similarity b = NaN
  \/ (similarity a <> NaN /\ float8_le (similarity b) (similarity a) = true).

Section Search.

(** The operator [<=>] of the vector extension (cosine distance) on two
    vectors of the same dimension. It is NaN when one of them is zero. *)
Variable cosine_distance : embedding -> embedding -> float8.

(** Rounding to [FLOAT]: the value nearest to a real number. *)
Variable nearest_double : Q -> float8.

(** The access path of the plan the engine runs for a call: the rows of the
    table it reads. A sequential scan reads every row; a scan of the
    [ivfflat] index declared by the migration reads the rows of the lists it
    probes, and no row whose vector is missing or zero. *)
Variable reads :
  database -> embedding -> option uuid -> float8 -> Z -> document_chunk -> bool.

(** [1 - d] in [FLOAT] arithmetic. *)
Definition one_minus (d : float8) : float8 :=
  match d with
  | Finite x => nearest_double (1 - x)
  | PosInf => NegInf
  | NegInf => PosInf
  | NaN => NaN
  end.

(** [dc.embedding <=> query_embedding]; NULL when the row has no embedding. *)
Definition distance (query_embedding : embedding) (dc : document_chunk) : option float8 :=
  option_map (fun e => cosine_distance e query_embedding) (dc_embedding dc).

(** [project_filter IS NULL OR dc.project_id = project_filter] *)
Definition project_clause (project_filter : option uuid) (dc : document_chunk) : bool :=
  match project_filter with
  | None => true
  | Some p => match dc_project_id dc with
              | Some p' => Nat.eqb p' p
              | None => false
              end
  end.

(** [1 - (dc.embedding <=> query_embedding) > similarity_threshold], in the
    order of the store on [FLOAT]. *)
Definition score_clause (query_embedding : embedding) (similarity_threshold : float8)
  (dc : document_chunk) : bool :=
  match distance query_embedding dc with
  | Some d => negb (float8_le (one_minus d) similarity_threshold)
  | None => false
  end.

(** The WHERE clause; a row is kept when the condition is true (not NULL). *)
Definition where_clause (query_embedding : embedding) (project_filter : option uuid)
  (similarity_threshold : float8) (dc : document_chunk) : bool :=
  project_clause project_filter dc && score_clause query_embedding similarity_threshold dc.

(** The operator raises an error on two vectors of different dimensions. *)
Definition other_dimension (query_embedding : embedding) (dc : document_chunk)
  : option pg_error :=
  match dc_embedding dc with
  | Some e =>
      if Nat.eqb (List.length e) (List.length query_embedding) then None
      else Some (VectorDimensionMismatch (List.length e) (List.length query_embedding))
  | None => None
  end.

Fixpoint first_error (query_embedding : embedding) (rows : list document_chunk)
  : option pg_error :=
  match rows with
  | [] => None
  | dc :: rest =>
      match other_dimension query_embedding dc with
      | Some e => Some e
      | None => first_error query_embedding rest
      end
  end.

(** [ORDER BY dc.embedding <=> query_embedding]: ascending distance in the
    order of the store, NaN last. The order among rows at equal distance is
    the engine's choice; the model keeps them in table order. *)
Definition dist_le (query_embedding : embedding) (a b : document_chunk) : bool :=
  match distance query_embedding a, distance query_embedding b with
  | Some da, Some db => float8_le da db
  | Some _, None => true
  | None, _ => false
  end.

Fixpoint insert_sorted (q : embedding) (x : document_chunk) (l : list document_chunk)
  : list document_chunk :=
  match l with
  | [] => [x]
  | y :: rest => if dist_le q x y then x :: l else y :: insert_sorted q x rest
  end.

Definition order_by_distance (q : embedding) (l : list document_chunk)
  : list document_chunk :=
  fold_right (insert_sorted q) [] l.

(** The SELECT list. (A row without an embedding has no similarity; it
    never passes the WHERE clause, and 0 stands for NULL.) *)
Definition select_row (query_embedding : embedding) (dc : document_chunk) : search_row :=
  {| sr_id := dc_id dc;
     sr_project_id := dc_project_id dc;
     sr_source_type := dc_source_type dc;
     sr_file_path := dc_file_path dc;
     sr_chunk_content := dc_chunk_content dc;
     sr_contextual_content := dc_contextual_content dc;
     sr_metadata := dc_metadata dc;
     similarity := match distance query_embedding dc with
                   | Some d => one_minus d
                   | None => Finite 0
                   end |}.

(** The function. LIMIT rejects a negative count and asks for no row at all
    when the count is 0. Otherwise the rows read that pass the project
    clause are compared with the query, which fails on a vector of another
    dimension; those that pass the score clause are sorted and cut. (The
    dimension in the declared type of the argument is not checked at the
    call.) *)
Definition search_similar_chunks (db : database) (query_embedding : embedding)
  (project_filter : option uuid) (similarity_threshold : float8) (match_count : Z)
  : pg_error + list search_row :=
  if (match_count <? 0)%Z then inl NegativeLimit
  else if (match_count =? 0)%Z then inr []
  else
    let candidates :=
      filter (project_clause project_filter)
        (filter (reads db query_embedding project_filter similarity_threshold match_count)
           (document_chunks db)) in
    match first_error query_embedding candidates with
    | Some e => inl e
    | None =>
        inr (firstn (Z.to_nat match_count)
               (map (select_row query_embedding)
                  (order_by_distance query_embedding
                     (filter (score_clause query_embedding similarity_threshold)
                        candidates))))
    end.

(** The rows read that pass the WHERE clause. *)
Definition passing (db : database) (q : embedding) (pf : option uuid) (t : float8) (n : Z)
  : list document_chunk :=
  filter (where_clause q pf t) (filter (reads db q pf t n) (document_chunks db)).

Lemma filter_filter {A} (f g : A -> bool) l :
  filter g (filter f l) = filter (fun x => f x && g x) l.
Proof.
  induction l as [|a l IH]; simpl; trivial.
  destruct (f a); simpl; [destruct (g a)|]; now rewrite IH.
Qed.

Lemma passing_candidates db q pf t n :
  filter (score_clause q t)
    (filter (project_clause pf) (filter (reads db q pf t n) (document_chunks db)))
  = passing db q pf t n.
Proof. unfold passing. now rewrite filter_filter. Qed.

Lemma passing_In db q pf t n dc :
  In dc (passing db q pf t n)
  <-> In dc (document_chunks db) /\ reads db q pf t n dc = true
      /\ where_clause q pf t dc = true.
Proof. unfold passing. rewrite !filter_In. tauto. Qed.

Lemma search_rows db q pf t n rs :
  search_similar_chunks db q pf t n = inr rs ->
  rs = map (select_row q)
         (firstn (Z.to_nat n) (order_by_distance q (passing db q pf t n))).
Proof.
  unfold search_similar_chunks.
  destruct (n <? 0)%Z; [discriminate|].
  destruct (n =? 0)%Z eqn:E0.
  - apply Z.eqb_eq in E0. subst n. intros H. injection H as <-. reflexivity.
  - destruct (first_error q _); [discriminate|].
    intros H. injection H as <-. rewrite passing_candidates. apply firstn_map.
Qed.



(** *** Facts about the ordering step *)

Definition has_embedding (dc : document_chunk) : Prop := dc_embedding dc <> None.

Definition nearer (q : embedding) (a b : document_chunk) : Prop :=
  exists da db, distance q a = Some da /\ distance q b = Some db
                /\ float8_le da db = true.

Lemma dist_le_total q a b :
  has_embedding a -> has_embedding b -> dist_le q a b = false -> nearer q b a.
Proof.
  unfold has_embedding, dist_le, nearer, distance.
  destruct (dc_embedding a) as [ea|], (dc_embedding b) as [eb|]; simpl;
    try congruence.
  intros _ _ H. exists (cosine_distance eb q), (cosine_distance ea q).
  repeat split; trivial. now apply float8_le_total.
Qed.

Lemma dist_le_nearer q a b :
  has_embedding a -> has_embedding b -> dist_le q a b = true -> nearer q a b.
Proof.
  unfold has_embedding, dist_le, nearer, distance.
  destruct (dc_embedding a) as [ea|], (dc_embedding b) as [eb|]; simpl;
    try congruence.
  intros _ _ H. exists (cosine_distance ea q), (cosine_distance eb q).
  repeat split; trivial.
Qed.

Lemma nearer_trans q a b c : nearer q a b -> nearer q b c -> nearer q a c.
Proof.
  intros (da & db & Ha & Hb & Hab) (db' & dc & Hb' & Hc & Hbc).
  rewrite Hb in Hb'. injection Hb' as <-.
  exists da, dc. repeat split; trivial. now apply float8_le_trans with db.
Qed.

Lemma insert_sorted_In q x a l : In x (insert_sorted q a l) <-> x = a \/ In x l.
Proof.
  induction l as [|y l IH]; simpl.
  - intuition.
  - destruct (dist_le q a y); simpl; [intuition|].
    rewrite IH. intuition.
Qed.

Lemma order_by_distance_In q x l : In x (order_by_distance q l) <-> In x l.
Proof.
  induction l as [|a l IH]; simpl; [tauto|].
  rewrite insert_sorted_In, IH. intuition.
Qed.

Lemma insert_sorted_length q a l :
  List.length (insert_sorted q a l) = S (List.length l).
Proof.
  induction l as [|y l IH]; simpl; trivial.
  destruct (dist_le q a y); simpl; congruence.
Qed.

Lemma order_by_distance_length q l :
  List.length (order_by_distance q l) = List.length l.
Proof.
  induction l as [|a l IH]; simpl; trivial.
  now rewrite insert_sorted_length, IH.
Qed.

Lemma insert_sorted_sorted q a l :
  has_embedding a -> Forall has_embedding l ->
  StronglySorted (nearer q) l -> StronglySorted (nearer q) (insert_sorted q a l).
Proof.
  intros Ha Hl Hs. induction Hs as [|y l Hs IH Hy]; simpl.
  - repeat constructor.
  - inversion Hl as [|? ? Hey Hel]; subst.
    destruct (dist_le q a y) eqn:E.
    + constructor; [now constructor|].
      apply dist_le_nearer in E; trivial.
      constructor; trivial.
      eapply Forall_impl; [|exact Hy]. intros c Hc. now apply nearer_trans with y.
    + constructor; [now apply IH|].
      apply Forall_forall. intros c Hc. apply insert_sorted_In in Hc as [->|Hc].
      * now apply dist_le_total.
      * rewrite Forall_forall in Hy. now apply Hy.
Qed.

Lemma order_by_distance_sorted q l :
  Forall has_embedding l -> StronglySorted (nearer q) (order_by_distance q l).
Proof.
  induction 1 as [|a l Ha Hl IH]; simpl; [constructor|].
  apply insert_sorted_sorted; trivial.
  apply Forall_forall. intros x Hx. apply order_by_distance_In in Hx.
  rewrite Forall_forall in Hl. now apply Hl.
Qed.

Lemma insert_sorted_permutation q a l : Permutation (insert_sorted q a l) (a :: l).
Proof.
  induction l as [|y l IH]; simpl; [reflexivity|].
  destruct (dist_le q a y); [reflexivity|].
  rewrite IH. apply perm_swap.
Qed.

Lemma order_by_distance_permutation q l : Permutation (order_by_distance q l) l.
Proof.
  induction l as [|a l IH]; simpl; [reflexivity|].
  rewrite insert_sorted_permutation. now constructor.
Qed.

Lemma where_clause_embedding q pf t dc :
  where_clause q pf t dc = true ->
  exists e, dc_embedding dc = Some e
            /\ float8_le (one_minus (cosine_distance e q)) t = false.
Proof.
  unfold where_clause, score_clause, distance. intros H. apply andb_prop in H as [_ H].
  destruct (dc_embedding dc) as [e|]; simpl in H; [|discriminate].
  exists e. split; trivial. now apply negb_true_iff.
Qed.


Lemma passing_embedding db q pf t n : Forall has_embedding (passing db q pf t n).
Proof.
  apply Forall_forall. intros dc H. apply passing_In in H as (_ & _ & H).
  apply where_clause_embedding in H as (e & He & _).
  unfold has_embedding. congruence.
Qed.


Lemma In_firstn {A} (x : A) n l : In x (firstn n l) -> In x l.
Proof.
  revert n. induction l as [|a l IH]; intros [|n]; simpl; try tauto.
  intros [->|H]; [now left|right; eauto].
Qed.



Lemma StronglySorted_app_cross {A} (R : A -> A -> Prop) l1 l2 :
  StronglySorted R (l1 ++ l2) -> forall a b, In a l1 -> In b l2 -> R a b.
Proof.
  induction l1 as [|x l1 IH]; simpl; intros Hs a b Ha Hb; [contradiction|].
  inversion Hs as [|? ? Hs' Hx]; subst. destruct Ha as [->|Ha].
  - rewrite Forall_forall in Hx. apply Hx, in_or_app. now right.
  - now apply IH.
Qed.

Lemma In_skipn_longer {A} (x : A) n l : In x (skipn n l) -> n < List.length l.
Proof.
  intros H. destruct (Nat.lt_ge_cases n (List.length l)) as [|Hge]; trivial.
  now rewrite (skipn_all2 l Hge) in H.
Qed.

Lemma NoDup_map_filter {A B} (f : A -> B) (p : A -> bool) l :
  NoDup (map f l) -> NoDup (map f (filter p l)).
Proof.
  induction l as [|a l IH]; simpl; trivial. intros H.
  inversion H as [|? ? Ha Hl]; subst.
  destruct (p a); simpl; [|auto]. constructor; [|auto].
  intros Hin. apply Ha. apply in_map_iff in Hin as (x & Hx & Hin).
  apply in_map_iff. exists x. split; trivial. now apply filter_In in Hin.
Qed.

Lemma NoDup_map_firstn {A B} (f : A -> B) n l :
  NoDup (map f l) -> NoDup (map f (firstn n l)).
Proof.
  revert n. induction l as [|a l IH]; intros [|n]; simpl; trivial;
    try (intros; constructor; fail).
  intros H. inversion H as [|? ? Ha Hl]; subst. constructor; [|auto].
  intros Hin. apply Ha. apply in_map_iff in Hin as (x & Hx & Hin).
  apply in_map_iff. exists x. split; trivial. now apply In_firstn in Hin.
Qed.

(** *** Scores along the result

    Rounding to [FLOAT] keeps the order of the reals and never gives NaN. *)
Definition rounding_keeps_order : Prop :=
  forall x y, (x <= y)%Q -> float8_le (nearest_double x) (nearest_double y) = true.

Definition rounding_gives_numbers : Prop := forall x, nearest_double x <> NaN.

Lemma one_minus_number d : rounding_gives_numbers -> d <> NaN -> one_minus d <> NaN.
Proof. intros Hnum. destruct d; simpl; trivial; try discriminate. Qed.

Lemma one_minus_antitone a b :
  rounding_keeps_order -> rounding_gives_numbers ->
  float8_le a b = true -> b <> NaN ->
  float8_le (one_minus b) (one_minus a) = true.
Proof.
  intros Hmono Hnum Hab Hb.
  destruct a as [x| | |], b as [y| | |]; simpl in *; trivial;
    try discriminate; try contradiction.
  - apply Hmono. apply Qle_bool_iff in Hab. lra.
  - now destruct (nearest_double (1 - x)).
  - pose proof (Hnum (1 - y)%Q). now destruct (nearest_double (1 - y)).
Qed.

Lemma nearer_score_order q a b :
  rounding_keeps_order -> rounding_gives_numbers ->
  nearer q a b -> score_order (select_row q a) (select_row q b).
Proof.
  intros Hmono Hnum (da & db & Ha & Hb & Hab).
  unfold score_order, select_row; simpl. rewrite Ha, Hb.
  destruct db as [y| | |] eqn:Edb; [right|right|right|left; reflexivity];
    (assert (Hda : da <> NaN)
       by (intros ->; apply float8_le_NaN in Hab; discriminate));
    (split; [now apply one_minus_number|]);
    apply one_minus_antitone; trivial; discriminate.
Qed.


(** X4. The count of returned rows is the smaller of the limit and the number
    of rows that the plan reads and that pass the WHERE clause; under a
    sequential scan, which reads every row, that is the number of stored
    rows that pass it. *)
Theorem search_similar_chunks_length db q pf t n rs :
  search_similar_chunks db q pf t n = inr rs ->
  List.length rs = Nat.min (Z.to_nat n) (List.length (passing db q pf t n))
  /\ ((forall dc, reads db q pf t n dc = true) ->
      List.length rs
      = Nat.min (Z.to_nat n)
          (List.length (filter (where_clause q pf t) (document_chunks db)))).
Proof.
  intros Hrun. apply search_rows in Hrun. subst rs.
  rewrite length_map, length_firstn, order_by_distance_length.
  split; trivial. intros Hall. unfold passing.
  replace (filter (reads db q pf t n) (document_chunks db)) with (document_chunks db);
    trivial.
  induction (document_chunks db) as [|dc l IH]; simpl; trivial.
  now rewrite Hall, <- IH.
Qed.

Lemma search_similar_chunks_negative_limit db q pf t n :
  (n < 0)%Z -> search_similar_chunks db q pf t n = inl NegativeLimit.
Proof.
  intros Hn. unfold search_similar_chunks. apply Z.ltb_lt in Hn. now rewrite Hn.
Qed.

(** X5. Among the rows the plan reads, the rows returned are the nearest
    ones: a stored chunk that is read and passes the WHERE clause is either
    returned, or the result is full ([match_count] rows) and every returned
    row comes before that chunk in the order of the result (the chunk has no
    number for score, or the row has one that is at least the chunk's). *)
Theorem search_similar_chunks_nearest db q pf t n rs dc :
  rounding_keeps_order -> rounding_gives_numbers ->
  search_similar_chunks db q pf t n = inr rs ->
  In dc (document_chunks db) ->
  reads db q pf t n dc = true ->
  where_clause q pf t dc = true ->
  In (select_row q dc) rs
  \/ (List.length rs = Z.to_nat n
      /\ Forall (fun r => score_order r (select_row q dc)) rs).
Proof.
  intros Hmono Hnum Hrun Hin Hread Hpass. apply search_rows in Hrun. subst rs.
  set (sorted := order_by_distance q (passing db q pf t n)).
  assert (Hdc : In dc sorted).
  { apply order_by_distance_In, passing_In. tauto. }
  assert (Hsorted : StronglySorted (nearer q) sorted)
    by apply order_by_distance_sorted, passing_embedding.
  rewrite <- (firstn_skipn (Z.to_nat n) sorted) in Hdc, Hsorted.
  apply in_app_or in Hdc as [Hfirst|Hrest].
  - left. now apply in_map.
  - right. split.
    + rewrite length_map, length_firstn. apply In_skipn_longer in Hrest. lia.
    + apply Forall_map, Forall_forall. intros x Hx.
      apply nearer_score_order; trivial.
      exact (StronglySorted_app_cross _ _ _ Hsorted x dc Hx Hrest).
Qed.

(** X6. No chunk is returned twice: when the primary keys of the table are
    distinct, so are the ids of the rows returned. *)
Theorem search_similar_chunks_distinct db q pf t n rs :
  NoDup (map dc_id (document_chunks db)) ->
  search_similar_chunks db q pf t n = inr rs ->
  NoDup (map sr_id rs).
Proof.
  intros Hnd Hrun. apply search_rows in Hrun. subst rs.
  rewrite map_map. simpl.
  apply NoDup_map_firstn.
  eapply Permutation_NoDup.
  - apply Permutation_map. symmetry. apply order_by_distance_permutation.
  - unfold passing. now apply NoDup_map_filter, NoDup_map_filter.
Qed.

End Search.

(** ** The chunk write never meets a conflict *)

Lemma insert_on_conflict_id_fresh rows r :
  Forall (fun x => dc_id x <> dc_id r) rows ->
  insert_on_conflict_id rows r = rows ++ [r].
Proof.
  induction 1 as [|x rows Hx _ IH]; simpl; trivial.
  unfold has_id. destruct (Nat.eqb_spec (dc_id x) (dc_id r)); [contradiction|].
  now rewrite IH.
Qed.

Lemma upsert_document_chunk_appends db p st path c md e :
  ids_fresh db -> project_exists db p = true -> List.length e = EMBEDDING_DIM ->
  let db' := fst (upsert_document_chunk db p st path c md e) in
  snd (upsert_document_chunk db p st path c md e) = None
  /\ document_chunks db' = document_chunks db ++ [written_row db p st path c md e]
  /\ projects db' = projects db
  /\ ids_fresh db'.
Proof.
  intros Hf Hp He. unfold upsert_document_chunk.
  rewrite Hp, He, Nat.eqb_refl. simpl.
  assert (Hins : insert_on_conflict_id (document_chunks db)
                   (written_row db p st path c md e)
                 = document_chunks db ++ [written_row db p st path c md e]).
  { apply insert_on_conflict_id_fresh. eapply Forall_impl; [|exact Hf].
    simpl. intros x Hx. lia. }
  repeat split; trivial.
  unfold ids_fresh; simpl. rewrite Hins. apply Forall_app. split.
  - eapply Forall_impl; [|exact Hf]. simpl. intros; lia.
  - repeat constructor.
Qed.

(** Writing the same (project, origin path) twice leaves both rows in the
    table, after every row that was there. *)
Lemma reingest_keeps_both_rows db p st path c1 md1 e1 c2 md2 e2 :
  ids_fresh db -> project_exists db p = true ->
  List.length e1 = EMBEDDING_DIM -> List.length e2 = EMBEDDING_DIM ->
  let db1 := fst (upsert_document_chunk db p st path c1 md1 e1) in
  let db2 := fst (upsert_document_chunk db1 p st path c2 md2 e2) in
  chunks_at db2 p path
  = chunks_at db p path
      ++ [written_row db p st path c1 md1 e1; written_row db1 p st path c2 md2 e2].
Proof.
  intros Hf Hp H1 H2 db1 db2.
  destruct (upsert_document_chunk_appends db p st path c1 md1 e1 Hf Hp H1)
    as (_ & Hc1 & Hp1 & Hf1). fold db1 in Hc1, Hp1, Hf1.
  assert (Hp' : project_exists db1 p = true).
  { unfold project_exists. now rewrite Hp1. }
  destruct (upsert_document_chunk_appends db1 p st path c2 md2 e2 Hf1 Hp' H2)
    as (_ & Hc2 & _ & _). fold db2 in Hc2.
  unfold chunks_at. rewrite Hc2, Hc1, <- app_assoc, filter_app. simpl.
  unfold at_key at 2 3. simpl. now rewrite Nat.eqb_refl, String.eqb_refl.
Qed.



Section Found.

Variable cosine_distance : embedding -> embedding -> float8.
Variable nearest_double : Q -> float8.
Variable reads :
  database -> embedding -> option uuid -> float8 -> Z -> document_chunk -> bool.


End Found.

(** X8. The chunk write only ever appends: on a table whose keys were drawn
    before the seed, it adds at most one row after the rows already there,
    which stay as they are; a write the store rejects (unknown project,
    vector of another dimension) changes nothing; and the table keeps
    holding only vectors of dimension 1536 and only rows of stored
    projects. *)
Theorem upsert_document_chunk_keeps db p st path c md e :
  ids_fresh db ->
  let db' := fst (upsert_document_chunk db p st path c md e) in
  (snd (upsert_document_chunk db p st path c md e) <> None -> db' = db)
  /\ (exists added, document_chunks db' = document_chunks db ++ added
                    /\ List.length added <= 1)
  /\ projects db' = projects db
  /\ knowledge_contexts db' = knowledge_contexts db
  /\ ids_fresh db'
  /\ (stored_dimension db -> stored_dimension db')
  /\ (references_projects db -> references_projects db').
Proof.
  intros Hf db'.
  destruct (project_exists db p) eqn:Hp;
    [destruct (Nat.eqb (List.length e) EMBEDDING_DIM) eqn:He|].
  - apply Nat.eqb_eq in He.
    destruct (upsert_document_chunk_appends db p st path c md e Hf Hp He)
      as (Hok & Hrows & Hprojects & Hfresh).
    fold db' in Hrows, Hprojects, Hfresh.
    split; [intros H; now rewrite Hok in H|].
    split; [exists [written_row db p st path c md e]; split; auto|].
    split; [trivial|].
    split; [subst db'; unfold upsert_document_chunk; now rewrite Hp, He, Nat.eqb_refl|].
    split; [trivial|]. split.
    + unfold stored_dimension. rewrite Hrows. intros H. apply Forall_app. split; trivial.
      repeat constructor. simpl. intros e' He'. now injection He' as <-.
    + unfold references_projects, project_exists. rewrite Hrows, Hprojects.
      intros H. apply Forall_app. split; trivial.
      repeat constructor. simpl. intros p' Hp'. now injection Hp' as <-.
  - subst db'. unfold upsert_document_chunk. rewrite Hp, He. simpl.
    repeat split; trivial. exists []. rewrite app_nil_r. auto.
  - subst db'. unfold upsert_document_chunk. rewrite Hp. simpl.
    repeat split; trivial. exists []. rewrite app_nil_r. auto.
Qed.

Lemma upsert_document_chunk_extends db p st path c md e :
  ids_fresh db ->
  let db' := fst (upsert_document_chunk db p st path c md e) in
  (document_chunks db' = document_chunks db
   \/ document_chunks db' = document_chunks db ++ [written_row db p st path c md e])
  /\ projects db' = projects db
  /\ knowledge_contexts db' = knowledge_contexts db
  /\ ids_fresh db'.
Proof.
  intros Hf db'.
  destruct (project_exists db p) eqn:Hp;
    [destruct (Nat.eqb (List.length e) EMBEDDING_DIM) eqn:He|].
  - apply Nat.eqb_eq in He.
    destruct (upsert_document_chunk_appends db p st path c md e Hf Hp He)
      as (_ & Hrows & Hprojects & Hfresh).
    fold db' in Hrows, Hprojects, Hfresh. repeat split; auto.
    subst db'. unfold upsert_document_chunk. now rewrite Hp, He, Nat.eqb_refl.
  - subst db'. unfold upsert_document_chunk. rewrite Hp, He. simpl. auto.
  - subst db'. unfold upsert_document_chunk. rewrite Hp. simpl. auto.
Qed.

(** ** Concrete stores *)

Definition is_zero (a : embedding) : bool := forallb (fun x => Qeq_bool x 0) a.

(** A stand-in for the distance operator: NaN when one of the vectors is
    zero, as the operator gives, and otherwise [1 - a0 * b0], the first
    coordinates carrying the cosine. For the query [along 1] and a stored
    [along 1] this is the cosine distance, 0. *)
Definition first_coordinate_distance (a b : embedding) : float8 :=
  if is_zero a || is_zero b then NaN else Finite (1 - hd 0 a * hd 0 b)%Q.

(** Rounding that changes nothing, every rational taken for a [FLOAT]. *)
Definition exact (x : Q) : float8 := Finite x.

Lemma exact_keeps_order : rounding_keeps_order exact.
Proof. intros x y H. now apply Qle_bool_iff. Qed.

Lemma exact_gives_numbers : rounding_gives_numbers exact.
Proof. intros x. discriminate. Qed.

(** The plan that reads every row. *)
Definition sequential_scan (db : database) (q : embedding) (pf : option uuid)
  (t : float8) (n : Z) (dc : document_chunk) : bool := true.

Definition along (x : Q) : embedding := x :: repeat 0%Q 1535.

Definition demo_project : project :=
  {| p_id := 7; p_name := "demo"; p_description := None;
     p_tech_stack := []; p_repository_url := None |}.

Definition demo_metadata (path : string) : doc_metadata :=
  {| filePath := path; fileType := ".ts"; projectId := 7; sourceType := Code;
     lastModified := None; recordId := None; table := None; fields := None |}.

Definition empty_db : database :=
  {| projects := [demo_project]; document_chunks := [];
     knowledge_contexts := []; uuid_seed := 0 |}.

(** One chunk at similarity 0.95 and one at 0.5 against the query [along 1]. *)
Definition two_chunk_db : database :=
  fst (upsert_document_chunk
         (fst (upsert_document_chunk empty_db 7 Code "src/far.ts" "far"
                 (demo_metadata "src/far.ts") (along (1 # 2))))
         7 Code "src/near.ts" "near" (demo_metadata "src/near.ts") (along (95 # 100))).

Definition demo_search (db : database) (q : embedding) (pf : option uuid) (t : float8)
  (n : Z) : pg_error + list search_row :=
  search_similar_chunks first_coordinate_distance exact sequential_scan db q pf t n.

Example search_scenario :
  option_map (map sr_chunk_content)
    (match demo_search two_chunk_db (along 1) None (Finite (7 # 10)) 10 with
     | inr rs => Some rs
     | inl _ => None
     end) = Some ["near"].
Proof. vm_compute. reflexivity. Qed.

(** A wrong dimension is noticed only when a vector is compared. *)
Example search_other_dimension :
  demo_search {| projects := []; document_chunks := []; knowledge_contexts := [];
                 uuid_seed := 0 |} [1; 0; 0]%Q None (Finite (7 # 10)) 10 = inr []
  /\ demo_search two_chunk_db [1; 0; 0]%Q None (Finite (7 # 10)) 10
     = inl (VectorDimensionMismatch 1536 3)
  /\ demo_search two_chunk_db [1; 0; 0]%Q None (Finite (7 # 10)) 0 = inr [].
Proof. vm_compute. repeat split; reflexivity. Qed.




Lemma search_similar_chunks_length_witness :
  let rs := map (select_row first_coordinate_distance exact (along 1))
              (firstn 1 (order_by_distance first_coordinate_distance (along 1)
                           (passing first_coordinate_distance exact sequential_scan
                              two_chunk_db (along 1) None (Finite (1 # 4)) 1))) in
  List.length rs
  = Nat.min (Z.to_nat 1)
      (List.length (passing first_coordinate_distance exact sequential_scan
                      two_chunk_db (along 1) None (Finite (1 # 4)) 1))
  /\ ((forall dc, sequential_scan two_chunk_db (along 1) None (Finite (1 # 4)) 1 dc = true) ->
      List.length rs
      = Nat.min (Z.to_nat 1)
          (List.length (filter (where_clause first_coordinate_distance exact (along 1)
                                  None (Finite (1 # 4)))
                          (document_chunks two_chunk_db)))).
Proof.
  apply (search_similar_chunks_length first_coordinate_distance exact sequential_scan
           two_chunk_db (along 1) None (Finite (1 # 4)) 1).
  vm_compute. reflexivity.
Defined.

(** C1 (the code departs from the claim). On a store holding one project and
    no chunk, the chunk write of the ingestion loop run twice for the same
    (project, origin path), first with content "v1" and then with "v2",
    leaves two rows at that key: the first write is still there, and the
    second row does not replace it. *)
Theorem reingest_same_path_duplicates :
  let db1 := fst (upsert_document_chunk empty_db 7 Code "src/a.ts" "v1"
                    (demo_metadata "src/a.ts") (along 1)) in
  let db2 := fst (upsert_document_chunk db1 7 Code "src/a.ts" "v2"
                    (demo_metadata "src/a.ts") (along (1 # 2))) in
  snd (upsert_document_chunk db1 7 Code "src/a.ts" "v2"
         (demo_metadata "src/a.ts") (along (1 # 2))) = None
  /\ map dc_chunk_content (chunks_at db1 7 "src/a.ts") = ["v1"]
  /\ map dc_chunk_content (chunks_at db2 7 "src/a.ts") = ["v1"; "v2"]
  /\ List.length (chunks_at db2 7 "src/a.ts") = 2.
Proof. vm_compute. repeat split; reflexivity. Qed.

(** ** A stored vector that is zero *)

Definition zero_vector : embedding := repeat 0%Q 1536.

(** The store after two accepted writes: a chunk whose vector is zero, then
    a chunk whose vector is the query's. *)
Definition zero_vector_db : database :=
  fst (upsert_document_chunk
         (fst (upsert_document_chunk empty_db 7 Code "src/zero.ts" "zero"
                 (demo_metadata "src/zero.ts") zero_vector))
         7 Code "src/near.ts" "near" (demo_metadata "src/near.ts") (along 1)).



Example zero_vector_search :
  option_map (map (fun r => (sr_chunk_content r, similarity r)))
    (match demo_search zero_vector_db (along 1) None (Finite (7 # 10)) 10 with
     | inr rs => Some rs
     | inl _ => None
     end) = Some [("near", Finite 1); ("zero", NaN)].
Proof. vm_compute. reflexivity. Qed.

(** ** Witnesses *)

Definition far_row : document_chunk :=
  written_row empty_db 7 Code "src/far.ts" "far" (demo_metadata "src/far.ts")
    (along (1 # 2)).

Definition nearest_one : list search_row :=
  map (select_row first_coordinate_distance exact (along 1))
    (firstn 1 (order_by_distance first_coordinate_distance (along 1)
                 (passing first_coordinate_distance exact sequential_scan
                    two_chunk_db (along 1) None (Finite (1 # 4)) 1))).

Lemma search_similar_chunks_nearest_witness :
  In (select_row first_coordinate_distance exact (along 1) far_row) nearest_one
  \/ (List.length nearest_one = Z.to_nat 1
      /\ Forall (fun r =>
                   score_order r
                     (select_row first_coordinate_distance exact (along 1) far_row))
           nearest_one).
Proof.
  apply (search_similar_chunks_nearest first_coordinate_distance exact sequential_scan
           two_chunk_db (along 1) None (Finite (1 # 4)) 1).
  - exact exact_keeps_order.
  - exact exact_gives_numbers.
  - vm_compute. reflexivity.
  - vm_compute. left. reflexivity.
  - reflexivity.
  - vm_compute. reflexivity.
Defined.

Lemma search_similar_chunks_distinct_witness :
  NoDup (map sr_id
           (map (select_row first_coordinate_distance exact (along 1))
              (firstn 10 (order_by_distance first_coordinate_distance (along 1)
                            (passing first_coordinate_distance exact sequential_scan
                               two_chunk_db (along 1) None (Finite (1 # 4)) 10))))).
Proof.
  apply (search_similar_chunks_distinct first_coordinate_distance exact sequential_scan
           two_chunk_db (along 1) None (Finite (1 # 4)) 10).
  - vm_compute. repeat constructor; simpl; intuition discriminate.
  - vm_compute. reflexivity.
Defined.


Lemma upsert_document_chunk_keeps_witness :
  let db' := fst (upsert_document_chunk empty_db 7 Code "src/a.ts" "v1"
                    (demo_metadata "src/a.ts") (along 1)) in
  (snd (upsert_document_chunk empty_db 7 Code "src/a.ts" "v1"
          (demo_metadata "src/a.ts") (along 1)) <> None -> db' = empty_db)
  /\ (exists added, document_chunks db' = document_chunks empty_db ++ added
                    /\ List.length added <= 1)
  /\ projects db' = projects empty_db
  /\ knowledge_contexts db' = knowledge_contexts empty_db
  /\ ids_fresh db'
  /\ (stored_dimension empty_db -> stored_dimension db')
  /\ (references_projects empty_db -> references_projects db').
Proof.
  apply (upsert_document_chunk_keeps empty_db 7 Code "src/a.ts" "v1"
           (demo_metadata "src/a.ts") (along 1)).
  constructor.
Defined.

End Store.

(* ===================================================================== *)
(** * Effects                                                              *)
(* ===================================================================== *)

Module Runtime.

(** Values thrown and caught by the scripts. *)
Inductive exn :=
| ApiError (msg : string)
| TypeError (msg : string)
| StoreError (e : pg_error)
| IOError (msg : string)
| GitConstructError (msg : string)
| Error (msg : string).

(** What a run does to the outside, in order. *)
Inductive event :=
| EmbeddingsRequest (input : list string)
| Sleep (ms : nat)
| ConsoleLog (line : string)
| ConsoleError (line : string) (err : exn)
| ClockRead.

Record world := {
  trace : list event;
  db : database;
  files : list (string * string)
}.

Definition emit (ev : event) (w : world) : world :=
  {| trace := trace w ++ [ev]; db := db w; files := files w |}.

Definition with_db (d : database) (w : world) : world :=
  {| trace := trace w; db := d; files := files w |}.

Definition with_file (path body : string) (w : world) : world :=
  {| trace := trace w; db := db w; files := files w ++ [(path, body)] |}.

(** Requests sent to the embeddings endpoint so far. *)
Definition requests (tr : list event) : list (list string) :=
  flat_map (fun ev => match ev with EmbeddingsRequest i => [i] | _ => [] end) tr.

Definition sleeps (tr : list event) : list nat :=
  flat_map (fun ev => match ev with Sleep ms => [ms] | _ => [] end) tr.

Definition errors_logged (tr : list event) : list (string * exn) :=
  flat_map (fun ev => match ev with ConsoleError l e => [(l, e)] | _ => [] end) tr.

Definition clock_reads (tr : list event) : nat :=
  List.length (flat_map (fun ev => match ev with ClockRead => [tt] | _ => [] end) tr).

(** Computations: a world transformer that returns a value or throws. *)
Definition M (A : Type) : Type := world -> world * (exn + A).

Definition ret {A} (a : A) : M A := fun w => (w, inr a).

Definition throw {A} (e : exn) : M A := fun w => (w, inl e).

Definition bind {A B} (m : M A) (k : A -> M B) : M B :=
  fun w => match m w with
           | (w', inr a) => k a w'
           | (w', inl e) => (w', inl e)
           end.

(** [try { m } catch (error) { handler error }] *)
Definition try_catch {A} (m : M A) (handler : exn -> M A) : M A :=
  fun w => match m w with
           | (w', inl e) => handler e w'
           | r => r
           end.

Notation "x <- m ;; k" := (bind m (fun x => k))
  (at level 61, m at next level, right associativity).
Notation "m ;;; k" := (bind m (fun _ => k))
  (at level 61, right associativity).

Definition console_log (line : string) : M unit :=
  fun w => (emit (ConsoleLog line) w, inr tt).

Definition console_error (line : string) (err : exn) : M unit :=
  fun w => (emit (ConsoleError line err) w, inr tt).

(** [await new Promise(resolve => setTimeout(resolve, ms))] *)
Definition sleep (ms : nat) : M unit :=
  fun w => (emit (Sleep ms) w, inr tt).

(** An outcome handed over by the environment. *)
Definition lift {A} (r : exn + A) : M A := fun w => (w, r).

(** [Array.prototype.slice(a, b)] for [a <= b]. *)
Definition slice {A} (l : list A) (a b : nat) : list A := firstn (b - a) (skipn a l).

Lemma requests_app a b : requests (a ++ b) = requests a ++ requests b.
Proof. apply flat_map_app. Qed.

Lemma sleeps_app a b : sleeps (a ++ b) = sleeps a ++ sleeps b.
Proof. apply flat_map_app. Qed.

Lemma errors_logged_app a b : errors_logged (a ++ b) = errors_logged a ++ errors_logged b.
Proof. apply flat_map_app. Qed.

Lemma slice_window {A} (l : list A) i n : slice l i (i + n) = firstn n (skipn i l).
Proof. unfold slice. now replace (i + n - i) with n by lia. Qed.

Lemma concat_nil_nonempty {A} (n : nat) (rq : list (list A)) :
  Forall (fun b => 1 <= List.length b <= n) rq -> List.concat rq = [] -> rq = [].
Proof.
  destruct 1 as [|b rq [Hb _] _]; trivial. simpl.
  destruct b; simpl in *; [lia|discriminate].
Qed.

End Runtime.
Export Runtime.

(* ===================================================================== *)
(** * EmbeddingService (lib/embeddings/embedding-service.ts)               *)
(* ===================================================================== *)

Module Embedding.

Definition batchSize : nat := 100.

(** [text.substring(0, 8000)] *)
Definition truncate (text : string) : string := substring 0 8000 text.

(** Reading [.embedding] of a missing first item. *)
Definition no_item : exn :=
  TypeError "Cannot read properties of undefined (reading 'embedding')".

Section Service.

(** The embeddings endpoint: the answer to the [k]-th request of the run
    ([k] counts the requests sent before it) for the given inputs, one
    vector per returned item, or a rejection. *)
Variable embeddings_create : nat -> list string -> exn + list embedding.

(** [await this.openai.embeddings.create({ model, input })], followed by
    [response.data.map(item => item.embedding)]. *)
Definition openai_embeddings_create (input : list string) : M (list embedding) :=
  fun w => (emit (EmbeddingsRequest input) w,
            embeddings_create (List.length (requests (trace w))) input).

(** [generateEmbedding]: the input is one string; [response.data[0]] is read. *)
Definition generateEmbedding (text : string) : M embedding :=
  try_catch
    (data <- openai_embeddings_create [truncate text] ;;
     match data with
     | item :: _ => ret item
     | [] => throw no_item
     end)
    (fun error =>
       console_error "Error generating embedding:" error ;;;
       throw error).

(** The [for (let i = 0; i < texts.length; i += batchSize)] loop of
    [generateBatchEmbeddings], from index [i] with the vectors gathered so
    far. *)
Equations? batch_loop (texts : list string) (i : nat) (embeddings : list embedding)
  (w : world) : world * (exn + list embedding) by wf (List.length texts - i) lt :=
batch_loop texts i embeddings w with lt_dec i (List.length texts) => {
  | right _ => (w, inr embeddings)
  | left _ with openai_embeddings_create
                  (map truncate (slice texts i (i + batchSize))) w => {
      | (w1, inl error) => (w1, inl error)
      | (w1, inr data) =>
          batch_loop texts (i + batchSize) (embeddings ++ data)
            (if i + batchSize <? List.length texts
             then fst (sleep 1000 w1) else w1) } }.
Proof. unfold batchSize. lia. Qed.

Definition generateBatchEmbeddings (texts : list string) : M (list embedding) :=
  try_catch
    (batch_loop texts 0 [])
    (fun error =>
       console_error "Error generating batch embeddings:" error ;;;
       throw error).

Lemma generateEmbedding_frame text w :
  db (fst (generateEmbedding text w)) = db w
  /\ files (fst (generateEmbedding text w)) = files w.
Proof.
  unfold generateEmbedding, try_catch, bind, openai_embeddings_create.
  destruct (embeddings_create _ _) as [e|[|v l]]; simpl; auto.
Qed.

Local Arguments firstn : simpl never.
Local Arguments skipn : simpl never.

Lemma batch_loop_step texts i acc w :
  batch_loop texts i acc w =
  if i <? List.length texts then
    match openai_embeddings_create (map truncate (slice texts i (i + batchSize))) w with
    | (w1, inl error) => (w1, inl error)
    | (w1, inr data) =>
        batch_loop texts (i + batchSize) (acc ++ data)
          (if i + batchSize <? List.length texts then fst (sleep 1000 w1) else w1)
    end
  else (w, inr acc).
Proof.
  simp batch_loop.
  destruct (lt_dec i (List.length texts)) as [H|H]; simpl.
  - apply Nat.ltb_lt in H as ->.
    now destruct (embeddings_create _ _).
  - apply Nat.ltb_nlt in H as ->. reflexivity.
Qed.

(** The [j]-th batch of a call: the texts at offsets [100 j .. 100 j + 99],
    each cut to 8000 characters. *)
Definition batch_at (texts : list string) (j : nat) : list string :=
  map truncate (slice texts (j * batchSize) (j * batchSize + batchSize)).

(** ** A service that answers every request, item by item *)

Section Answering.

Variable model : string -> embedding.
Hypothesis create_model :
  forall k batch, embeddings_create k batch = inr (map model batch).

Lemma generateEmbedding_model text w :
  generateEmbedding text w
  = (emit (EmbeddingsRequest [truncate text]) w, inr (model (truncate text))).
Proof.
  unfold generateEmbedding, try_catch, bind, openai_embeddings_create.
  now rewrite create_model.
Qed.

Lemma batch_loop_answers n : forall texts i acc w,
  List.length texts - i <= n ->
  exists w' rq,
    batch_loop texts i acc w
    = (w', inr (acc ++ map model (map truncate (skipn i texts))))
    /\ db w' = db w /\ files w' = files w
    /\ requests (trace w') = requests (trace w) ++ rq
    /\ List.concat rq = map truncate (skipn i texts)
    /\ Forall (fun b => 1 <= List.length b <= batchSize) rq
    /\ (forall j, S j < List.length rq -> List.length (nth j rq []) = batchSize)
    /\ sleeps (trace w') = sleeps (trace w) ++ repeat 1000 (pred (List.length rq)).
Proof.
  induction n as [|n IH]; intros texts i acc w Hm; rewrite batch_loop_step;
    destruct (Nat.ltb_spec i (List.length texts)) as [Hlt|Hge]; try lia.
  1, 3: exists w, []; rewrite (skipn_all2 texts Hge); simpl;
    rewrite !app_nil_r; repeat split; auto; simpl; intros; lia.
  unfold openai_embeddings_create. rewrite create_model, slice_window.
  set (rest := skipn i texts).
  set (b := firstn batchSize rest).
  set (w1 := emit (EmbeddingsRequest (map truncate b)) w).
  set (w2 := if i + batchSize <? List.length texts then fst (sleep 1000 w1) else w1).
  assert (Hrest : List.length rest = List.length texts - i)
    by (unfold rest; apply length_skipn).
  assert (Hnext : skipn (i + batchSize) texts = skipn batchSize rest)
    by (unfold rest; now rewrite skipn_skipn, Nat.add_comm).
  assert (Hb : List.length (map truncate b) = Nat.min batchSize (List.length rest))
    by (unfold b; now rewrite length_map, length_firstn).
  destruct (IH texts (i + batchSize) (acc ++ map model (map truncate b)) w2)
    as (w' & rq & Hrun & Hdb & Hfiles & Hreq & Hcat & Hlen & Hfull & Hsl).
  { unfold batchSize. lia. }
  assert (Hw2 : db w2 = db w /\ files w2 = files w
                /\ requests (trace w2) = requests (trace w) ++ [map truncate b]).
  { unfold w2. destruct (i + batchSize <? List.length texts); simpl;
      rewrite ?requests_app; simpl; rewrite ?app_nil_r; auto. }
  destruct Hw2 as (Hdb2 & Hfiles2 & Hreq2).
  exists w', (map truncate b :: rq). rewrite Hnext in *.
  split; [|split; [|split; [|split; [|split; [|split; [|split]]]]]].
  - rewrite Hrun. f_equal. f_equal.
    rewrite <- app_assoc, <- !map_app. unfold b. now rewrite firstn_skipn.
  - congruence.
  - congruence.
  - rewrite Hreq, Hreq2, <- app_assoc. reflexivity.
  - simpl. rewrite Hcat, <- map_app. unfold b. now rewrite firstn_skipn.
  - constructor; trivial. rewrite Hb. unfold batchSize in *. lia.
  - intros [|j] Hj; cbn [nth List.length] in Hj |- *.
    + rewrite Hb. apply Nat.min_l.
      destruct rq as [|b' rq']; [simpl in Hj; lia|].
      assert (Hne : skipn batchSize rest <> []).
      { intro Habs. rewrite Habs in Hcat.
        apply (concat_nil_nonempty batchSize) in Hcat; trivial. discriminate. }
      destruct (Nat.le_gt_cases (List.length rest) batchSize) as [Hle|Hgt]; [|lia].
      now apply skipn_all2 in Hle.
    + apply Hfull. lia.
  - rewrite Hsl. unfold w2.
    destruct (Nat.ltb_spec (i + batchSize) (List.length texts)) as [Hmore|Hlast]; simpl.
    + rewrite !sleeps_app. simpl. rewrite app_nil_r, <- app_assoc. f_equal.
      destruct rq as [|b' rq']; [|reflexivity].
      simpl in Hcat. symmetry in Hcat. apply map_eq_nil in Hcat.
      apply skipn_all_iff in Hcat. lia.
    + rewrite sleeps_app. simpl. rewrite app_nil_r.
      assert (Hnil : skipn batchSize rest = []) by (apply skipn_all2; lia).
      rewrite Hnil in Hcat. apply (concat_nil_nonempty batchSize) in Hcat; trivial.
      now subst rq.
Qed.

(** C3. With a service that answers every request item by item,
    [generateBatchEmbeddings] sends the inputs (each cut to 8000 characters)
    in consecutive requests of 1 to 100 texts, every request before the last
    holding exactly 100, in input order, and returns one vector per input in
    input order: the vector at position [i] is the one [generateEmbedding]
    returns for the text at position [i]. *)
Theorem generateBatchEmbeddings_preserves_order texts w :
  exists w' rq out,
    generateBatchEmbeddings texts w = (w', inr out)
    /\ requests (trace w') = requests (trace w) ++ rq
    /\ List.concat rq = map truncate texts
    /\ Forall (fun b => 1 <= List.length b <= 100) rq
    /\ (forall j, S j < List.length rq -> List.length (nth j rq []) = 100)
    /\ List.length out = List.length texts
    /\ (forall i t, nth_error texts i = Some t ->
        exists v, nth_error out i = Some v
                  /\ forall w0, snd (generateEmbedding t w0) = inr v).
Proof.
  destruct (batch_loop_answers (List.length texts) texts 0 [] w)
    as (w' & rq & Hrun & _ & _ & Hreq & Hcat & Hlen & Hfull & _); [lia|].
  rewrite skipn_0 in *. simpl in Hrun.
  exists w', rq, (map model (map truncate texts)).
  unfold generateBatchEmbeddings, try_catch. rewrite Hrun.
  repeat split; trivial.
  - now rewrite !length_map.
  - intros i t Hi. exists (model (truncate t)). split.
    + rewrite map_map. now apply (map_nth_error (fun x => model (truncate x))).
    + intros w0. now rewrite generateEmbedding_model.
Qed.

(** X3. The pause between batches: one of 1000 ms per request but the last. *)
Lemma generateBatchEmbeddings_pauses texts w :
  let w' := fst (generateBatchEmbeddings texts w) in
  sleeps (trace w')
  = sleeps (trace w)
      ++ repeat 1000 (pred (List.length (requests (trace w'))
                            - List.length (requests (trace w)))).
Proof.
  destruct (batch_loop_answers (List.length texts) texts 0 [] w)
    as (w' & rq & Hrun & _ & _ & Hreq & _ & _ & _ & Hsl); [lia|].
  unfold generateBatchEmbeddings, try_catch. rewrite Hrun. simpl.
  rewrite Hsl, Hreq, length_app. do 3 f_equal. lia.
Qed.

End Answering.

(** ** A request that is rejected *)

Definition batch_from (texts : list string) (i j : nat) : list string :=
  map truncate (slice texts (i + j * batchSize) (i + j * batchSize + batchSize)).

Lemma batch_from_next texts i j :
  batch_from texts (i + batchSize) j = batch_from texts i (S j).
Proof.
  unfold batch_from.
  now replace (i + batchSize + j * batchSize) with (i + S j * batchSize) by lia.
Qed.

Lemma batch_from_0 texts i :
  batch_from texts i 0 = map truncate (slice texts i (i + batchSize)).
Proof. unfold batch_from. now rewrite Nat.mul_0_l, Nat.add_0_r. Qed.

Lemma batch_loop_rejected j : forall texts i acc w error,
  i + j * batchSize < List.length texts ->
  (forall j', j' < j ->
     exists data,
       embeddings_create (List.length (requests (trace w)) + j') (batch_from texts i j')
       = inr data) ->
  embeddings_create (List.length (requests (trace w)) + j) (batch_from texts i j)
  = inl error ->
  exists w',
    batch_loop texts i acc w = (w', inl error)
    /\ db w' = db w /\ files w' = files w
    /\ requests (trace w') = requests (trace w) ++ map (batch_from texts i) (seq 0 (S j))
    /\ errors_logged (trace w') = errors_logged (trace w).
Proof.
  induction j as [|j IH]; intros texts i acc w error Hlt Hok Hfail;
    rewrite batch_loop_step;
    (destruct (Nat.ltb_spec i (List.length texts)) as [Hi|Hi]; [|lia]);
    unfold openai_embeddings_create; rewrite <- batch_from_0.
  - rewrite Nat.add_0_r in Hfail. rewrite Hfail.
    eexists. split; [reflexivity|]. simpl.
    rewrite requests_app, errors_logged_app. simpl.
    now rewrite app_nil_r.
  - destruct (Hok 0) as [data Hdata]; [lia|].
    rewrite Nat.add_0_r in Hdata. rewrite Hdata.
    set (w1 := emit (EmbeddingsRequest (batch_from texts i 0)) w).
    set (w2 := if i + batchSize <? List.length texts then fst (sleep 1000 w1) else w1).
    assert (Hw2 : db w2 = db w /\ files w2 = files w
                  /\ requests (trace w2) = requests (trace w) ++ [batch_from texts i 0]
                  /\ errors_logged (trace w2) = errors_logged (trace w)).
    { unfold w2. destruct (i + batchSize <? List.length texts); simpl;
        rewrite ?requests_app, ?errors_logged_app; simpl; rewrite ?app_nil_r; auto. }
    destruct Hw2 as (Hdb2 & Hfiles2 & Hreq2 & Herr2).
    assert (Hcount : List.length (requests (trace w2))
                     = S (List.length (requests (trace w))))
      by (rewrite Hreq2, length_app; simpl; lia).
    destruct (IH texts (i + batchSize) (acc ++ data) w2 error)
      as (w' & Hrun & Hdb & Hfiles & Hreq & Herr).
    + unfold batchSize in *. lia.
    + intros j' Hj'. rewrite Hcount, batch_from_next.
      replace (S (List.length (requests (trace w))) + j')
        with (List.length (requests (trace w)) + S j') by lia.
      apply Hok. lia.
    + rewrite Hcount, batch_from_next.
      now replace (S (List.length (requests (trace w))) + j)
        with (List.length (requests (trace w)) + S j) by lia.
    + exists w'. rewrite Hrun. repeat split; try congruence.
      rewrite Hreq, Hreq2, <- app_assoc. f_equal.
      change (seq 0 (S (S j))) with (0 :: seq 1 (S j)).
      cbn [map app]. f_equal. rewrite <- seq_shift, map_map.
      apply map_ext. intros a. apply batch_from_next.
Qed.

(** C5 (amended). When the request for batch [j] is the first to be
    rejected, [generateBatchEmbeddings] sends batches [0 .. j] and no other,
    returns no vector, logs the error and rethrows the very value the
    service rejected with; the store and the files are untouched. *)
Theorem generateBatchEmbeddings_rethrows texts w j error :
  j * batchSize < List.length texts ->
  (forall j', j' < j ->
     exists data,
       embeddings_create (List.length (requests (trace w)) + j') (batch_at texts j')
       = inr data) ->
  embeddings_create (List.length (requests (trace w)) + j) (batch_at texts j)
  = inl error ->
  exists w',
    generateBatchEmbeddings texts w = (w', inl error)
    /\ requests (trace w') = requests (trace w) ++ map (batch_at texts) (seq 0 (S j))
    /\ errors_logged (trace w')
       = errors_logged (trace w) ++ [("Error generating batch embeddings:", error)]
    /\ db w' = db w /\ files w' = files w.
Proof.
  intros Hlt Hok Hfail.
  destruct (batch_loop_rejected j texts 0 [] w error)
    as (w' & Hrun & Hdb & Hfiles & Hreq & Herr); trivial.
  unfold generateBatchEmbeddings, try_catch. rewrite Hrun.
  eexists. split; [reflexivity|]. simpl.
  rewrite requests_app, errors_logged_app. simpl.
  rewrite app_nil_r, Hreq, Herr. repeat split; trivial.
Qed.

(** ** Whatever the service answers *)

Lemma length_substring_le n : forall s, String.length (substring 0 n s) <= n.
Proof.
  induction n as [|n IH]; intros [|a s]; simpl; try lia.
  specialize (IH s). lia.
Qed.

Lemma substring_short n : forall s, String.length s <= n -> substring 0 n s = s.
Proof.
  induction n as [|n IH]; intros [|a s]; simpl; trivial; intros H; try lia.
  rewrite IH; [reflexivity|lia].
Qed.

Lemma truncate_length text : String.length (truncate text) <= 8000.
Proof. apply length_substring_le. Qed.

Lemma truncate_short text : String.length text <= 8000 -> truncate text = text.
Proof. apply substring_short. Qed.

Definition within_limits (b : list string) : Prop :=
  1 <= List.length b <= 100 /\ Forall (fun t => String.length t <= 8000) b.

Lemma batch_within_limits texts i :
  i < List.length texts -> within_limits (map truncate (slice texts i (i + batchSize))).
Proof.
  intros Hi. rewrite slice_window. split.
  - rewrite length_map, length_firstn, length_skipn. unfold batchSize. lia.
  - apply Forall_map, Forall_forall. intros t _. apply truncate_length.
Qed.

Lemma batch_loop_requests n : forall texts i acc w,
  List.length texts - i <= n ->
  let w' := fst (batch_loop texts i acc w) in
  exists rq,
    requests (trace w') = requests (trace w) ++ rq
    /\ Forall within_limits rq
    /\ List.length rq * 100 < (List.length texts - i) + 100
    /\ errors_logged (trace w') = errors_logged (trace w)
    /\ db w' = db w /\ files w' = files w.
Proof.
  induction n as [|n IH]; intros texts i acc w Hm; cbv zeta; rewrite batch_loop_step;
    destruct (Nat.ltb_spec i (List.length texts)) as [Hlt|Hge]; try lia.
  1, 3: exists []; simpl; rewrite app_nil_r; repeat split; auto; lia.
  unfold openai_embeddings_create.
  set (b := map truncate (slice texts i (i + batchSize))).
  pose proof (batch_within_limits texts i Hlt) as Hb. fold b in Hb.
  destruct (embeddings_create _ b) as [error|data].
  - exists [b]. simpl. rewrite requests_app, errors_logged_app. simpl.
    rewrite app_nil_r. repeat split; auto. lia.
  - set (w1 := emit (EmbeddingsRequest b) w).
    set (w2 := if i + batchSize <? List.length texts then fst (sleep 1000 w1) else w1).
    assert (Hw2 : db w2 = db w /\ files w2 = files w
                  /\ requests (trace w2) = requests (trace w) ++ [b]
                  /\ errors_logged (trace w2) = errors_logged (trace w)).
    { unfold w2. destruct (i + batchSize <? List.length texts); simpl;
        rewrite ?requests_app, ?errors_logged_app; simpl; rewrite ?app_nil_r; auto. }
    destruct Hw2 as (Hdb2 & Hfiles2 & Hreq2 & Herr2).
    destruct (IH texts (i + batchSize) (acc ++ data) w2)
      as (rq & Hreq & Hlim & Hcount & Herr & Hdb & Hfiles).
    { unfold batchSize. lia. }
    exists (b :: rq). rewrite Hreq, Hreq2, <- app_assoc.
    repeat split; try congruence.
    + now constructor.
    + simpl. unfold batchSize in *. lia.
Qed.

(** X9. Whatever the service answers, every request [generateBatchEmbeddings]
    sends holds between 1 and 100 texts of at most 8000 characters each, and
    it sends at most one request per started hundred of inputs (none for an
    empty list); the tables and the files are not touched. *)
Theorem generateBatchEmbeddings_requests_within_limits texts w :
  let w' := fst (generateBatchEmbeddings texts w) in
  exists rq,
    requests (trace w') = requests (trace w) ++ rq
    /\ Forall (fun b => 1 <= List.length b <= 100
                        /\ Forall (fun t => String.length t <= 8000) b) rq
    /\ List.length rq * 100 < List.length texts + 100
    /\ db w' = db w /\ files w' = files w.
Proof.
  destruct (batch_loop_requests (List.length texts) texts 0 [] w)
    as (rq & Hreq & Hlim & Hcount & _ & Hdb & Hfiles); [lia|].
  cbv zeta in *. rewrite Nat.sub_0_r in Hcount.
  exists rq. unfold generateBatchEmbeddings, try_catch.
  destruct (batch_loop texts 0 [] w) as [w1 [error|out]]; simpl in *.
  - rewrite requests_app. simpl. rewrite app_nil_r. auto.
  - auto.
Qed.

(** X10. [generateEmbedding] sends exactly one request, holding the text cut
    to its first 8000 characters (the whole text when it is no longer), and
    touches neither tables nor files; when it throws, it has logged that one
    error and nothing else, and when it returns it has logged none. *)
Theorem generateEmbedding_one_request text w :
  let w' := fst (generateEmbedding text w) in
  requests (trace w') = requests (trace w) ++ [[truncate text]]
  /\ String.length (truncate text) <= 8000
  /\ (String.length text <= 8000 -> truncate text = text)
  /\ errors_logged (trace w')
     = errors_logged (trace w)
       ++ match snd (generateEmbedding text w) with
          | inl error => [("Error generating embedding:", error)]
          | inr _ => []
          end
  /\ db w' = db w /\ files w' = files w.
Proof.
  cbv zeta. split; [|split; [apply truncate_length|split; [apply truncate_short|]]].
  - unfold generateEmbedding, try_catch, bind, openai_embeddings_create.
    destruct (embeddings_create _ _) as [e|[|v l]]; simpl;
      rewrite !requests_app; simpl; now rewrite ?app_nil_r.
  - split; [|apply generateEmbedding_frame].
    unfold generateEmbedding, try_catch, bind, openai_embeddings_create.
    destruct (embeddings_create _ _) as [e|[|v l]]; simpl;
      rewrite !errors_logged_app; simpl; now rewrite ?app_nil_r.
Qed.

End Service.

(** ** Concrete services *)

Definition world0 : world :=
  {| trace := []; db := Store.empty_db; files := [] |}.

(** Every text gets the same vector, except that a request holding the text
    "bad" is rejected. *)
Definition rejecting_bad (k : nat) (batch : list string) : exn + list embedding :=
  if existsb (String.eqb "bad") batch then inl (ApiError "rejected")
  else inr (map (fun _ => Store.along 1) batch).

Definition constant_service (k : nat) (batch : list string) : exn + list embedding :=
  inr (map (fun _ => Store.along 1) batch).

Lemma generateBatchEmbeddings_preserves_order_witness :
  exists w' rq out,
    generateBatchEmbeddings constant_service ["a"; "b"; "c"] world0 = (w', inr out)
    /\ requests (trace w') = requests (trace world0) ++ rq
    /\ List.concat rq = map truncate ["a"; "b"; "c"]
    /\ Forall (fun b => 1 <= List.length b <= 100) rq
    /\ (forall j, S j < List.length rq -> List.length (nth j rq []) = 100)
    /\ List.length out = List.length ["a"; "b"; "c"]
    /\ (forall i t, nth_error ["a"; "b"; "c"] i = Some t ->
        exists v, nth_error out i = Some v
                  /\ forall w0, snd (generateEmbedding constant_service t w0) = inr v).
Proof.
  apply (generateBatchEmbeddings_preserves_order constant_service
           (fun _ => Store.along 1)).
  intros k batch. reflexivity.
Defined.

Lemma generateBatchEmbeddings_pauses_witness :
  let w' := fst (generateBatchEmbeddings constant_service (repeat "ok" 250) world0) in
  sleeps (trace w')
  = sleeps (trace world0)
      ++ repeat 1000 (pred (List.length (requests (trace w'))
                            - List.length (requests (trace world0)))).
Proof.
  apply (generateBatchEmbeddings_pauses constant_service (fun _ => Store.along 1)).
  intros k batch. reflexivity.
Defined.

Definition one_bad_after_100 : list string := repeat "ok" 100 ++ ["bad"].

Lemma generateBatchEmbeddings_rethrows_witness :
  exists w',
    generateBatchEmbeddings rejecting_bad one_bad_after_100 world0
    = (w', inl (ApiError "rejected"))
    /\ requests (trace w')
       = requests (trace world0) ++ map (batch_at one_bad_after_100) (seq 0 2)
    /\ errors_logged (trace w')
       = errors_logged (trace world0)
           ++ [("Error generating batch embeddings:", ApiError "rejected")]
    /\ db w' = db world0 /\ files w' = files world0.
Proof.
  apply (generateBatchEmbeddings_rethrows rejecting_bad one_bad_after_100 world0 1).
  - vm_compute. lia.
  - intros [|j'] Hj'; [|lia]. eexists. vm_compute. reflexivity.
  - vm_compute. reflexivity.
Defined.

(** The claim as stated: the thrown value tells the caller the offset of the
    batch that failed, the last one requested. *)
Definition failure_carries_offset : Prop :=
  exists offset_of : exn -> nat,
    forall create texts w w' error j,
      generateBatchEmbeddings create texts w = (w', inl error) ->
      List.length (requests (trace w')) = List.length (requests (trace w)) + S j ->
      offset_of error = j * batchSize.

(** C5 (as stated, refuted). A rejection of the first batch (offset 0) and a
    rejection of the second (offset 100) reach the caller as the same value,
    so no offset can be read off it. *)
Lemma failure_carries_no_offset : ~ failure_carries_offset.
Proof.
  intros [offset_of H].
  assert (H0 : offset_of (ApiError "rejected") = 0 * batchSize).
  { eapply (H rejecting_bad ["bad"] world0 _ _ 0); vm_compute; reflexivity. }
  assert (H1 : offset_of (ApiError "rejected") = 1 * batchSize).
  { eapply (H rejecting_bad one_bad_after_100 world0 _ _ 1); vm_compute; reflexivity. }
  rewrite H0 in H1. discriminate.
Qed.

End Embedding.

(* ===================================================================== *)
(** * String and path helpers of the JavaScript runtime                    *)
(* ===================================================================== *)

Module JsString.

(** The line feed. *)
Definition nl : string := String (ascii_of_nat 10) EmptyString.

(** Template literals print a number in decimal. *)
Definition string_of_nat (n : nat) : string := NilZero.string_of_uint (Nat.to_uint n).
Definition string_of_N (n : N) : string := NilZero.string_of_uint (N.to_uint n).

(** [hay.includes(needle)] *)
Fixpoint includes (needle hay : string) : bool :=
  String.prefix needle hay
  || match hay with
     | EmptyString => false
     | String _ rest => includes needle rest
     end.

(** [s.split(c)] for a one-character separator: at least one piece. *)
Fixpoint split_char (c : ascii) (s : string) : list string :=
  match s with
  | EmptyString => [EmptyString]
  | String a rest =>
      let pieces := split_char c rest in
      if Ascii.eqb a c then EmptyString :: pieces
      else match pieces with
           | first :: others => String a first :: others
           | [] => [String a EmptyString]
           end
  end.

(** White space and line terminators among the code units below 256. *)
Definition is_space (a : ascii) : bool :=
  match nat_of_ascii a with
  | 9 | 10 | 11 | 12 | 13 | 32 | 160 => true
  | _ => false
  end.

Fixpoint trim_start (s : string) : string :=
  match s with
  | EmptyString => EmptyString
  | String a rest => if is_space a then trim_start rest else s
  end.

Fixpoint trim_end (s : string) : string :=
  match s with
  | EmptyString => EmptyString
  | String a rest =>
      match trim_end rest with
      | EmptyString => if is_space a then EmptyString else String a EmptyString
      | kept => String a kept
      end
  end.

(** [s.trim()] *)
Definition trim (s : string) : string := trim_end (trim_start s).

(** Truthiness of a string. *)
Definition truthy (s : string) : bool := negb (String.eqb s EmptyString).

Definition upper (a : ascii) : ascii :=
  let n := nat_of_ascii a in
  if (97 <=? n) && (n <=? 122) then ascii_of_nat (n - 32) else a.

(** [s.toUpperCase()] on the letters a-z. *)
Fixpoint toUpperCase (s : string) : string :=
  match s with
  | EmptyString => EmptyString
  | String a rest => String (upper a) (toUpperCase rest)
  end.

(** [pieces.join(sep)] *)
Definition join (sep : string) (pieces : list string) : string := String.concat sep pieces.

(** [path.basename(p)] for a path that does not end in a slash. *)
Definition basename (p : string) : string := last (split_char "/" p) EmptyString.

(** The suffix that starts at the last dot, if there is a dot. *)
Fixpoint from_last_dot (s : string) : option string :=
  match s with
  | EmptyString => None
  | String a rest =>
      match from_last_dot rest with
      | Some e => Some e
      | None => if Ascii.eqb a "." then Some s else None
      end
  end.

(** [path.extname(p)]: from the last dot of the base name, unless that dot
    is its first character. *)
Definition extname (p : string) : string :=
  match basename p with
  | EmptyString => EmptyString
  | String a rest =>
      if String.eqb (String a rest) ".." then EmptyString
      else match from_last_dot rest with
           | Some e => e
           | None => EmptyString
           end
  end.

(** [path.join(a, b)], without normalisation. *)
Definition path_join (a b : string) : string := a +++ "/" +++ b.

(** [list.includes(x)] on strings. *)
Definition mem (x : string) (l : list string) : bool := existsb (String.eqb x) l.

(** All pieces in a row. *)
Definition concat_all (pieces : list string) : string :=
  fold_right String.append EmptyString pieces.

Lemma append_assoc (a b c : string) : (a +++ b) +++ c = a +++ b +++ c.
Proof. induction a as [|x a IH]; simpl; [reflexivity|now rewrite IH]. Qed.

Lemma append_nil_r (a : string) : a +++ EmptyString = a.
Proof. induction a as [|x a IH]; simpl; [reflexivity|now rewrite IH]. Qed.

Lemma length_append (a b : string) :
  String.length (a +++ b) = String.length a + String.length b.
Proof. induction a as [|x a IH]; simpl; [reflexivity|now rewrite IH]. Qed.

Lemma append_inj_r (a x y : string) : a +++ x = a +++ y -> x = y.
Proof.
  induction a as [|c a IH]; simpl; trivial. intros H. injection H. exact IH.
Qed.

Lemma prefix_append (a b : string) : String.prefix a (a +++ b) = true.
Proof.
  induction a as [|c a IH]; simpl; [now destruct b|].
  destruct (Ascii.ascii_dec c c); [exact IH|contradiction].
Qed.

Lemma includes_suffix (needle a hay : string) :
  includes needle hay = true -> includes needle (a +++ hay) = true.
Proof.
  induction a as [|c a IH]; simpl; trivial. intros H.
  rewrite (IH H). apply orb_true_r.
Qed.

Lemma includes_middle (needle a b : string) : includes needle (a +++ needle +++ b) = true.
Proof.
  apply includes_suffix.
  assert (H : forall hay, String.prefix needle hay = true -> includes needle hay = true).
  { intros hay H. destruct hay; simpl in *; now rewrite H. }
  apply H, prefix_append.
Qed.

Lemma to_uint_nonnil n : Nat.to_uint n <> Decimal.Nil.
Proof.
  intros H. pose proof (Unsigned.of_to n) as Hn. rewrite H in Hn. simpl in Hn.
  subst n. discriminate.
Qed.

Lemma string_of_nat_inj n m : string_of_nat n = string_of_nat m -> n = m.
Proof.
  unfold string_of_nat. intros H.
  apply (f_equal NilZero.uint_of_string) in H.
  rewrite !NilZero.usu in H by apply to_uint_nonnil.
  injection H. apply Unsigned.to_uint_inj.
Qed.

End JsString.
Export JsString.

(* ===================================================================== *)
(** * Processors (code-processor.ts, airtable-processor.ts)                *)
(* ===================================================================== *)

Module Processors.

(** ** CodeProcessor *)

(** The splitter's configuration (constructor). *)
Definition chunkSize : nat := 1000.
Definition chunkOverlap : nat := 200.

Definition separators : list string :=
  [ nl +++ nl +++ "class "; nl +++ nl +++ "function "; nl +++ nl +++ "export ";
    nl +++ nl +++ "const "; nl +++ nl +++ "let "; nl +++ nl +++ "var ";
    nl +++ nl +++ "// "; nl +++ nl +++ "/*"; nl +++ nl +++ "*/";
    nl +++ nl; nl; " "; EmptyString ].

Definition ignoredPatterns : list string :=
  [ "node_modules/"; ".git/"; "dist/"; "build/"; ".next/"; "coverage/";
    "*.log"; "*.lock"; "package-lock.json"; "yarn.lock" ].

Definition processedExtensions : list string :=
  [ ".ts"; ".tsx"; ".js"; ".jsx"; ".py"; ".java"; ".cpp"; ".c";
    ".md"; ".mdx"; ".txt"; ".json"; ".yaml"; ".yml"; ".sql"; ".prisma" ].

Definition shouldProcessFile (filePath : string) : bool :=
  if existsb (fun pattern => includes pattern filePath) ignoredPatterns then false
  else mem (extname filePath) processedExtensions.

Definition getSourceType (filePath : string) : source_type :=
  let ext := extname filePath in
  let fileName := basename filePath in
  if mem ext [".md"; ".mdx"; ".txt"] then Docs
  else if mem ext [".json"; ".yaml"; ".yml"; ".env"]
          || mem fileName ["package.json"; "tsconfig.json"; "next.config.js"]
  then Config
  else Code.

(** The origin path of chunk [i] (counted from 0) of a file split into
    [count] chunks:
    [`${file}${chunks.length > 1 ? `#chunk-${i + 1}` : ''}`] *)
Definition chunk_path (file : string) (count i : nat) : string :=
  file +++ (if 1 <? count then "#chunk-" +++ string_of_nat (i + 1) else EmptyString).

(** [for (let i = 0; i < chunks.length; i++) documents.push({...})]: the
    chunks from index [i] on, [rest] being [chunks.slice(i)]. *)
Fixpoint push_chunks (file : string) (project : uuid) (mtime : string)
  (count i : nat) (rest : list string) (documents : list ProcessedDocument)
  : list ProcessedDocument :=
  match rest with
  | [] => documents
  | pageContent :: rest' =>
      push_chunks file project mtime count (S i) rest'
        (documents ++
         [ {| content := pageContent;
              metadata := {| filePath := chunk_path file count i;
                             fileType := extname file;
                             projectId := project;
                             sourceType := getSourceType file;
                             lastModified := Some mtime;
                             recordId := None; table := None; fields := None |} |} ])
  end.

Section CodeProcessor.

(** The repository as the processor sees it: the outcome of
    [simpleGit(repoPath).raw(['ls-files'])], which is the listing, the error
    of the command, or the [GitConstructError] of [simpleGit(repoPath)] for
    a directory that does not exist; [fs.readFile]; the modification time of
    [fs.stat] in ISO form; and the page contents
    [textSplitter.createDocuments([content])] returns. *)
Variable git_ls_files : string -> exn + string.
Variable readFile : string -> exn + string.
Variable stat_mtime : string -> exn + string.
Variable createDocuments : string -> list string.

Fixpoint process_files (repoPath : string) (project : uuid) (fileList : list string)
  (documents : list ProcessedDocument) : M (list ProcessedDocument) :=
  match fileList with
  | [] => ret documents
  | file :: rest =>
      if shouldProcessFile file then
        fileContent <- lift (readFile (path_join repoPath file)) ;;
        mtime <- lift (stat_mtime (path_join repoPath file)) ;;
        let chunks := createDocuments fileContent in
        process_files repoPath project rest
          (push_chunks file project mtime (List.length chunks) 0 chunks documents)
      else process_files repoPath project rest documents
  end.

(** [simpleGit(repoPath)] stands before the [try]: what it throws is not
    logged here. *)
Definition processCodeRepository (repoPath : string) (project : uuid)
  : M (list ProcessedDocument) :=
  match git_ls_files repoPath with
  | inl (GitConstructError msg) => throw (GitConstructError msg)
  | files =>
      try_catch
        (listing <- lift files ;;
         let fileList := filter truthy (split_char (ascii_of_nat 10) (trim listing)) in
         process_files repoPath project fileList [])
        (fun error =>
           console_error "Error processing repository:" error ;;;
           throw error)
  end.

End CodeProcessor.

(** ** AirtableProcessor *)

(** The value of a field of a record. *)
Inductive field_value :=
| VString (s : string)
| VNumber (q : Q)
| VBoolean (b : bool)
| VArray (items : list string)
| VObject.

(** A record: its id and [Object.entries(record.fields)]. *)
Record airtable_record := {
  rec_id : string;
  rec_fields : list (string * field_value)
}.

(** [typeof value === 'string' && value.length > 10] *)
Definition is_long_string (entry : string * field_value) : bool :=
  match snd entry with
  | VString s => 10 <? String.length s
  | _ => false
  end.

(** [`${key}: ${value}`]; only entries that passed the filter are rendered,
    so the value is a string. *)
Definition render_entry (entry : string * field_value) : string :=
  match snd entry with
  | VString s => fst entry +++ ": " +++ s
  | _ => fst entry +++ ": "
  end.

Definition record_content (r : airtable_record) : string :=
  join (nl +++ nl) (map render_entry (filter is_long_string (rec_fields r))).

Definition record_document (tableName : string) (project : uuid) (r : airtable_record)
  : ProcessedDocument :=
  {| content := record_content r;
     metadata := {| filePath := "airtable/" +++ tableName +++ "/" +++ rec_id r;
                    fileType := "airtable";
                    projectId := project;
                    sourceType := Design;
                    lastModified := None;
                    recordId := Some (rec_id r);
                    table := Some tableName;
                    fields := Some (map fst (rec_fields r)) |} |}.

(** [for (const record of records) { ...; if (content.trim()) documents.push(...) }] *)
Fixpoint push_records (tableName : string) (project : uuid)
  (records : list airtable_record) (documents : list ProcessedDocument)
  : list ProcessedDocument :=
  match records with
  | [] => documents
  | r :: rest =>
      push_records tableName project rest
        (if truthy (trim (record_content r))
         then documents ++ [record_document tableName project r]
         else documents)
  end.

Section AirtableProcessor.

(** [this.base(tableName).select().all()] *)
Variable select_all : string -> exn + list airtable_record.

Definition processTable (tableName : string) (project : uuid)
  : M (list ProcessedDocument) :=
  try_catch
    (records <- lift (select_all tableName) ;;
     ret (push_records tableName project records []))
    (fun error =>
       console_error ("Error processing Airtable table " +++ tableName +++ ":") error ;;;
       throw error).

(** *** The content of a record's document *)

(** The string-valued fields longer than ten characters, with their values. *)
Definition long_strings (entries : list (string * field_value)) : list (string * string) :=
  flat_map (fun kv => match snd kv with
                      | VString s => if 10 <? String.length s then [(fst kv, s)] else []
                      | _ => []
                      end) entries.

Definition entry_line (kv : string * string) : string := fst kv +++ ": " +++ snd kv.

Fixpoint all_space (s : string) : bool :=
  match s with
  | EmptyString => true
  | String a rest => is_space a && all_space rest
  end.

Lemma trim_start_all_space s : all_space s = true -> trim_start s = EmptyString.
Proof.
  induction s as [|a s IH]; simpl; trivial.
  intros H. apply andb_prop in H as [Ha Hs]. rewrite Ha. auto.
Qed.

Lemma trim_end_empty s : trim_end s = EmptyString -> all_space s = true.
Proof.
  induction s as [|a s IH]; simpl; trivial.
  destruct (trim_end s); [|discriminate].
  destruct (is_space a); [auto|discriminate].
Qed.

Lemma trim_start_head s :
  trim_start s = EmptyString \/ exists a rest, trim_start s = String a rest /\ is_space a = false.
Proof.
  induction s as [|a s IH]; simpl; [now left|].
  destruct (is_space a) eqn:E; trivial. right. now exists a, s.
Qed.

Lemma trim_empty s : trim s = EmptyString <-> all_space s = true.
Proof.
  unfold trim. split.
  - intros H. apply trim_end_empty in H.
    induction s as [|a s IH]; simpl in *; trivial.
    destruct (is_space a) eqn:E; simpl in *; [auto|].
    rewrite E in H. discriminate.
  - intros H. now rewrite trim_start_all_space.
Qed.

Lemma all_space_append a b : all_space (a +++ b) = all_space a && all_space b.
Proof.
  induction a as [|x a IH]; simpl; trivial. now rewrite IH, andb_assoc.
Qed.

Lemma entry_line_not_blank kv : all_space (entry_line kv) = false.
Proof.
  unfold entry_line. rewrite !all_space_append. simpl.
  now rewrite andb_false_r.
Qed.

Lemma join_not_blank sep line lines :
  all_space line = false -> all_space (join sep (line :: lines)) = false.
Proof.
  intros H. unfold join; simpl. destruct lines as [|l ls]; trivial.
  now rewrite all_space_append, H.
Qed.

Lemma rendered_long_strings entries :
  map render_entry (filter is_long_string entries) = map entry_line (long_strings entries).
Proof.
  induction entries as [|[k v] entries IH]; simpl; trivial.
  unfold is_long_string at 1; simpl.
  destruct v as [s| | | |]; simpl; trivial.
  destruct (10 <? String.length s); simpl; trivial.
  now rewrite IH.
Qed.

Lemma record_content_lines r :
  record_content r = join (nl +++ nl) (map entry_line (long_strings (rec_fields r))).
Proof. unfold record_content. now rewrite rendered_long_strings. Qed.

(** A record gives a document exactly when it has such a field. *)
Definition has_long_string (r : airtable_record) : bool :=
  match long_strings (rec_fields r) with
  | [] => false
  | _ :: _ => true
  end.

Lemma record_yields r : truthy (trim (record_content r)) = has_long_string r.
Proof.
  rewrite record_content_lines. unfold has_long_string.
  destruct (long_strings (rec_fields r)) as [|kv rest]; cbn [map]; trivial.
  unfold truthy.
  destruct (String.eqb_spec
              (trim (join (nl +++ nl) (entry_line kv :: map entry_line rest)))
              EmptyString) as [H|H]; trivial.
  apply trim_empty in H.
  rewrite join_not_blank in H; [discriminate|apply entry_line_not_blank].
Qed.

Lemma push_records_yielding tableName project records : forall documents,
  push_records tableName project records documents
  = documents ++ map (record_document tableName project) (filter has_long_string records).
Proof.
  induction records as [|r records IH]; intros documents; simpl.
  - now rewrite app_nil_r.
  - rewrite IH, record_yields. destruct (has_long_string r); simpl; trivial.
    now rewrite <- app_assoc.
Qed.

(** C9 (amended). [processTable] gives one document per record that has at
    least one string-valued field longer than ten characters, in the order
    of the records; its content is made of one ["field: value"] entry per
    such field, in the order of the fields, joined by blank lines. Strings
    of ten characters or fewer and values that are not strings are left
    out. *)
Theorem processTable_long_string_entries tableName project records w :
  select_all tableName = inr records ->
  exists docs,
    processTable tableName project w = (w, inr docs)
    /\ map (fun d => recordId (metadata d)) docs
       = map (fun r => Some (rec_id r)) (filter has_long_string records)
    /\ map content docs
       = map (fun r => join (nl +++ nl) (map entry_line (long_strings (rec_fields r))))
           (filter has_long_string records).
Proof.
  intros Hall. unfold processTable, try_catch, bind, lift. rewrite Hall.
  eexists. split; [reflexivity|].
  rewrite push_records_yielding. simpl. rewrite !map_map. split.
  - reflexivity.
  - apply map_ext. intros r. simpl. apply record_content_lines.
Qed.

End AirtableProcessor.

(** ** Concrete records *)

Definition ada : airtable_record :=
  {| rec_id := "rec1";
     rec_fields := [ ("Name", VString "Ada");
                     ("Notes", VString "a long enough note");
                     ("Score", VNumber 3) ] |}.

Example ada_content :
  map content (push_records "People" 7 [ada] []) = ["Notes: a long enough note"].
Proof. vm_compute. reflexivity. Qed.

Lemma processTable_long_string_entries_witness :
  exists docs,
    processTable (fun _ => inr [ada]) "People" 7 Embedding.world0
    = (Embedding.world0, inr docs)
    /\ map (fun d => recordId (metadata d)) docs
       = map (fun r => Some (rec_id r)) (filter has_long_string [ada])
    /\ map content docs
       = map (fun r => join (nl +++ nl) (map entry_line (long_strings (rec_fields r))))
           (filter has_long_string [ada]).
Proof.
  apply (processTable_long_string_entries (fun _ => inr [ada]) "People" 7 [ada]).
  reflexivity.
Defined.

(** The claim as stated: the content of the document of a record holds an
    entry ["field: value"] for each of its string-valued fields. *)
Definition every_string_field_is_rendered : Prop :=
  forall select_all tableName project w w' docs records r doc k s,
    select_all tableName = inr records ->
    processTable select_all tableName project w = (w', inr docs) ->
    In r records -> In doc docs ->
    recordId (metadata doc) = Some (rec_id r) ->
    In (k, VString s) (rec_fields r) ->
    includes (k +++ ": " +++ s) (content doc) = true.

(** C9 (as stated, refuted). The record with the fields [Name = "Ada"] and
    [Notes = "a long enough note"] gives a document that holds no entry for
    [Name]. *)
Lemma short_string_field_is_dropped : ~ every_string_field_is_rendered.
Proof.
  intros H.
  specialize (H (fun _ => inr [ada]) "People" 7 Embedding.world0 Embedding.world0
                (push_records "People" 7 [ada] []) [ada] ada
                (record_document "People" 7 ada) "Name" "Ada").
  assert (Habs : includes ("Name" +++ ": " +++ "Ada")
                   (content (record_document "People" 7 ada)) = true).
  { apply H; try reflexivity; simpl; auto. }
  vm_compute in Habs. discriminate.
Qed.

(** ** More on the code processor *)

(** X11. A path that holds one of the ignored patterns anywhere, not only as
    a directory of its own, is never processed. *)
Theorem shouldProcessFile_ignores pattern before after :
  In pattern ignoredPatterns ->
  shouldProcessFile (before +++ pattern +++ after) = false.
Proof.
  intros Hin. unfold shouldProcessFile.
  assert (H : existsb (fun pattern0 => includes pattern0 (before +++ pattern +++ after))
                ignoredPatterns = true).
  { apply existsb_exists. exists pattern. split; trivial. apply includes_middle. }
  now rewrite H.
Qed.

Lemma shouldProcessFile_ignores_witness :
  shouldProcessFile ("packages/re" +++ "dist/" +++ "index.ts") = false.
Proof.
  apply (shouldProcessFile_ignores "dist/" "packages/re" "index.ts").
  simpl. auto.
Defined.

(** The document made of chunk [i] of a file. *)
Definition chunk_document (file : string) (project : uuid) (mtime : string)
  (count : nat) (ic : nat * string) : ProcessedDocument :=
  {| content := snd ic;
     metadata := {| filePath := chunk_path file count (fst ic);
                    fileType := extname file;
                    projectId := project;
                    sourceType := getSourceType file;
                    lastModified := Some mtime;
                    recordId := None; table := None; fields := None |} |}.

Lemma push_chunks_documents file project mtime count rest : forall i documents,
  push_chunks file project mtime count i rest documents
  = documents
    ++ map (chunk_document file project mtime count)
         (combine (seq i (List.length rest)) rest).
Proof.
  induction rest as [|c rest IH]; intros i documents; simpl.
  - now rewrite app_nil_r.
  - rewrite IH, <- app_assoc. reflexivity.
Qed.

Lemma getSourceType_kinds file :
  getSourceType file = Code \/ getSourceType file = Docs \/ getSourceType file = Config.
Proof.
  unfold getSourceType.
  destruct (mem (extname file) _); [auto|].
  destruct (_ || _); auto.
Qed.

Lemma chunk_path_inj file count i j :
  1 < count -> chunk_path file count i = chunk_path file count j -> i = j.
Proof.
  intros Hc. unfold chunk_path. apply Nat.ltb_lt in Hc. rewrite Hc.
  intros H. apply append_inj_r in H.
  apply (append_inj_r "#chunk-") in H. apply string_of_nat_inj in H. lia.
Qed.

Lemma chunk_paths_NoDup file project mtime count :
  1 < count ->
  forall chunks n start,
    NoDup (map (fun ic => filePath (metadata (chunk_document file project mtime count ic)))
             (combine (seq start n) chunks)).
Proof.
  intros Hcount. induction chunks as [|c chunks IH]; intros n start.
  - destruct (seq start n); constructor.
  - destruct n as [|n]; simpl; [constructor|].
    constructor; [|apply IH].
    intros Hin. apply in_map_iff in Hin as ([k x] & Heq & Hin). simpl in Heq.
    apply chunk_path_inj in Heq; trivial. subst k.
    apply in_combine_l, in_seq in Hin. lia.
Qed.

(** X12. The chunks of one file get pairwise distinct origin paths, however
    many they are and whatever the file is called. *)
Theorem push_chunks_distinct_paths file project mtime chunks :
  NoDup (map (fun d => filePath (metadata d))
           (push_chunks file project mtime (List.length chunks) 0 chunks [])).
Proof.
  rewrite push_chunks_documents. simpl. rewrite map_map.
  destruct chunks as [|c1 [|c2 rest]].
  - constructor.
  - simpl. repeat constructor. simpl. tauto.
  - apply chunk_paths_NoDup. simpl. lia.
Qed.

Lemma map_snd_combine_seq {A : Type} (l : list A) : forall start,
  map (fun ic : nat * A => snd ic) (combine (seq start (List.length l)) l) = l.
Proof.
  induction l as [|x l IH]; intros start; simpl; trivial. now rewrite IH.
Qed.

Section CodeProcessorFacts.

Variable git_ls_files : string -> exn + string.
Variable readFile : string -> exn + string.
Variable stat_mtime : string -> exn + string.
Variable createDocuments : string -> list string.

(** The files of a listing that are processed, in listing order. *)
Definition processed_files (listing : string) : list string :=
  filter shouldProcessFile (filter truthy (split_char (ascii_of_nat 10) (trim listing))).

Definition file_documents (project : uuid) (text_of mtime_of : string -> string)
  (file : string) : list ProcessedDocument :=
  let chunks := createDocuments (text_of file) in
  map (chunk_document file project (mtime_of file) (List.length chunks))
    (combine (seq 0 (List.length chunks)) chunks).

Lemma process_files_documents repoPath project text_of mtime_of fileList :
  (forall file, In file fileList -> shouldProcessFile file = true ->
     readFile (path_join repoPath file) = inr (text_of file)
     /\ stat_mtime (path_join repoPath file) = inr (mtime_of file)) ->
  forall documents w,
    process_files readFile stat_mtime createDocuments repoPath project fileList
      documents w
    = (w, inr (documents
               ++ flat_map (file_documents project text_of mtime_of)
                    (filter shouldProcessFile fileList))).
Proof.
  induction fileList as [|file rest IH]; intros Hread documents w; simpl.
  - now rewrite app_nil_r.
  - destruct (shouldProcessFile file) eqn:Hp.
    + destruct (Hread file (or_introl eq_refl) Hp) as [Htext Htime].
      unfold bind, lift. rewrite Htext, Htime.
      rewrite IH by (intros f Hf; apply Hread; now right).
      rewrite push_chunks_documents, <- app_assoc. reflexivity.
    + apply IH. intros f Hf. apply Hread. now right.
Qed.

(** X13. When the listing succeeds and every processed file can be read,
    [processCodeRepository] returns, without any effect, the chunks of the
    processed files in listing order, nothing dropped, doubled or reordered;
    every document carries the project it was called with, a source type
    that is code, docs or config, and a modification time. *)
Theorem processCodeRepository_documents repoPath project listing text_of mtime_of w :
  git_ls_files repoPath = inr listing ->
  (forall file, In file (processed_files listing) ->
     readFile (path_join repoPath file) = inr (text_of file)
     /\ stat_mtime (path_join repoPath file) = inr (mtime_of file)) ->
  exists docs,
    processCodeRepository git_ls_files readFile stat_mtime createDocuments
      repoPath project w = (w, inr docs)
    /\ map content docs
       = flat_map (fun file => createDocuments (text_of file)) (processed_files listing)
    /\ Forall (fun d => projectId (metadata d) = project
                        /\ (sourceType (metadata d) = Code
                            \/ sourceType (metadata d) = Docs
                            \/ sourceType (metadata d) = Config)
                        /\ lastModified (metadata d) <> None) docs.
Proof.
  intros Hlist Hread.
  unfold processCodeRepository, try_catch, bind, lift. rewrite Hlist.
  rewrite (process_files_documents repoPath project text_of mtime_of).
  - eexists. split; [reflexivity|]. simpl. fold (processed_files listing). split.
    + clear Hread. induction (processed_files listing) as [|file files IH]; simpl; trivial.
      rewrite map_app, IH. f_equal. unfold file_documents.
      rewrite map_map. simpl.
      apply map_snd_combine_seq.
    + apply Forall_forall. intros d Hd. apply in_flat_map in Hd as (file & _ & Hd).
      apply in_map_iff in Hd as (ic & <- & _). simpl.
      split; [reflexivity|]. split; [apply getSourceType_kinds|discriminate].
  - intros file Hin Hp. apply Hread. unfold processed_files. apply filter_In. now split.
Qed.

Lemma process_files_unreadable repoPath project file e fileList :
  In file fileList -> shouldProcessFile file = true ->
  readFile (path_join repoPath file) = inl e ->
  forall documents w,
    exists e',
      process_files readFile stat_mtime createDocuments repoPath project fileList
        documents w = (w, inl e').
Proof.
  induction fileList as [|f rest IH]; intros Hin Hp Hread documents w; [contradiction|].
  simpl. destruct (shouldProcessFile f) eqn:Hpf.
  - unfold bind, lift.
    destruct (readFile (path_join repoPath f)) as [e1|text] eqn:Hf; [now exists e1|].
    destruct (stat_mtime (path_join repoPath f)) as [e2|mtime]; [now exists e2|].
    destruct Hin as [->|Hin]; [congruence|]. now apply IH.
  - destruct Hin as [->|Hin]; [congruence|]. now apply IH.
Qed.

(** X14. One processed file that cannot be read makes the whole call fail:
    [processCodeRepository] logs one error and throws it, and returns no
    document at all, not even those of the files read before. *)
Theorem processCodeRepository_unreadable_file repoPath project listing file e w :
  git_ls_files repoPath = inr listing ->
  In file (processed_files listing) ->
  readFile (path_join repoPath file) = inl e ->
  exists e',
    processCodeRepository git_ls_files readFile stat_mtime createDocuments
      repoPath project w
    = (emit (ConsoleError "Error processing repository:" e') w, inl e').
Proof.
  intros Hlist Hin Hread. unfold processed_files in Hin.
  apply filter_In in Hin as [Hin Hp].
  unfold processCodeRepository, try_catch, bind, lift. rewrite Hlist.
  destruct (process_files_unreadable repoPath project file e _ Hin Hp Hread [] w)
    as [e' ->].
  now exists e'.
Qed.

End CodeProcessorFacts.

Definition one_file_listing (repoPath : string) : exn + string :=
  inr ("src/a.ts" +++ nl).

Lemma processCodeRepository_documents_witness :
  exists docs,
    processCodeRepository one_file_listing (fun _ => inr "let a = 1;")
      (fun _ => inr "2024-05-01T10:00:00.000Z") (fun text => [text])
      "repo" 7 Embedding.world0 = (Embedding.world0, inr docs)
    /\ map content docs
       = flat_map (fun file => [(fun _ : string => "let a = 1;") file])
           (processed_files ("src/a.ts" +++ nl))
    /\ Forall (fun d => projectId (metadata d) = 7
                        /\ (sourceType (metadata d) = Code
                            \/ sourceType (metadata d) = Docs
                            \/ sourceType (metadata d) = Config)
                        /\ lastModified (metadata d) <> None) docs.
Proof.
  apply (processCodeRepository_documents one_file_listing (fun _ => inr "let a = 1;")
           (fun _ => inr "2024-05-01T10:00:00.000Z") (fun text => [text])
           "repo" 7 ("src/a.ts" +++ nl) (fun _ => "let a = 1;")
           (fun _ => "2024-05-01T10:00:00.000Z") Embedding.world0).
  - reflexivity.
  - intros file _. split; reflexivity.
Defined.

Lemma processCodeRepository_unreadable_file_witness :
  exists e',
    processCodeRepository one_file_listing (fun _ => inl (IOError "EACCES"))
      (fun _ => inr "2024-05-01T10:00:00.000Z") (fun text => [text])
      "repo" 7 Embedding.world0
    = (emit (ConsoleError "Error processing repository:" e') Embedding.world0, inl e').
Proof.
  apply (processCodeRepository_unreadable_file one_file_listing
           (fun _ => inl (IOError "EACCES")) (fun _ => inr "2024-05-01T10:00:00.000Z")
           (fun text => [text]) "repo" 7 ("src/a.ts" +++ nl) "src/a.ts"
           (IOError "EACCES") Embedding.world0).
  - reflexivity.
  - vm_compute. left. reflexivity.
  - reflexivity.
Defined.

(** ** More on the table processor *)

(** X15. Every document [processTable] returns is a design document of type
    [airtable] in the project it was called with, comes from a record of the
    table under the path [airtable/<table>/<record id>], and has a content
    that is not blank. *)
Theorem processTable_documents select_all tableName project records w docs :
  select_all tableName = inr records ->
  snd (processTable select_all tableName project w) = inr docs ->
  Forall (fun d =>
            sourceType (metadata d) = Design
            /\ fileType (metadata d) = "airtable"
            /\ projectId (metadata d) = project
            /\ truthy (trim (content d)) = true
            /\ exists r, In r records
                         /\ filePath (metadata d)
                            = "airtable/" +++ tableName +++ "/" +++ rec_id r) docs.
Proof.
  intros Hall. unfold processTable, try_catch, bind, lift. rewrite Hall. simpl.
  intros H. injection H as <-. rewrite push_records_yielding. simpl.
  apply Forall_map, Forall_forall. intros r Hr. apply filter_In in Hr as [Hin Hlong].
  simpl. repeat split; trivial.
  - now rewrite record_yields.
  - now exists r.
Qed.

Lemma processTable_documents_witness :
  Forall (fun d =>
            sourceType (metadata d) = Design
            /\ fileType (metadata d) = "airtable"
            /\ projectId (metadata d) = 7
            /\ truthy (trim (content d)) = true
            /\ exists r, In r [ada]
                         /\ filePath (metadata d)
                            = "airtable/" +++ "People" +++ "/" +++ rec_id r)
    (push_records "People" 7 [ada] []).
Proof.
  apply (processTable_documents (fun _ => inr [ada]) "People" 7 [ada] Embedding.world0).
  - reflexivity.
  - reflexivity.
Defined.

End Processors.

(* ===================================================================== *)
(** * The chunker                                                          *)
(* ===================================================================== *)

Module Chunker.

Section Splitter.

(** Target chunk size and overlap, in characters. *)
Variable size overlap : nat.

(** Modelled from the spec: the text splitter the code processor calls
    ([RecursiveCharacterTextSplitter], from the langchain package) is not
    among the repository's files. Section 4.1 of the spec describes it: the
    text is cut at the first separator of a priority list that occurs in it,
    pieces below the target size are packed into chunks that share about
    [overlap] trailing characters, a piece that is still too large is cut
    with the next separators, and a piece no separator divides is emitted
    whole. Cutting keeps every character: a separator stays at the head of
    the piece it starts.

    [cut_before sep current text]: the pieces of [current ++ text], cut
    before every occurrence of [sep] in [text]; [current] is the piece being
    built. The empty separator cuts between any two characters. *)
Fixpoint cut_before (sep current text : string) : list string :=
  match text with
  | EmptyString => [current]
  | String a rest =>
      if String.prefix sep text && truthy current
      then current :: cut_before sep (String a EmptyString) rest
      else cut_before sep (current +++ String a EmptyString) rest
  end.

(** Modelled from the spec: (chunker, see [cut_before]) the non-empty
    pieces of a text cut at a separator. *)
Definition pieces (sep text : string) : list string :=
  filter truthy (cut_before sep EmptyString text).

(** Modelled from the spec: (chunker, see [cut_before]) the number of
    characters of a run of pieces. *)
Definition total_length (l : list string) : nat :=
  fold_right (fun p n => String.length p + n) 0 l.

(** Modelled from the spec: (chunker, see [cut_before]) the pieces kept from
    the chunk just closed as the overlap of the next one: pieces are dropped
    from the front until at most [overlap] characters remain and the piece
    of [len] characters to come fits. *)
Fixpoint keep_overlap (len : nat) (open : list string) : list string :=
  match open with
  | [] => []
  | p :: rest =>
      if (overlap <? total_length open)
         || ((size <? total_length open + len) && (0 <? total_length open))
      then keep_overlap len rest
      else open
  end.

(** Modelled from the spec: (chunker, see [cut_before]) the chunk made of
    the pieces gathered, if there are any. *)
Definition close (open : list string) : list string :=
  match open with
  | [] => []
  | _ :: _ => [concat_all open]
  end.

(** Modelled from the spec: (chunker, see [cut_before]) packing of small
    pieces into chunks of at most [size] characters, consecutive chunks
    sharing the pieces [keep_overlap] keeps. [open] is the chunk being
    filled. *)
Fixpoint merge (small : list string) (open : list string) : list string :=
  match small with
  | [] => close open
  | p :: rest =>
      if size <? total_length open + String.length p
      then close open ++ merge rest (keep_overlap (String.length p) open ++ [p])
      else merge rest (open ++ [p])
  end.

(** Modelled from the spec: (chunker, see [cut_before]) the recursive
    splitter over a priority list of separators. *)
Fixpoint split_with (separators : list string) (text : string) : list string :=
  match separators with
  | [] => if truthy text then [text] else []
  | sep :: next =>
      if negb (truthy sep) || includes sep text then
        (fix walk (ps : list string) (small : list string) : list string :=
           match ps with
           | [] => merge small []
           | p :: ps' =>
               if String.length p <? size then walk ps' (small ++ [p])
               else merge small [] ++ split_with next p ++ walk ps' []
           end) (pieces sep text) []
      else split_with next text
  end.

(** ** Texts below the target size *)

Lemma concat_all_cut_before sep text : forall current,
  concat_all (cut_before sep current text) = current +++ text.
Proof.
  induction text as [|a rest IH]; intros current; cbn [cut_before].
  - simpl. reflexivity.
  - destruct (String.prefix sep (String a rest) && truthy current);
      cbn [concat_all fold_right].
    + fold (concat_all (cut_before sep (String a EmptyString) rest)).
      now rewrite IH.
    + fold (concat_all (cut_before sep (current +++ String a EmptyString) rest)).
      now rewrite IH, append_assoc.
Qed.

Lemma truthy_false s : truthy s = false -> s = EmptyString.
Proof.
  unfold truthy. destruct (String.eqb_spec s EmptyString); [trivial|discriminate].
Qed.

Lemma concat_all_filter_truthy l : concat_all (filter truthy l) = concat_all l.
Proof.
  induction l as [|p l IH]; simpl; trivial.
  destruct (truthy p) eqn:E; simpl; rewrite IH; trivial.
  now rewrite (truthy_false p E).
Qed.

Lemma concat_all_pieces sep text : concat_all (pieces sep text) = text.
Proof.
  unfold pieces. now rewrite concat_all_filter_truthy, concat_all_cut_before.
Qed.

Lemma total_length_concat_all l : total_length l = String.length (concat_all l).
Proof.
  induction l as [|p l IH]; simpl; trivial. now rewrite length_append, IH.
Qed.

Lemma total_length_app a b : total_length (a ++ b) = total_length a + total_length b.
Proof.
  induction a as [|p a IH]; simpl; trivial. rewrite IH. lia.
Qed.

Lemma piece_length_le p l : In p l -> String.length p <= total_length l.
Proof.
  induction l as [|q l IH]; simpl; [tauto|].
  intros [->|H]; [lia|]. apply IH in H. lia.
Qed.

Lemma merge_fits small : forall open,
  total_length open + total_length small <= size ->
  merge small open = close (open ++ small).
Proof.
  induction small as [|p rest IH]; intros open Hfit; simpl.
  - now rewrite app_nil_r.
  - simpl in Hfit.
    destruct (Nat.ltb_spec size (total_length open + String.length p)); [lia|].
    rewrite IH.
    + now rewrite <- app_assoc.
    + rewrite total_length_app. simpl. lia.
Qed.

Lemma close_pieces sep text :
  close (pieces sep text) = if truthy text then [text] else [].
Proof.
  pose proof (concat_all_pieces sep text) as Hcat.
  assert (Hall : Forall (fun p => truthy p = true) (pieces sep text)).
  { apply Forall_forall. intros p Hp. now apply filter_In in Hp. }
  destruct (pieces sep text) as [|p l]; simpl in *.
  - now subst text.
  - rewrite Hcat. inversion Hall as [|? ? Hp _]; subst.
    destruct p as [|a p]; [discriminate|]. reflexivity.
Qed.

(** C7. A text shorter than the target size comes back as one chunk, the
    text itself, whatever the separators and the overlap; the empty text
    gives no chunk. *)
Theorem split_with_short_text separators text :
  String.length text < size ->
  split_with separators text = if truthy text then [text] else [].
Proof.
  intros Hshort. induction separators as [|sep next IH]; simpl; trivial.
  destruct (negb (truthy sep) || includes sep text); trivial.
  set (walk := fix walk (ps small : list string) {struct ps} : list string :=
         match ps with
         | [] => merge small []
         | p :: ps' =>
             if String.length p <? size then walk ps' (small ++ [p])
             else merge small [] ++ split_with next p ++ walk ps' []
         end).
  assert (Hwalk : forall ps small,
            Forall (fun p => String.length p < size) ps ->
            walk ps small = merge (small ++ ps) []).
  { induction ps as [|p ps IHps]; intros small Hps; simpl.
    - now rewrite app_nil_r.
    - inversion Hps as [|? ? Hp Hps']; subst.
      apply Nat.ltb_lt in Hp. rewrite Hp, IHps by trivial.
      now rewrite <- app_assoc. }
  assert (Htotal : total_length (pieces sep text) = String.length text)
    by now rewrite total_length_concat_all, concat_all_pieces.
  rewrite Hwalk.
  - simpl. rewrite merge_fits by (simpl; lia). simpl. apply close_pieces.
  - apply Forall_forall. intros p Hp. apply piece_length_le in Hp. lia.
Qed.

End Splitter.

(** Modelled from the spec: (chunker, see [cut_before]) the splitter with the
    size, the overlap and the separators the code processor configures; the
    page contents of [createDocuments([content])]. *)
Definition createDocuments (text : string) : list string :=
  split_with Processors.chunkSize Processors.chunkOverlap Processors.separators text.

Lemma split_with_short_text_witness :
  split_with 1000 200 Processors.separators "const answer = 42;"
  = if truthy "const answer = 42;" then ["const answer = 42;"] else [].
Proof.
  apply (split_with_short_text 1000 200 Processors.separators "const answer = 42;").
  vm_compute. lia.
Defined.

Example createDocuments_empty : createDocuments EmptyString = [].
Proof. reflexivity. Qed.

(** The scenario of the spec, on 2398 characters of prose without structural
    separators: three chunks of at most 1000 characters, which repeat at
    most 200 characters at each of the two cuts. *)
Fixpoint prose (words : nat) : string :=
  match words with
  | 0 => EmptyString
  | S n => "lorem ipsum dolor sit " +++ prose n
  end.

Example createDocuments_prose :
  String.length (prose 109) = 2398
  /\ map String.length (createDocuments (prose 109)) = [995; 996; 803]
  /\ total_length (createDocuments (prose 109)) - String.length (prose 109) <= 2 * 200.
Proof. vm_compute. repeat split; lia. Qed.

End Chunker.

(* ===================================================================== *)
(** * KnowledgeBaseGenerator (lib/knowledge-base/generator.ts)             *)
(* ===================================================================== *)

Module Generator.

(** ** Grouping with [reduce] into an object

    [acc[k]] is created on first use and pushed to afterwards; the entries
    of the object come in the order in which keys were first used. (Keys
    that are array indices or names inherited from [Object.prototype] do not
    occur among source types and are not modelled.) *)

Section Grouping.

Context {K A : Type}.
Variable eqb : K -> K -> bool.
Variable key : A -> K.

Fixpoint push_group (acc : list (K * list A)) (k : K) (x : A) : list (K * list A) :=
  match acc with
  | [] => [(k, [x])]
  | (k', xs) :: rest =>
      if eqb k' k then (k', xs ++ [x]) :: rest
      else (k', xs) :: push_group rest k x
  end.

Definition group_by (l : list A) : list (K * list A) :=
  fold_left (fun acc x => push_group acc (key x) x) l [].

(** What [group_by] has built after reading [seen]: one entry per key met,
    each holding, in order, the elements of [seen] with that key. *)
Definition grouped (seen : list A) (acc : list (K * list A)) : Prop :=
  NoDup (map fst acc)
  /\ (forall k xs, In (k, xs) acc ->
        xs <> [] /\ xs = filter (fun x => eqb (key x) k) seen)
  /\ (forall x, In x seen -> In (key x) (map fst acc)).

Hypothesis eqb_eq : forall a b, eqb a b = true <-> a = b.

Definition push_to (k : K) (x : A) (entry : K * list A) : K * list A :=
  if eqb (fst entry) k then (fst entry, snd entry ++ [x]) else entry.

Lemma push_to_absent k x acc :
  ~ In k (map fst acc) -> map (push_to k x) acc = acc.
Proof.
  induction acc as [|[k' xs] acc IH]; simpl; trivial. intros Hn.
  unfold push_to at 1; simpl.
  destruct (eqb k' k) eqn:E; [apply eqb_eq in E; tauto|].
  rewrite IH; tauto.
Qed.

Lemma push_group_map k x acc :
  NoDup (map fst acc) ->
  push_group acc k x
  = map (push_to k x) acc
      ++ (if existsb (fun k' => eqb k' k) (map fst acc) then [] else [(k, [x])]).
Proof.
  induction acc as [|[k' xs] acc IH]; simpl; trivial. intros Hnd.
  inversion Hnd as [|? ? Hk' Hnd']; subst.
  unfold push_to at 1; simpl. destruct (eqb k' k) eqn:E; simpl.
  - apply eqb_eq in E; subst k'. now rewrite push_to_absent, app_nil_r.
  - now rewrite IH.
Qed.

Lemma map_fst_push_to k x acc : map fst (map (push_to k x) acc) = map fst acc.
Proof.
  rewrite map_map. apply map_ext. intros [k' xs]. unfold push_to; simpl.
  now destruct (eqb k' k).
Qed.

Lemma push_group_grouped seen acc x :
  grouped seen acc -> grouped (seen ++ [x]) (push_group acc (key x) x).
Proof.
  intros (Hnd & Hent & Hcov). rewrite push_group_map by trivial.
  destruct (existsb (fun k' => eqb k' (key x)) (map fst acc)) eqn:Ex.
  - rewrite app_nil_r. apply existsb_exists in Ex as (k' & Hin & Hk').
    apply eqb_eq in Hk'; subst k'.
    split; [|split].
    + now rewrite map_fst_push_to.
    + intros k xs Hxs. apply in_map_iff in Hxs as ([k0 xs0] & Heq & Hin0).
      destruct (Hent _ _ Hin0) as [Hne Hfil].
      rewrite filter_app; simpl. unfold push_to in Heq; simpl in Heq.
      destruct (eqb k0 (key x)) eqn:E; injection Heq as <- <-.
      * apply eqb_eq in E; subst k0.
        assert (E : eqb (key x) (key x) = true) by now apply eqb_eq.
        rewrite E, <- Hfil. split; [now destruct xs0|reflexivity].
      * assert (E' : eqb (key x) k0 = false).
        { destruct (eqb (key x) k0) eqn:E'; trivial.
          apply eqb_eq in E'. subst k0.
          assert (eqb (key x) (key x) = true) by now apply eqb_eq. congruence. }
        now rewrite E', app_nil_r.
    + intros y Hy. rewrite map_fst_push_to.
      apply in_app_or in Hy as [Hy|[<-|[]]]; auto.
  - assert (Hnew : ~ In (key x) (map fst acc)).
    { intro Hin. assert (existsb (fun k' => eqb k' (key x)) (map fst acc) = true).
      { apply existsb_exists. exists (key x). split; trivial. now apply eqb_eq. }
      congruence. }
    rewrite push_to_absent by trivial.
    split; [|split].
    + rewrite map_app; simpl. apply NoDup_app; trivial.
      * repeat constructor. simpl; tauto.
      * intros k Hk [<-|[]]. contradiction.
    + intros k xs Hxs. rewrite filter_app; simpl.
      apply in_app_or in Hxs as [Hxs|[Heq|[]]].
      * destruct (Hent _ _ Hxs) as [Hne Hfil]. split; trivial.
        assert (E' : eqb (key x) k = false).
        { destruct (eqb (key x) k) eqn:E'; trivial.
          apply eqb_eq in E'. subst k. exfalso. apply Hnew.
          apply in_map_iff. now exists (key x, xs). }
        now rewrite E', app_nil_r.
      * injection Heq as <- <-. split; [discriminate|].
        assert (E : eqb (key x) (key x) = true) by now apply eqb_eq.
        rewrite E.
        assert (Hnone : filter (fun y => eqb (key y) (key x)) seen = []).
        { destruct (filter (fun y => eqb (key y) (key x)) seen) as [|y l] eqn:F;
            [reflexivity|].
          assert (Hy : In y (filter (fun y => eqb (key y) (key x)) seen))
            by (rewrite F; now left).
          apply filter_In in Hy as [Hy Hk]. apply eqb_eq in Hk.
          exfalso. apply Hnew. rewrite <- Hk. now apply Hcov. }
        now rewrite Hnone.
    + intros y Hy. rewrite map_app. apply in_or_app.
      apply in_app_or in Hy as [Hy|[<-|[]]]; [left; now apply Hcov|right; now left].
Qed.

Lemma fold_push_grouped l : forall seen acc,
  grouped seen acc ->
  grouped (seen ++ l) (fold_left (fun acc x => push_group acc (key x) x) l acc).
Proof.
  induction l as [|x l IH]; intros seen acc H; simpl.
  - now rewrite app_nil_r.
  - replace (seen ++ x :: l) with ((seen ++ [x]) ++ l)
      by now rewrite <- app_assoc.
    apply IH. now apply push_group_grouped.
Qed.

Lemma group_by_grouped l : grouped l (group_by l).
Proof.
  apply (fold_push_grouped l [] []). split; [constructor|].
  split; simpl; intros; contradiction.
Qed.

End Grouping.

Lemma source_type_eqb_eq a b : source_type_eqb a b = true <-> a = b.
Proof. destruct a, b; simpl; split; congruence. Qed.

Section Effects.

(** ** Numbers

    JavaScript numbers are the [FLOAT] values of the store. *)

(** Rounding to binary64: the number nearest to a real. *)
Variable nearest_double : Q -> float8.

(** [String(x)] for a number [x] of size 10^21 or more (exponent form). *)
Variable Number_toString : Q -> string.

(** [x * 100] *)
Definition times100 (x : float8) : float8 :=
  match x with
  | Finite q => nearest_double (q * 100)
  | PosInf => PosInf
  | NegInf => NegInf
  | NaN => NaN
  end.

(** The digits of [toFixed(1)] for a size below 10^21: the nearest multiple
    of one tenth, the larger one on a tie. *)
Definition tenths_text (a : Q) : string :=
  let tenths := Qfloor (a * 10 + (1 # 2)) in
  string_of_nat (Z.to_nat (tenths / 10)) +++ "."
  +++ string_of_nat (Z.to_nat (tenths mod 10)).

(** [x.toFixed(1)]: the text of a value that is not a number; otherwise the
    sign, then the digits of the size, or its [String] from 10^21 on. *)
Definition toFixed1 (x : float8) : string :=
  match x with
  | NaN => "NaN"
  | PosInf => "Infinity"
  | NegInf => "-Infinity"
  | Finite q =>
      let body := if Qle_bool (inject_Z (10 ^ 21)) (Qabs q) then Number_toString (Qabs q)
                  else tenths_text (Qabs q) in
      if Qle_bool 0 q then body else "-" +++ body
  end.

(** For a number that is not negative and is below 10^21, the digits printed
    are those of the number of tenths nearest to it: the printed value is
    within one twentieth of the value, and the last digit stands alone after
    the dot. *)
Lemma toFixed1_nearest_tenth (x : Q) :
  (0 <= x)%Q -> (x < inject_Z (10 ^ 21))%Q ->
  let tenths := Qfloor (x * 10 + (1 # 2)) in
  toFixed1 (Finite x) = string_of_nat (Z.to_nat (tenths / 10)) +++ "."
                        +++ string_of_nat (Z.to_nat (tenths mod 10))
  /\ (inject_Z tenths - (1 # 2) <= x * 10)%Q
  /\ (x * 10 < inject_Z tenths + (1 # 2))%Q
  /\ (0 <= tenths mod 10 < 10)%Z.
Proof.
  intros Hx Hbig tenths. unfold toFixed1, tenths_text.
  assert (Hsmall : Qle_bool (inject_Z (10 ^ 21)) (Qabs x) = false).
  { destruct (Qle_bool (inject_Z (10 ^ 21)) (Qabs x)) eqn:E; trivial.
    apply Qle_bool_iff in E. rewrite Qabs_pos in E by trivial. lra. }
  rewrite Hsmall.
  assert (Habs : (Qabs x * 10 + (1 # 2) == x * 10 + (1 # 2))%Q)
    by now rewrite Qabs_pos.
  rewrite (Qfloor_comp _ _ Habs). fold tenths.
  apply Qle_bool_iff in Hx as Hb. rewrite Hb.
  split; [reflexivity|].
  pose proof (Qfloor_le (x * 10 + (1 # 2))) as Hlo.
  pose proof (Qlt_floor (x * 10 + (1 # 2))) as Hhi.
  fold tenths in Hlo, Hhi. rewrite inject_Z_plus in Hhi.
  change (inject_Z 1) with 1%Q in Hhi.
  split; [lra|]. split; [lra|].
  apply Z.mod_pos_bound. lia.
Qed.

Definition dquote : string := String (ascii_of_nat 34) EmptyString.
Definition fence : string := "```".

(** ** The query context *)

Definition or_default (s : option string) (default : string) : string :=
  match s with
  | Some p => if truthy p then p else default
  | None => default
  end.

(** The body of [chunks.forEach((chunk, index) => { content += ... })]. *)
Definition append_source (content : string) (index : nat) (chunk : Store.search_row)
  : string :=
  let content := content +++ "#### Source " +++ string_of_nat (index + 1) +++ ": "
                 +++ or_default (Store.sr_file_path chunk) "Unknown" +++ nl in
  let content := content +++ "Similarity: "
                 +++ toFixed1 (times100 (Store.similarity chunk)) +++ "%" +++ nl +++ nl in
  let content := content +++ fence +++ nl in
  let content := content +++ Store.sr_chunk_content chunk in
  content +++ nl +++ fence +++ nl +++ nl.

Fixpoint forEach_source (content : string) (index : nat) (chunks : list Store.search_row)
  : string :=
  match chunks with
  | [] => content
  | chunk :: rest => forEach_source (append_source content index chunk) (S index) rest
  end.

(** [for (const [sourceType, chunks] of Object.entries(groupedChunks))] *)
Fixpoint for_groups (content : string)
  (groups : list (source_type * list Store.search_row)) : string :=
  match groups with
  | [] => content
  | (sourceType, chunks) :: rest =>
      let content := content +++ "### " +++ toUpperCase (source_type_text sourceType)
                     +++ " Sources" +++ nl +++ nl in
      for_groups (forEach_source content 0 chunks) rest
  end.

Definition groupedChunks (relevantChunks : list Store.search_row)
  : list (source_type * list Store.search_row) :=
  group_by source_type_eqb Store.sr_source_type relevantChunks.

(** The markdown of the query context, given the time stamp of
    [new Date().toISOString()]. *)
Definition query_context_content (query iso : string)
  (relevantChunks : list Store.search_row) : string :=
  let content := "# Context for: " +++ dquote +++ query +++ dquote +++ nl +++ nl in
  let content := content +++ "Generated: " +++ iso +++ nl +++ nl in
  let content := content +++ "## Relevant Information" +++ nl +++ nl in
  for_groups content (groupedChunks relevantChunks).

(** *** The document, piece by piece *)

(** One source: its heading with the 1-based number and the origin path, the
    similarity as a percentage with one decimal, and the fenced content. *)
Definition source_markdown (n : nat) (chunk : Store.search_row) : string :=
  "#### Source " +++ string_of_nat n +++ ": "
  +++ or_default (Store.sr_file_path chunk) "Unknown" +++ nl
  +++ "Similarity: " +++ toFixed1 (times100 (Store.similarity chunk)) +++ "%" +++ nl +++ nl
  +++ fence +++ nl +++ Store.sr_chunk_content chunk +++ nl +++ fence +++ nl +++ nl.

Definition numbered_sources (first : nat) (chunks : list Store.search_row) : string :=
  concat_all (map (fun nc => source_markdown (fst nc) (snd nc))
                (combine (seq first (List.length chunks)) chunks)).

(** One section: the heading with the source type in capitals, then its
    sources numbered from 1. *)
Definition section_markdown (g : source_type * list Store.search_row) : string :=
  "### " +++ toUpperCase (source_type_text (fst g)) +++ " Sources" +++ nl +++ nl
  +++ numbered_sources 1 (snd g).

Local Arguments source_markdown : simpl never.
Local Arguments String.append : simpl never.

Lemma append_source_markdown content index chunk :
  append_source content index chunk = content +++ source_markdown (S index) chunk.
Proof.
  unfold append_source, source_markdown.
  rewrite Nat.add_1_r, !append_assoc. reflexivity.
Qed.

Lemma forEach_source_markdown chunks : forall content index,
  forEach_source content index chunks
  = content +++ numbered_sources (S index) chunks.
Proof.
  unfold numbered_sources.
  induction chunks as [|c chunks IH]; intros content index; simpl.
  - now rewrite append_nil_r.
  - now rewrite IH, append_source_markdown, append_assoc.
Qed.

Lemma for_groups_markdown groups : forall content,
  for_groups content groups = content +++ concat_all (map section_markdown groups).
Proof.
  induction groups as [|[ty cs] groups IH]; intros content; simpl.
  - now rewrite append_nil_r.
  - rewrite IH, forEach_source_markdown. unfold section_markdown; simpl.
    now rewrite !append_assoc.
Qed.

Lemma query_context_content_markdown query iso chunks :
  query_context_content query iso chunks
  = "# Context for: " +++ dquote +++ query +++ dquote +++ nl +++ nl
    +++ "Generated: " +++ iso +++ nl +++ nl
    +++ "## Relevant Information" +++ nl +++ nl
    +++ concat_all (map section_markdown (groupedChunks chunks)).
Proof.
  unfold query_context_content. rewrite for_groups_markdown, !append_assoc.
  reflexivity.
Qed.

(** ** Plain objects used as maps

    The [reduce] of [generateCodeSummaries] fills an object literal keyed by
    file paths. The object inherits the properties of [Object.prototype]:
    under one of their names [acc[k]] is found before anything is stored,
    it is not an array, and [acc[k].push] throws. [Object.entries] lists
    the keys that are array indices first, in increasing order, and then
    the other keys in the order of their creation. *)

Definition inherited_names : list string :=
  [ "constructor"; "__defineGetter__"; "__defineSetter__"; "hasOwnProperty";
    "__lookupGetter__"; "__lookupSetter__"; "isPrototypeOf"; "propertyIsEnumerable";
    "toString"; "valueOf"; "__proto__"; "toLocaleString" ].

Definition inherited (k : string) : bool := mem k inherited_names.

(** The array index a key denotes: the integer below 2^32 - 1 of which the
    key is the decimal numeral. *)
Definition array_index (k : string) : option N :=
  match NilZero.uint_of_string k with
  | Some d =>
      let n := N.of_uint d in
      if String.eqb (string_of_N n) k && (n <=? 4294967294)%N then Some n else None
  | None => None
  end.

Section Entries.

Context {V : Type}.

Definition owns (acc : list (string * V)) (k : string) : bool :=
  existsb (fun entry => String.eqb (fst entry) k) acc.

Fixpoint insert_index (n : N) (entry : string * V) (l : list (N * (string * V)))
  : list (N * (string * V)) :=
  match l with
  | [] => [(n, entry)]
  | (m, other) :: rest =>
      if (n <=? m)%N then (n, entry) :: l else (m, other) :: insert_index n entry rest
  end.

Definition indexed (obj : list (string * V)) : list (N * (string * V)) :=
  fold_right (fun entry l => match array_index (fst entry) with
                             | Some n => insert_index n entry l
                             | None => l
                             end) [] obj.

Definition named (entry : string * V) : bool :=
  match array_index (fst entry) with
  | Some _ => false
  | None => true
  end.

Definition Object_entries (obj : list (string * V)) : list (string * V) :=
  map snd (indexed obj) ++ filter named obj.

Lemma insert_index_permutation n entry l :
  Permutation (insert_index n entry l) ((n, entry) :: l).
Proof.
  induction l as [|[m other] l IH]; simpl; [reflexivity|].
  destruct (n <=? m)%N; [reflexivity|].
  rewrite IH. apply perm_swap.
Qed.

Lemma Object_entries_permutation obj : Permutation (Object_entries obj) obj.
Proof.
  unfold Object_entries. induction obj as [|entry obj IH]; simpl; [constructor|].
  unfold named at 1. destruct (array_index (fst entry)) as [n|].
  - rewrite insert_index_permutation. simpl. now constructor.
  - apply Permutation_sym, Permutation_cons_app, Permutation_sym, IH.
Qed.

Lemma Object_entries_named obj :
  Forall (fun entry => array_index (fst entry) = None) obj -> Object_entries obj = obj.
Proof.
  intros H.
  assert (Hi : indexed obj = []).
  { induction H as [|entry obj He _ IH]; simpl; trivial. now rewrite He. }
  assert (Hn : filter named obj = obj).
  { induction H as [|entry obj He _ IH]; simpl; trivial.
    unfold named at 1. rewrite He. f_equal. apply IH.
    simpl in Hi. now rewrite He in Hi. }
  unfold Object_entries. now rewrite Hi, Hn.
Qed.

End Entries.

(** ** The code summary *)

(** [chunk.file_path?.split('#')[0] || 'unknown'] *)
Definition file_of_chunk_path (file_path : option string) : string :=
  or_default (option_map (fun p => hd EmptyString (split_char "#" p)) file_path)
    "unknown".

(** The [reduce] of [generateCodeSummaries] over the rows of the query:
<<
    const filePath = chunk.file_path?.split('#')[0] || 'unknown';
    if (!acc[filePath]) acc[filePath] = [];
    acc[filePath].push(chunk);
>>
    from the rows not yet read and the object built so far. *)
Fixpoint reduce_by_file (codeChunks : list document_chunk)
  (acc : list (string * list document_chunk))
  : exn + list (string * list document_chunk) :=
  match codeChunks with
  | [] => inr acc
  | chunk :: rest =>
      let filePath := file_of_chunk_path (dc_file_path chunk) in
      if negb (owns acc filePath) && inherited filePath then
        inl (TypeError "acc[filePath].push is not a function")
      else reduce_by_file rest (push_group String.eqb acc filePath chunk)
  end.

Definition fileGroups (codeChunks : list document_chunk)
  : exn + list (string * list document_chunk) :=
  reduce_by_file codeChunks [].

(** One entry of [Object.entries(fileGroups).forEach(...)]. *)
Definition append_file_summary (content : string)
  (entry : string * list document_chunk) : string :=
  let (filePath, chunks) := entry in
  let content := content +++ "## " +++ filePath +++ nl +++ nl in
  let content := content +++ "**Chunks**: " +++ string_of_nat (List.length chunks)
                 +++ nl +++ nl in
  match chunks with
  | firstChunk :: _ =>
      let content := content +++ "### Preview" +++ nl +++ nl in
      let content := content +++ fence +++ nl in
      let content := content +++ substring 0 500 (dc_chunk_content firstChunk) in
      let content := if 500 <? String.length (dc_chunk_content firstChunk)
                     then content +++ "..." else content in
      content +++ nl +++ fence +++ nl +++ nl
  | [] => content
  end.

Definition code_summary_content (iso : string)
  (fileGroups : list (string * list document_chunk)) : string :=
  let content := "# Code Structure Summary" +++ nl +++ nl in
  let content := content +++ "Generated: " +++ iso +++ nl +++ nl in
  fold_left append_file_summary (Object_entries fileGroups) content.

(** Without an inherited name among the keys, the [reduce] is the grouping
    by key. *)
Lemma reduce_by_file_group_by codeChunks : forall acc,
  Forall (fun chunk => inherited (file_of_chunk_path (dc_file_path chunk)) = false)
    codeChunks ->
  reduce_by_file codeChunks acc
  = inr (fold_left (fun acc chunk =>
                      push_group String.eqb acc
                        (file_of_chunk_path (dc_file_path chunk)) chunk)
           codeChunks acc).
Proof.
  induction codeChunks as [|chunk rest IH]; intros acc H; simpl; trivial.
  inversion H as [|? ? Hc Hrest]; subst.
  rewrite Hc, andb_false_r. now apply IH.
Qed.

Lemma fileGroups_group_by codeChunks :
  Forall (fun chunk => inherited (file_of_chunk_path (dc_file_path chunk)) = false)
    codeChunks ->
  fileGroups codeChunks
  = inr (group_by String.eqb (fun chunk => file_of_chunk_path (dc_file_path chunk))
           codeChunks).
Proof. apply reduce_by_file_group_by. Qed.

(** An inherited name among the keys makes the [reduce] throw. *)
Lemma reduce_by_file_inherited codeChunks : forall acc,
  Forall (fun entry => inherited (fst entry) = false) acc ->
  Exists (fun chunk => inherited (file_of_chunk_path (dc_file_path chunk)) = true)
    codeChunks ->
  reduce_by_file codeChunks acc = inl (TypeError "acc[filePath].push is not a function").
Proof.
  induction codeChunks as [|chunk rest IH]; intros acc Hacc H; simpl;
    [inversion H|].
  destruct (inherited (file_of_chunk_path (dc_file_path chunk))) eqn:Hc.
  - assert (Hown : owns acc (file_of_chunk_path (dc_file_path chunk)) = false).
    { unfold owns. destruct (existsb _ acc) eqn:E; trivial.
      apply existsb_exists in E as (entry & Hin & Hk). apply String.eqb_eq in Hk.
      rewrite Forall_forall in Hacc. specialize (Hacc entry Hin).
      rewrite Hk in Hacc. congruence. }
    now rewrite Hown.
  - rewrite andb_false_r. apply IH.
    + clear IH H. induction acc as [|[k xs] acc IHa]; simpl.
      * repeat constructor. exact Hc.
      * inversion Hacc as [|? ? Hk Hrest]; subst. simpl in Hk.
        destruct (String.eqb k _); constructor; auto.
    + inversion H as [? ? Hnow|? ? Hlater]; subst; [congruence|trivial].
Qed.

(** ** The project overview *)

(** [acc[item.source_type] = (acc[item.source_type] || 0) + 1] *)
Fixpoint bump (acc : list (source_type * nat)) (k : source_type)
  : list (source_type * nat) :=
  match acc with
  | [] => [(k, 1)]
  | (k', n) :: rest =>
      if source_type_eqb k' k then (k', n + 1) :: rest else (k', n) :: bump rest k
  end.

Definition sourceStats (stats : list document_chunk) : list (source_type * nat) :=
  fold_left (fun acc item => bump acc (dc_source_type item)) stats [].

Definition project_overview_content (iso : string) (project : project)
  (stats : list document_chunk) : string :=
  let content := "# " +++ p_name project +++ " - Project Overview" +++ nl +++ nl in
  let content := content +++ "**Description**: "
                 +++ or_default (p_description project) "No description provided"
                 +++ nl +++ nl in
  let content := content +++ "**Tech Stack**: "
                 +++ or_default (Some (join ", " (p_tech_stack project))) "Not specified"
                 +++ nl +++ nl in
  let content := content +++ "**Repository**: "
                 +++ or_default (p_repository_url project) "Not specified"
                 +++ nl +++ nl in
  let content := content +++ "## Knowledge Base Statistics" +++ nl +++ nl in
  let content :=
    fold_left (fun content entry =>
                 content +++ "- **" +++ source_type_text (fst entry) +++ "**: "
                 +++ string_of_nat (snd entry) +++ " documents" +++ nl)
      (sourceStats stats) content in
  content +++ nl +++ "**Last Updated**: " +++ iso +++ nl.

(** ** The issues summary *)

Definition append_issue (state : string * nat) (chunk : document_chunk) : string * nat :=
  let (content, index) := state in
  let content := content +++ "## Issue " +++ string_of_nat (index + 1) +++ nl +++ nl in
  let content := content +++ "**Path**: "
                 +++ match dc_file_path chunk with Some p => p | None => "null" end
                 +++ nl +++ nl in
  let content := content +++ dc_chunk_content chunk in
  (content +++ nl +++ nl +++ "---" +++ nl +++ nl, S index).

Definition issues_summary_content (iso : string) (issueChunks : list document_chunk)
  : string :=
  let content := "# Issues and Tasks Summary" +++ nl +++ nl in
  let content := content +++ "Generated: " +++ iso +++ nl +++ nl in
  let content := content +++ "**Total Issues**: "
                 +++ string_of_nat (List.length issueChunks) +++ nl +++ nl in
  fst (fold_left append_issue (slice issueChunks 0 10) (content, 0)).

(** The answer of the store client to an [rpc] call: [{ data, error }]. *)
Record rpc_response := {
  data : option (list Store.search_row);
  error : option exn
}.

Variable embeddings_create : nat -> list string -> exn + list embedding.

(** [supabase.rpc('search_similar_chunks', {...})] against the current
    database. *)
Variable rpc_search_similar_chunks :
  database -> embedding -> option uuid -> float8 -> Z -> rpc_response.

(** The number the literal [0.6] denotes. *)
Definition similarity_threshold : float8 := nearest_double (6 # 10).

(** The clock: milliseconds since the epoch at the [k]-th reading of the
    run, and the ISO rendering of an instant. *)
Variable clock : nat -> N.
Variable toISOString : N -> string.

(** The error [fs.writeFile] raises for a path, if it raises one. *)
Variable writeFile_error : string -> option exn.

Definition read_clock : M N :=
  fun w => (emit ClockRead w, inr (clock (clock_reads (trace w)))).

Definition writeFile (path body : string) : M unit :=
  fun w => match writeFile_error path with
           | Some e => (w, inl e)
           | None => (with_file path body w, inr tt)
           end.

(** [supabase.from('knowledge_contexts').insert({...})]; the answer is
    not inspected by the caller. *)
Definition insert_knowledge_context (project_id : uuid)
  (context_type title body file_path : string) (tags : list string) : M unit :=
  fun w =>
    if Store.project_exists (db w) project_id then
      (with_db {| projects := projects (db w);
                  document_chunks := document_chunks (db w);
                  knowledge_contexts :=
                    knowledge_contexts (db w)
                    ++ [ {| kc_id := uuid_seed (db w);
                            kc_project_id := Some project_id;
                            kc_context_type := context_type;
                            kc_title := title;
                            kc_content := body;
                            kc_file_path := file_path;
                            kc_tags := tags |} ];
                  uuid_seed := S (uuid_seed (db w)) |} w, inr tt)
    else (w, inr tt).

Definition generateQueryContext (projectId : uuid) (query outputPath : string) : M unit :=
  try_catch
    (queryEmbedding <- Embedding.generateEmbedding embeddings_create query ;;
     response <- (fun w => (w, inr (rpc_search_similar_chunks (db w) queryEmbedding
                                      (Some projectId) similarity_threshold 20%Z))) ;;
     match error response with
     | Some e => throw e
     | None =>
         match data response with
         | None | Some [] =>
             console_log ("No relevant chunks found for query: " +++ query)
         | Some relevantChunks =>
             now <- read_clock ;;
             let fileName := "query-context-" +++ string_of_N now +++ ".md" in
             let filePath := path_join outputPath fileName in
             generated <- read_clock ;;
             let content :=
               query_context_content query (toISOString generated) relevantChunks in
             writeFile filePath content ;;;
             console_log ("Generated query context: " +++ filePath) ;;;
             insert_knowledge_context projectId "query" ("Context for: " +++ query)
               content filePath ["query"; "generated"]
         end
     end)
    (fun error =>
       console_error "Error generating query context:" error ;;;
       throw error).

(** The rows of a query in the order the database gives them under
    [.order('file_path')] and [.order('created_at', { ascending: false })]. *)
Variable order_by_file_path : list document_chunk -> list document_chunk.
Variable order_by_created_at_desc : list document_chunk -> list document_chunk.

(** [process.cwd()] and the error [fs.mkdir] raises for a path, if any. *)
Variable cwd : string.
Variable mkdir_error : string -> option exn.

Definition mkdir (path : string) : M unit :=
  fun w => match mkdir_error path with
           | Some e => (w, inl e)
           | None => (w, inr tt)
           end.

Definition in_project (projectId : uuid) (chunk : document_chunk) : bool :=
  match dc_project_id chunk with
  | Some p => Nat.eqb p projectId
  | None => false
  end.

Definition generateProjectOverview (projectId : uuid) (outputPath : string) : M unit :=
  try_catch
    (found <- (fun w => (w, inr (find (fun pr => Nat.eqb (p_id pr) projectId)
                                   (projects (db w))))) ;;
     match found with
     | None => throw (Error "Project not found")
     | Some project =>
         stats <- (fun w => (w, inr (filter (in_project projectId)
                                       (document_chunks (db w))))) ;;
         updated <- read_clock ;;
         let content := project_overview_content (toISOString updated) project stats in
         let filePath := path_join outputPath "project-overview.md" in
         writeFile filePath content ;;;
         console_log ("Generated project overview: " +++ filePath)
     end)
    (fun error =>
       console_error "Error generating project overview:" error ;;;
       throw error).

Definition generateCodeSummaries (projectId : uuid) (outputPath : string) : M unit :=
  try_catch
    (codeChunks <- (fun w =>
                      (w, inr (order_by_file_path
                                 (filter (fun c => in_project projectId c
                                                   && source_type_eqb (dc_source_type c) Code)
                                    (document_chunks (db w)))))) ;;
     match codeChunks with
     | [] => ret tt
     | _ =>
         fileGroups <- lift (fileGroups codeChunks) ;;
         generated <- read_clock ;;
         let content := code_summary_content (toISOString generated) fileGroups in
         let filePath := path_join outputPath "code-summary.md" in
         writeFile filePath content ;;;
         console_log ("Generated code summary: " +++ filePath)
     end)
    (fun error =>
       console_error "Error generating code summaries:" error ;;;
       throw error).

Definition generateIssueSummaries (projectId : uuid) (outputPath : string) : M unit :=
  try_catch
    (issueChunks <- (fun w =>
                       (w, inr (order_by_created_at_desc
                                  (filter (fun c => in_project projectId c
                                                    && source_type_eqb (dc_source_type c) Issues)
                                     (document_chunks (db w)))))) ;;
     match issueChunks with
     | [] => ret tt
     | _ =>
         generated <- read_clock ;;
         let content := issues_summary_content (toISOString generated) issueChunks in
         let filePath := path_join outputPath "issues-summary.md" in
         writeFile filePath content ;;;
         console_log ("Generated issues summary: " +++ filePath)
     end)
    (fun error =>
       console_error "Error generating issue summaries:" error ;;;
       throw error).

(** [generateContextFiles(projectId, query?)]; the project id is printed in
    decimal in the directory name. *)
Definition generateContextFiles (projectId : uuid) (query : option string) : M unit :=
  let knowledgeBasePath := path_join cwd "knowledge-base" in
  let projectPath :=
    path_join (path_join knowledgeBasePath "contexts") (string_of_nat projectId) in
  mkdir projectPath ;;;
  match query with
  | Some q =>
      if truthy q then generateQueryContext projectId q projectPath
      else
        generateProjectOverview projectId projectPath ;;;
        generateCodeSummaries projectId projectPath ;;;
        generateIssueSummaries projectId projectPath
  | None =>
      generateProjectOverview projectId projectPath ;;;
      generateCodeSummaries projectId projectPath ;;;
      generateIssueSummaries projectId projectPath
  end.

(** C8 (amended). When the search answers with a non-empty list of chunks,
    [generateQueryContext] writes one file whose text is the heading
    [# Context for: "<query>"], the line [Generated: <time stamp>], the
    subheading [## Relevant Information], and then one section per source
    type met among the chunks. A section is headed
    [### <SOURCE TYPE IN CAPITALS> Sources] and lists the chunks of that type
    in the order of the search, each as [#### Source <n>: <path>] (numbered
    from 1; [Unknown] without a path), [Similarity: <pct>%], and the raw
    content between fences. The percentage is the score times 100, computed
    in binary64, as [toFixed(1)] prints it: with one decimal for a number
    (see [toFixed1_nearest_tenth]), [NaN] for a score that is not one. *)
Theorem generateQueryContext_renders projectId query outputPath w w1 e chunks :
  Embedding.generateEmbedding embeddings_create query w = (w1, inr e) ->
  rpc_search_similar_chunks (db w1) e (Some projectId) similarity_threshold 20%Z
  = {| data := Some chunks; error := None |} ->
  chunks <> [] ->
  let filePath :=
    path_join outputPath
      ("query-context-" +++ string_of_N (clock (clock_reads (trace w1))) +++ ".md") in
  let iso := toISOString (clock (S (clock_reads (trace w1)))) in
  writeFile_error filePath = None ->
  exists w' groups,
    generateQueryContext projectId query outputPath w = (w', inr tt)
    /\ files w'
       = files w
         ++ [(filePath,
              "# Context for: " +++ dquote +++ query +++ dquote +++ nl +++ nl
              +++ "Generated: " +++ iso +++ nl +++ nl
              +++ "## Relevant Information" +++ nl +++ nl
              +++ concat_all (map section_markdown groups))]
    /\ NoDup (map fst groups)
    /\ (forall ty cs, In (ty, cs) groups ->
          cs <> []
          /\ cs = filter (fun c => source_type_eqb (Store.sr_source_type c) ty) chunks)
    /\ (forall c, In c chunks -> In (Store.sr_source_type c) (map fst groups)).
Proof.
  intros Hemb Hrpc Hne filePath iso Hwrite.
  destruct (Embedding.generateEmbedding_frame embeddings_create query w)
    as [Hdb1 Hfiles1]. rewrite Hemb in Hdb1, Hfiles1. simpl in Hdb1, Hfiles1.
  destruct (group_by_grouped source_type_eqb Store.sr_source_type
              source_type_eqb_eq chunks) as (Hnd & Hent & Hcov).
  assert (Hreads : clock_reads (trace w1 ++ [ClockRead]) = S (clock_reads (trace w1))).
  { unfold clock_reads. rewrite flat_map_app, length_app. simpl. lia. }
  assert (Hrun : exists w',
            generateQueryContext projectId query outputPath w = (w', inr tt)
            /\ files w'
               = files w1 ++ [(filePath, query_context_content query iso chunks)]).
  { unfold generateQueryContext, try_catch, bind. rewrite Hemb, Hrpc. simpl.
    destruct chunks as [|c chunks]; [contradiction|].
    unfold read_clock, writeFile; simpl.
    rewrite Hreads. fold filePath. fold iso. rewrite Hwrite.
    unfold console_log, insert_knowledge_context. simpl.
    destruct (Store.project_exists _ _); eexists; split; reflexivity. }
  destruct Hrun as (w' & Hrun & Hfiles).
  exists w', (groupedChunks chunks).
  split; [|split; [|split; [|split]]]; trivial.
  now rewrite Hfiles, Hfiles1, query_context_content_markdown.
Qed.

(** C10. When the search answers without error and with no chunk (a missing
    or an empty list), [generateQueryContext] returns normally after logging
    one line: no file is written and the tables, [knowledge_contexts] among
    them, are as before the call. *)
Theorem generateQueryContext_no_results projectId query outputPath w w1 e response :
  Embedding.generateEmbedding embeddings_create query w = (w1, inr e) ->
  rpc_search_similar_chunks (db w1) e (Some projectId) similarity_threshold 20%Z = response ->
  error response = None ->
  data response = None \/ data response = Some [] ->
  exists w',
    generateQueryContext projectId query outputPath w = (w', inr tt)
    /\ files w' = files w
    /\ db w' = db w
    /\ trace w'
       = trace w1 ++ [ConsoleLog ("No relevant chunks found for query: " +++ query)].
Proof.
  intros Hemb Hrpc Herr Hdata.
  destruct (Embedding.generateEmbedding_frame embeddings_create query w)
    as [Hdb1 Hfiles1]. rewrite Hemb in Hdb1, Hfiles1. simpl in Hdb1, Hfiles1.
  eexists. unfold generateQueryContext, try_catch, bind.
  rewrite Hemb, Hrpc, Herr.
  destruct Hdata as [-> | ->]; simpl; auto.
Qed.

(** ** What a call of [generateQueryContext] leaves behind *)

(** The row of [knowledge_contexts] that records a written query context. *)
Definition context_record (d : database) (projectId : uuid) (query filePath content : string)
  : knowledge_context :=
  {| kc_id := uuid_seed d;
     kc_project_id := Some projectId;
     kc_context_type := "query";
     kc_title := "Context for: " +++ query;
     kc_content := content;
     kc_file_path := filePath;
     kc_tags := ["query"; "generated"] |}.

(** X16. A call of [generateQueryContext] that throws has written no file
    and changed no table; the last thing it did was to log the error it
    throws under [Error generating query context:]. *)
Theorem generateQueryContext_failure_writes_nothing projectId query outputPath w w' e :
  generateQueryContext projectId query outputPath w = (w', inl e) ->
  files w' = files w
  /\ db w' = db w
  /\ exists t, trace w' = t ++ [ConsoleError "Error generating query context:" e].
Proof.
  destruct (Embedding.generateEmbedding_frame embeddings_create query w)
    as [Hdb1 Hfiles1].
  unfold generateQueryContext, try_catch, bind.
  destruct (Embedding.generateEmbedding embeddings_create query w) as [w1 [e1|v]];
    simpl in Hdb1, Hfiles1.
  - simpl. intros H. injection H as <- <-. simpl. eauto.
  - destruct (rpc_search_similar_chunks (db w1) v (Some projectId) similarity_threshold 20%Z)
      as [[[|c chunks]|] [e2|]]; simpl;
      try (intros H; injection H as <- <-; simpl; now eauto);
      try discriminate.
    unfold read_clock, writeFile; simpl.
    destruct (writeFile_error _) as [e3|]; simpl.
    + intros H; injection H as <- <-; simpl; eauto.
    + unfold insert_knowledge_context; simpl.
      destruct (Store.project_exists _ _); discriminate.
Qed.

(** X17. A call of [generateQueryContext] that returns has either left
    files and tables as they were (nothing was found), or written exactly
    one file; in that case the projects and the chunks are untouched, and
    when the project is a stored one, one row is added to
    [knowledge_contexts] that carries the path and the very text of the file
    written, the title [Context for: <query>] and the two tags; for an
    unknown project no row is added and the call returns all the same. *)
Theorem generateQueryContext_records_the_file projectId query outputPath w w' :
  generateQueryContext projectId query outputPath w = (w', inr tt) ->
  (files w' = files w /\ db w' = db w)
  \/ exists filePath content,
       files w' = files w ++ [(filePath, content)]
       /\ projects (db w') = projects (db w)
       /\ document_chunks (db w') = document_chunks (db w)
       /\ knowledge_contexts (db w')
          = knowledge_contexts (db w)
            ++ (if Store.project_exists (db w) projectId
                then [context_record (db w) projectId query filePath content]
                else []).
Proof.
  destruct (Embedding.generateEmbedding_frame embeddings_create query w)
    as [Hdb1 Hfiles1].
  unfold generateQueryContext, try_catch, bind.
  destruct (Embedding.generateEmbedding embeddings_create query w) as [w1 [e1|v]];
    simpl in Hdb1, Hfiles1; [discriminate|].
  destruct (rpc_search_similar_chunks (db w1) v (Some projectId) similarity_threshold 20%Z)
    as [[[|c chunks]|] [e2|]]; simpl; try discriminate;
    try (intros H; injection H as <-; left; simpl; now split).
  unfold read_clock, writeFile; simpl.
  destruct (writeFile_error _) as [e3|]; simpl; [discriminate|].
  unfold insert_knowledge_context; simpl. rewrite Hdb1.
  intros H. right. do 2 eexists.
  destruct (Store.project_exists (db w) projectId); injection H as <-; simpl;
    rewrite ?Hdb1, Hfiles1, ?app_nil_r; repeat split; reflexivity.
Qed.

(** ** The files of a run without query *)

Definition of_type (projectId : uuid) (ty : source_type) (c : document_chunk) : bool :=
  in_project projectId c && source_type_eqb (dc_source_type c) ty.

Definition context_directory (projectId : uuid) : string :=
  path_join (path_join (path_join cwd "knowledge-base") "contexts")
    (string_of_nat projectId).

(** X18. Called without a query for a stored project none of whose code
    chunks has a path that is cut to a name inherited from
    [Object.prototype], with a file system that accepts the writes,
    [generateContextFiles] returns after writing into
    [<cwd>/knowledge-base/contexts/<project id>] the project overview, then
    the code summary if and only if the project has a code chunk, then the
    issues summary if and only if it has an issues chunk; it changes no
    table. *)
Theorem generateContextFiles_files projectId project w :
  (forall l, Permutation (order_by_file_path l) l) ->
  (forall l, Permutation (order_by_created_at_desc l) l) ->
  mkdir_error (context_directory projectId) = None ->
  (forall filePath, writeFile_error filePath = None) ->
  find (fun pr => Nat.eqb (p_id pr) projectId) (projects (db w)) = Some project ->
  (forall c, In c (document_chunks (db w)) -> of_type projectId Code c = true ->
     inherited (file_of_chunk_path (dc_file_path c)) = false) ->
  exists w',
    generateContextFiles projectId None w = (w', inr tt)
    /\ db w' = db w
    /\ map fst (files w')
       = map fst (files w)
         ++ [path_join (context_directory projectId) "project-overview.md"]
         ++ (if existsb (of_type projectId Code) (document_chunks (db w))
             then [path_join (context_directory projectId) "code-summary.md"] else [])
         ++ (if existsb (of_type projectId Issues) (document_chunks (db w))
             then [path_join (context_directory projectId) "issues-summary.md"] else []).
Proof.
  intros Hcode Hissues Hmkdir Hwrite Hfind Hkeys.
  assert (Hnone : forall ty order, (forall l, Permutation (order l) l) ->
            order (filter (of_type projectId ty) (document_chunks (db w))) = []
            <-> existsb (of_type projectId ty) (document_chunks (db w)) = false).
  { intros ty order Horder. split.
    - intros H. pose proof (Horder (filter (of_type projectId ty) (document_chunks (db w))))
        as Hp. rewrite H in Hp. apply Permutation_nil in Hp.
      destruct (existsb _ _) eqn:E; trivial.
      apply existsb_exists in E as (c & Hin & Hc).
      assert (Hc' : In c (filter (of_type projectId ty) (document_chunks (db w))))
        by (apply filter_In; now split).
      rewrite Hp in Hc'. contradiction.
    - intros H.
      assert (Hf : filter (of_type projectId ty) (document_chunks (db w)) = []).
      { destruct (filter _ _) as [|c l] eqn:F; trivial.
        assert (Hc : In c (filter (of_type projectId ty) (document_chunks (db w))))
          by (rewrite F; now left).
        apply filter_In in Hc as [Hin Hc].
        assert (existsb (of_type projectId ty) (document_chunks (db w)) = true)
          by (apply existsb_exists; eauto).
        congruence. }
      rewrite Hf. apply Permutation_nil, Permutation_sym, Horder. }
  assert (Hgroups : exists groups,
            fileGroups (order_by_file_path
                          (filter (of_type projectId Code) (document_chunks (db w))))
            = inr groups).
  { eexists. apply fileGroups_group_by, Forall_forall. intros c Hc.
    apply (Permutation_in _ (Hcode _)) in Hc. apply filter_In in Hc as [Hin Hcode'].
    now apply Hkeys. }
  destruct Hgroups as [groups Hgroups].
  unfold generateContextFiles, mkdir, bind. fold (context_directory projectId).
  rewrite Hmkdir.
  unfold generateProjectOverview, try_catch, bind. rewrite Hfind.
  unfold read_clock, writeFile, console_log. rewrite Hwrite. simpl.
  unfold generateCodeSummaries, generateIssueSummaries, try_catch, bind. simpl.
  fold (of_type projectId Code) (of_type projectId Issues).
  pose proof (Hnone Code order_by_file_path Hcode) as Hc.
  pose proof (Hnone Issues order_by_created_at_desc Hissues) as Hi.
  destruct (order_by_file_path _) as [|c cs];
    destruct (existsb (of_type projectId Code) _);
    try (destruct Hc as [Hc1 Hc2]; (now discriminate Hc1) || now discriminate Hc2);
    unfold lift, bind; rewrite ?Hgroups;
    unfold read_clock, writeFile, console_log, ret; simpl; rewrite ?Hwrite; simpl;
    (destruct (order_by_created_at_desc _) as [|i rest];
     destruct (existsb (of_type projectId Issues) _);
     try (destruct Hi as [Hi1 Hi2]; (now discriminate Hi1) || now discriminate Hi2));
    simpl; rewrite ?Hwrite; simpl;
    eexists; (split; [reflexivity|]); simpl;
    rewrite ?map_app; simpl; rewrite <- ?app_assoc; split; reflexivity.
Qed.

(** X19. Called without a query, or with the empty string as query, for a
    project that is not stored, [generateContextFiles] throws
    [Project not found] after logging it once; it writes no file, changes no
    table and does not go on to the code and issue summaries. *)
Theorem generateContextFiles_project_not_found projectId query w :
  query = None \/ query = Some EmptyString ->
  mkdir_error (context_directory projectId) = None ->
  find (fun pr => Nat.eqb (p_id pr) projectId) (projects (db w)) = None ->
  generateContextFiles projectId query w
  = (emit (ConsoleError "Error generating project overview:" (Error "Project not found")) w,
     inl (Error "Project not found")).
Proof.
  intros Hquery Hmkdir Hfind.
  unfold generateContextFiles, mkdir, bind. fold (context_directory projectId).
  destruct Hquery as [-> | ->]; simpl; rewrite Hmkdir;
    unfold generateProjectOverview, try_catch, bind; now rewrite Hfind.
Qed.

(** X26. A code chunk of the project whose path is cut at the first [#] to a
    name inherited from [Object.prototype] (the chunks of a tracked file
    [constructor#1.ts], say) makes [generateCodeSummaries] throw a
    [TypeError]: the error is logged once, no code summary is written and
    no table changes. *)
Theorem generateCodeSummaries_inherited_name projectId outputPath w c :
  (forall l, Permutation (order_by_file_path l) l) ->
  In c (document_chunks (db w)) ->
  of_type projectId Code c = true ->
  inherited (file_of_chunk_path (dc_file_path c)) = true ->
  generateCodeSummaries projectId outputPath w
  = (emit (ConsoleError "Error generating code summaries:"
             (TypeError "acc[filePath].push is not a function")) w,
     inl (TypeError "acc[filePath].push is not a function")).
Proof.
  intros Hcode Hin Htype Hname.
  unfold generateCodeSummaries, try_catch, bind. fold (of_type projectId Code).
  set (codeChunks := order_by_file_path
                       (filter (of_type projectId Code) (document_chunks (db w)))).
  assert (Hc : In c codeChunks).
  { apply (Permutation_in _ (Permutation_sym (Hcode _))), filter_In. now split. }
  assert (Hthrow : fileGroups codeChunks
                   = inl (TypeError "acc[filePath].push is not a function")).
  { apply reduce_by_file_inherited; [constructor|].
    apply Exists_exists. now exists c. }
  destruct codeChunks as [|c0 rest]; [contradiction|].
  unfold lift. now rewrite Hthrow.
Qed.

End Effects.

(** ** The statistics of the overview *)

Lemma bump_push_group (acc : list (source_type * list document_chunk)) k x :
  bump (map (fun g => (fst g, List.length (snd g))) acc) k
  = map (fun g => (fst g, List.length (snd g)))
      (push_group source_type_eqb acc k x).
Proof.
  induction acc as [|[k' xs] acc IH]; simpl; trivial.
  destruct (source_type_eqb k' k); simpl.
  - now rewrite length_app.
  - now rewrite IH.
Qed.

Lemma sourceStats_group_by stats :
  sourceStats stats
  = map (fun g => (fst g, List.length (snd g)))
      (group_by source_type_eqb dc_source_type stats).
Proof.
  unfold sourceStats, group_by.
  change (@nil (source_type * nat))
    with (map (fun g : source_type * list document_chunk => (fst g, List.length (snd g))) []).
  generalize (@nil (source_type * list document_chunk)).
  induction stats as [|c stats IH]; intros acc; simpl; trivial.
  now rewrite (bump_push_group acc (dc_source_type c) c), IH.
Qed.

Lemma list_sum_bump acc k : list_sum (map snd (bump acc k)) = S (list_sum (map snd acc)).
Proof.
  induction acc as [|[k' n] acc IH]; simpl; trivial.
  destruct (source_type_eqb k' k); simpl; [lia|]. rewrite IH. lia.
Qed.

Lemma list_sum_sourceStats stats : list_sum (map snd (sourceStats stats)) = List.length stats.
Proof.
  unfold sourceStats.
  assert (H : forall acc,
            list_sum (map snd (fold_left (fun acc item => bump acc (dc_source_type item))
                                 stats acc))
            = list_sum (map snd acc) + List.length stats).
  { induction stats as [|c stats IH]; intros acc; simpl; [lia|].
    rewrite IH, list_sum_bump. lia. }
  now rewrite H.
Qed.

(** X20. The statistics of the project overview list every source type met
    among the chunks exactly once, each with the number of chunks of that
    type, which is never zero; the numbers add up to the number of chunks. *)
Theorem sourceStats_counts stats :
  NoDup (map fst (sourceStats stats))
  /\ (forall ty n, In (ty, n) (sourceStats stats) ->
        0 < n
        /\ n = List.length (filter (fun c => source_type_eqb (dc_source_type c) ty) stats))
  /\ (forall c, In c stats -> In (dc_source_type c) (map fst (sourceStats stats)))
  /\ list_sum (map snd (sourceStats stats)) = List.length stats.
Proof.
  cut (NoDup (map fst (sourceStats stats))
       /\ (forall ty n, In (ty, n) (sourceStats stats) ->
             0 < n
             /\ n = List.length
                      (filter (fun c => source_type_eqb (dc_source_type c) ty) stats))
       /\ (forall c, In c stats -> In (dc_source_type c) (map fst (sourceStats stats)))).
  { intros (H1 & H2 & H3). pose proof (list_sum_sourceStats stats). auto. }
  rewrite sourceStats_group_by.
  destruct (group_by_grouped source_type_eqb dc_source_type source_type_eqb_eq stats)
    as (Hnd & Hent & Hcov).
  assert (Hkeys : map fst (map (fun g : source_type * list document_chunk =>
                                  (fst g, List.length (snd g)))
                             (group_by source_type_eqb dc_source_type stats))
                  = map fst (group_by source_type_eqb dc_source_type stats))
    by (rewrite map_map; reflexivity).
  rewrite Hkeys. split; [exact Hnd|]. split; [|exact Hcov].
  intros ty n Hin. apply in_map_iff in Hin as ([ty' cs] & Heq & Hin).
  simpl in Heq. injection Heq as -> <-.
  destruct (Hent ty cs Hin) as [Hne Hcs]. split.
  - destruct cs; [contradiction|simpl; lia].
  - now rewrite <- Hcs.
Qed.

(** ** Origin paths and the file they come from *)

Fixpoint has_char (c : ascii) (s : string) : bool :=
  match s with
  | EmptyString => false
  | String a rest => Ascii.eqb a c || has_char c rest
  end.

Lemma split_char_without c s : has_char c s = false -> split_char c s = [s].
Proof.
  induction s as [|a s IH]; simpl; trivial.
  intros H. apply orb_false_elim in H as [Ha Hs]. now rewrite Ha, IH.
Qed.

Lemma hd_split_char_append c a b :
  has_char c a = false ->
  hd EmptyString (split_char c (a +++ String c b)) = a.
Proof.
  induction a as [|x a IH]; simpl.
  - now rewrite Ascii.eqb_refl.
  - intros H. apply orb_false_elim in H as [Hx Ha]. rewrite Hx.
    specialize (IH Ha). destruct (split_char c (a +++ String c b)); simpl in *;
      now subst.
Qed.

Lemma hd_split_chunk_path file count i :
  has_char "#" file = false ->
  hd EmptyString (split_char "#" (Processors.chunk_path file count i)) = file.
Proof.
  intros Hhash. unfold Processors.chunk_path. destruct (1 <? count).
  - change ("#chunk-" +++ string_of_nat (i + 1))
      with (String "#" ("chunk-" +++ string_of_nat (i + 1))).
    now apply hd_split_char_append.
  - now rewrite append_nil_r, split_char_without.
Qed.

(** X1. For a file whose path is not empty and holds no [#], cutting the origin
    path of any of its chunks at the first [#] gives the file path back,
    with one chunk (no suffix) as with several. *)
Theorem file_of_chunk_path_recovers file count i :
  has_char "#" file = false -> truthy file = true ->
  file_of_chunk_path (Some (Processors.chunk_path file count i)) = file.
Proof.
  intros Hhash Hfile. unfold file_of_chunk_path, or_default. cbn [option_map].
  now rewrite hd_split_chunk_path, Hfile.
Qed.

Lemma file_of_chunk_path_recovers_witness :
  file_of_chunk_path (Some (Processors.chunk_path "src/a.ts" 3 1)) = "src/a.ts".
Proof.
  apply (file_of_chunk_path_recovers "src/a.ts" 3 1); reflexivity.
Defined.

(** X2. When every row carries an origin path made from a file path that is not
    empty, holds no [#] and is not a name inherited from [Object.prototype],
    the [reduce] of the code summary returns, and the entries of its object
    are the files: one entry per file met, holding that file's rows in the
    order of the query. *)
Theorem fileGroups_by_file (origin : document_chunk -> string) rows :
  (forall r, In r rows ->
     has_char "#" (origin r) = false /\ truthy (origin r) = true
     /\ inherited (origin r) = false
     /\ exists count i, dc_file_path r = Some (Processors.chunk_path (origin r) count i)) ->
  exists groups,
    fileGroups rows = inr groups
    /\ NoDup (map fst (Object_entries groups))
    /\ (forall f cs, In (f, cs) (Object_entries groups) ->
          cs <> [] /\ cs = filter (fun r => String.eqb (origin r) f) rows)
    /\ (forall r, In r rows -> In (origin r) (map fst (Object_entries groups))).
Proof.
  intros Hrows.
  assert (Hkey : forall r, In r rows -> file_of_chunk_path (dc_file_path r) = origin r).
  { intros r Hr. destruct (Hrows r Hr) as (Hh & Ht & _ & count & i & ->).
    unfold file_of_chunk_path, or_default. cbn [option_map].
    now rewrite hd_split_chunk_path, Ht. }
  destruct (group_by_grouped String.eqb
              (fun chunk => file_of_chunk_path (dc_file_path chunk))
              String.eqb_eq rows) as (Hnd & Hent & Hcov).
  eexists. split.
  { apply fileGroups_group_by, Forall_forall. intros r Hr.
    rewrite (Hkey r Hr). now destruct (Hrows r Hr) as (_ & _ & Hi & _). }
  set (groups := group_by String.eqb
                   (fun chunk => file_of_chunk_path (dc_file_path chunk)) rows) in *.
  pose proof (Object_entries_permutation groups) as Hperm.
  split; [|split].
  - apply (Permutation_NoDup (l := map fst groups)); trivial.
    apply Permutation_map, Permutation_sym, Hperm.
  - intros f cs Hin. apply (Permutation_in _ Hperm) in Hin.
    destruct (Hent f cs Hin) as [Hne ->]. split; trivial.
    apply filter_ext_in. intros r Hr. now rewrite Hkey.
  - intros r Hr. rewrite <- Hkey by trivial.
    apply (Permutation_in _ (Permutation_map fst (Permutation_sym Hperm))).
    now apply Hcov.
Qed.

(** ** Concrete runs *)

(** The text of a number of size 10^21 or more. No score of the runs below
    comes near that size, and the text is not used. *)
Definition large_number_text (x : Q) : string := "1e+21".

(** The store client answering [rpc] with the rows of
    [Store.search_similar_chunks], in binary64 arithmetic and under a
    sequential scan. *)
Definition demo_rpc (d : database) (q : embedding) (pf : option uuid) (t : float8)
  (n : Z) : rpc_response :=
  match Store.search_similar_chunks Store.first_coordinate_distance binary64
          Store.sequential_scan d q pf t n with
  | inr rows => {| data := Some rows; error := None |}
  | inl e => {| data := None; error := Some (StoreError e) |}
  end.

Definition demo_clock (k : nat) : N := (1700000000000 + N.of_nat k)%N.
Definition demo_iso (t : N) : string := "T" +++ string_of_N t.
Definition writable (path : string) : option exn := None.

Definition two_chunk_world : world :=
  {| trace := []; db := Store.two_chunk_db; files := [] |}.

Definition demo_chunks : list Store.search_row :=
  match data (demo_rpc Store.two_chunk_db (Store.along 1) (Some 7) (binary64 (6 # 10)) 20%Z) with
  | Some rows => rows
  | None => []
  end.

Example demo_chunks_paths : map Store.sr_file_path demo_chunks = [Some "src/near.ts"].
Proof. vm_compute. reflexivity. Qed.

Example demo_document :
  query_context_content binary64 large_number_text "how" "2024-05-01T10:00:00.000Z" demo_chunks
  = "# Context for: " +++ dquote +++ "how" +++ dquote +++ nl +++ nl
    +++ "Generated: 2024-05-01T10:00:00.000Z" +++ nl +++ nl
    +++ "## Relevant Information" +++ nl +++ nl
    +++ "### CODE Sources" +++ nl +++ nl
    +++ "#### Source 1: src/near.ts" +++ nl
    +++ "Similarity: 95.0%" +++ nl +++ nl
    +++ "```" +++ nl +++ "near" +++ nl +++ "```" +++ nl +++ nl.
Proof. vm_compute. reflexivity. Qed.

(** The lines of a text that are not empty. *)
Definition nonblank_lines (text : string) : list string :=
  filter truthy (split_char (ascii_of_nat 10) text).

(** The claim as stated: after the heading and the time-stamp line come the
    sections, so the third line that is not empty is a section heading. *)
Definition sections_follow_time_stamp : Prop :=
  forall nearest_double Number_toString query iso chunks,
    chunks <> [] ->
    has_char (ascii_of_nat 10) query = false ->
    has_char (ascii_of_nat 10) iso = false ->
    String.prefix "### "
      (nth 2 (nonblank_lines (query_context_content nearest_double Number_toString
                                query iso chunks)) EmptyString)
    = true.

(** C8 (as stated, refuted). In the document for one code chunk, the third
    line that is not empty is [## Relevant Information]; the first section
    heading is the fourth. *)
Lemma relevant_information_comes_first : ~ sections_follow_time_stamp.
Proof.
  intros H.
  specialize (H binary64 large_number_text "how" "2024-05-01T10:00:00.000Z" demo_chunks).
  assert (Hthird : nth 2 (nonblank_lines
                            (query_context_content binary64 large_number_text "how" "2024-05-01T10:00:00.000Z"
                               demo_chunks)) EmptyString
                   = "## Relevant Information")
    by (vm_compute; reflexivity).
  rewrite Hthird in H.
  assert (Habs : String.prefix "### " "## Relevant Information" = true).
  { apply H; vm_compute; [discriminate|reflexivity|reflexivity]. }
  vm_compute in Habs. discriminate.
Qed.

Lemma generateQueryContext_renders_witness :
  exists w' groups,
    generateQueryContext binary64 large_number_text Embedding.constant_service demo_rpc demo_clock demo_iso
      writable 7 "how" "out" two_chunk_world = (w', inr tt)
    /\ files w'
       = files two_chunk_world
         ++ [("out/query-context-1700000000000.md",
              "# Context for: " +++ dquote +++ "how" +++ dquote +++ nl +++ nl
              +++ "Generated: " +++ "T1700000000001" +++ nl +++ nl
              +++ "## Relevant Information" +++ nl +++ nl
              +++ concat_all (map (section_markdown binary64 large_number_text) groups))]
    /\ NoDup (map fst groups)
    /\ (forall ty cs, In (ty, cs) groups ->
          cs <> []
          /\ cs = filter (fun c => source_type_eqb (Store.sr_source_type c) ty)
                   demo_chunks)
    /\ (forall c, In c demo_chunks -> In (Store.sr_source_type c) (map fst groups)).
Proof.
  apply (generateQueryContext_renders binary64 large_number_text
           Embedding.constant_service demo_rpc demo_clock
           demo_iso writable 7 "how" "out" two_chunk_world
           (fst (Embedding.generateEmbedding Embedding.constant_service "how"
                   two_chunk_world))
           (Store.along 1) demo_chunks).
  - vm_compute. reflexivity.
  - vm_compute. reflexivity.
  - vm_compute. discriminate.
  - reflexivity.
Defined.

Lemma generateQueryContext_no_results_witness :
  exists w',
    generateQueryContext binary64 large_number_text Embedding.constant_service demo_rpc demo_clock demo_iso
      writable 7 "how" "out" Embedding.world0 = (w', inr tt)
    /\ files w' = files Embedding.world0
    /\ db w' = db Embedding.world0
    /\ trace w'
       = trace (fst (Embedding.generateEmbedding Embedding.constant_service "how"
                       Embedding.world0))
         ++ [ConsoleLog ("No relevant chunks found for query: " +++ "how")].
Proof.
  apply (generateQueryContext_no_results binary64 large_number_text
           Embedding.constant_service demo_rpc
           demo_clock demo_iso writable 7 "how" "out" Embedding.world0
           (fst (Embedding.generateEmbedding Embedding.constant_service "how"
                   Embedding.world0))
           (Store.along 1) {| data := Some []; error := None |}).
  - vm_compute. reflexivity.
  - vm_compute. reflexivity.
  - reflexivity.
  - right. reflexivity.
Defined.

(** A file system that refuses every write. *)
Definition read_only (path : string) : option exn := Some (IOError "EROFS").

Definition refused_run : world * (exn + unit) :=
  generateQueryContext binary64 large_number_text Embedding.constant_service demo_rpc demo_clock demo_iso
    read_only 7 "how" "out" two_chunk_world.

Lemma generateQueryContext_failure_writes_nothing_witness :
  files (fst refused_run) = files two_chunk_world
  /\ db (fst refused_run) = db two_chunk_world
  /\ exists t, trace (fst refused_run)
               = t ++ [ConsoleError "Error generating query context:" (IOError "EROFS")].
Proof.
  apply (generateQueryContext_failure_writes_nothing binary64 large_number_text
           Embedding.constant_service demo_rpc
           demo_clock demo_iso read_only 7 "how" "out" two_chunk_world
           (fst refused_run) (IOError "EROFS")).
  vm_compute. reflexivity.
Defined.

Definition accepted_run : world * (exn + unit) :=
  generateQueryContext binary64 large_number_text Embedding.constant_service demo_rpc demo_clock demo_iso
    writable 7 "how" "out" two_chunk_world.

Lemma generateQueryContext_records_the_file_witness :
  (files (fst accepted_run) = files two_chunk_world
   /\ db (fst accepted_run) = db two_chunk_world)
  \/ exists filePath content,
       files (fst accepted_run) = files two_chunk_world ++ [(filePath, content)]
       /\ projects (db (fst accepted_run)) = projects (db two_chunk_world)
       /\ document_chunks (db (fst accepted_run)) = document_chunks (db two_chunk_world)
       /\ knowledge_contexts (db (fst accepted_run))
          = knowledge_contexts (db two_chunk_world)
            ++ (if Store.project_exists (db two_chunk_world) 7
                then [context_record (db two_chunk_world) 7 "how" filePath content]
                else []).
Proof.
  apply (generateQueryContext_records_the_file binary64 large_number_text
           Embedding.constant_service demo_rpc
           demo_clock demo_iso writable 7 "how" "out" two_chunk_world (fst accepted_run)).
  vm_compute. reflexivity.
Defined.

Definition in_order (rows : list document_chunk) : list document_chunk := rows.

Lemma generateContextFiles_files_witness :
  exists w',
    generateContextFiles binary64 large_number_text Embedding.constant_service demo_rpc demo_clock demo_iso
      writable in_order in_order "/work" (fun _ => None) 7 None two_chunk_world
    = (w', inr tt)
    /\ db w' = db two_chunk_world
    /\ map fst (files w')
       = map fst (files two_chunk_world)
         ++ [path_join (context_directory "/work" 7) "project-overview.md"]
         ++ (if existsb (of_type 7 Code) (document_chunks (db two_chunk_world))
             then [path_join (context_directory "/work" 7) "code-summary.md"] else [])
         ++ (if existsb (of_type 7 Issues) (document_chunks (db two_chunk_world))
             then [path_join (context_directory "/work" 7) "issues-summary.md"] else []).
Proof.
  apply (generateContextFiles_files binary64 large_number_text
           Embedding.constant_service demo_rpc demo_clock
           demo_iso writable in_order in_order "/work" (fun _ => None) 7
           Store.demo_project two_chunk_world).
  - intros l. apply Permutation_refl.
  - intros l. apply Permutation_refl.
  - reflexivity.
  - reflexivity.
  - reflexivity.
  - intros c Hc _. vm_compute in Hc.
    destruct Hc as [<-|[<-|[]]]; vm_compute; reflexivity.
Defined.

Lemma generateContextFiles_project_not_found_witness :
  generateContextFiles binary64 large_number_text Embedding.constant_service demo_rpc demo_clock demo_iso
    writable in_order in_order "/work" (fun _ => None) 8 None two_chunk_world
  = (emit (ConsoleError "Error generating project overview:" (Error "Project not found"))
       two_chunk_world,
     inl (Error "Project not found")).
Proof.
  apply (generateContextFiles_project_not_found binary64 large_number_text
           Embedding.constant_service demo_rpc
           demo_clock demo_iso writable in_order in_order "/work" (fun _ => None)
           8 None two_chunk_world).
  - left. reflexivity.
  - reflexivity.
  - reflexivity.
Defined.

(** One code chunk of the file [constructor#1.ts]. *)
Definition inherited_name_world : world :=
  {| trace := [];
     db := fst (Store.upsert_document_chunk Store.empty_db 7 Code "constructor#1.ts"
                  "let a = 1;" (Store.demo_metadata "constructor#1.ts") (Store.along 1));
     files := [] |}.

Lemma generateCodeSummaries_inherited_name_witness :
  generateCodeSummaries demo_clock demo_iso writable in_order 7 "out" inherited_name_world
  = (emit (ConsoleError "Error generating code summaries:"
             (TypeError "acc[filePath].push is not a function")) inherited_name_world,
     inl (TypeError "acc[filePath].push is not a function")).
Proof.
  apply (generateCodeSummaries_inherited_name demo_clock demo_iso writable in_order
           7 "out" inherited_name_world
           (Store.written_row Store.empty_db 7 Code "constructor#1.ts" "let a = 1;"
              (Store.demo_metadata "constructor#1.ts") (Store.along 1))).
  - intros l. apply Permutation_refl.
  - vm_compute. left. reflexivity.
  - reflexivity.
  - reflexivity.
Defined.

(** A score of 0.6885: its product with 100 in binary64 lies below 68.85
    and is printed [68.8], where the product of the reals would be printed
    [68.9]. A score that is not a number is printed as such. *)
Example percentage_in_binary64 :
  toFixed1 large_number_text (times100 binary64 (binary64 (6885 # 10000))) = "68.8"
  /\ toFixed1 large_number_text (times100 Store.exact (Finite (6885 # 10000))) = "68.9"
  /\ toFixed1 large_number_text (times100 binary64 NaN) = "NaN".
Proof. vm_compute. repeat split; reflexivity. Qed.

(** Keys that are array indices come first in [Object.entries]. *)
Example Object_entries_order :
  map fst (Object_entries [("src/b.ts", 1); ("10", 2); ("9", 3); ("007", 4)])
  = ["9"; "10"; "src/b.ts"; "007"].
Proof. vm_compute. reflexivity. Qed.

End Generator.

(* ===================================================================== *)
(** * The ingestion script (ingest-project.ts)                             *)
(* ===================================================================== *)

Module Ingest.

(** The command-line options. Every one of them is declared with [.option]
    and may be missing, the name included. *)
Record options := {
  name : option string;
  description : option string;
  techStack : option string;
  path : option string;
  repo : option string;
  airtable : option string
}.

(** Truthiness of an optional string. *)
Definition given (o : option string) : bool :=
  match o with
  | Some s => truthy s
  | None => false
  end.

(** How the script ends: [ingestProject] returns and the process ends with
    status 0, or [process.exit(code)] is called. *)
Inductive outcome := Returned | ProcessExit (code : nat).

Definition exit_status (o : outcome) : nat :=
  match o with
  | Returned => 0
  | ProcessExit code => code
  end.

Section Script.

Variable embeddings_create : nat -> list string -> exn + list embedding.

(** The collaborators the script constructs: [CodeProcessor],
    [AirtableProcessor] and [KnowledgeBaseGenerator]. *)
Variable processCodeRepository : string -> uuid -> M (list ProcessedDocument).
Variable processTable : string -> uuid -> M (list ProcessedDocument).
Variable generateContextFiles : uuid -> option string -> M unit.

(** The value the filter [.eq('name', options.name)] compares with: the
    filter is built as text, in which a missing name reads [undefined]. *)
Definition name_text (o : options) : string :=
  match name o with
  | Some n => n
  | None => "undefined"
  end.

(** [supabase.from('projects').select('*').eq('name', options.name).single()] *)
Definition existingProject (o : options) : M (option project) :=
  fun w => (w, inr (find (fun pr => String.eqb (p_name pr) (name_text o))
                      (projects (db w)))).

(** [supabase.from('projects').insert({...}).select().single()]: the answer
    [{ data, error }]. A missing name is not sent and the column is
    [NOT NULL]; names are [UNIQUE]. *)
Definition insertProject (o : options) : world -> world * (pg_error + project) :=
  fun w =>
    match name o with
    | None => (w, inl (NotNullViolation "name"))
    | Some n =>
        if existsb (fun pr => String.eqb (p_name pr) n) (projects (db w)) then
          (w, inl (UniqueViolation "name"))
        else
          let newProject :=
            {| p_id := uuid_seed (db w);
               p_name := n;
               p_description := description o;
               p_tech_stack := match techStack o with
                               | Some t => split_char "," t
                               | None => []
                               end;
               p_repository_url := repo o |} in
          (with_db {| projects := projects (db w) ++ [newProject];
                      document_chunks := document_chunks (db w);
                      knowledge_contexts := knowledge_contexts (db w);
                      uuid_seed := S (uuid_seed (db w)) |} w,
           inr newProject)
    end.

Definition getOrCreateProject (o : options) : M project :=
  existing <- existingProject o ;;
  match existing with
  | Some project =>
      console_log ("Using existing project: " +++ p_name project) ;;;
      ret project
  | None =>
      response <- (fun w => let (w', r) := insertProject o w in (w', inr r)) ;;
      match response with
      | inl error => throw (StoreError error)
      | inr newProject =>
          console_log ("Created new project: " +++ p_name newProject) ;;;
          ret newProject
      end
  end.

(** [for (const table of tables) { ... processors.push(...airtableDocuments) }] *)
Fixpoint processTables (tables : list string) (project : uuid)
  (processors : list ProcessedDocument) : M (list ProcessedDocument) :=
  match tables with
  | [] => ret processors
  | table :: rest =>
      console_log ("Processing Airtable table: " +++ table) ;;;
      airtableDocuments <- processTable (trim table) project ;;
      processTables rest project (processors ++ airtableDocuments)
  end.

(** The documents of the run: the code repository when [--repo] or [--path]
    is given, then the tables of [--airtable]. *)
Definition collectDocuments (o : options) (project : uuid) : M (list ProcessedDocument) :=
  processors <-
    (if given (repo o) || given (path o) then
       let repoPath := match path o with
                       | Some p => if truthy p then p else "./"
                       | None => "./"
                       end in
       console_log ("Processing code repository: " +++ repoPath) ;;;
       processCodeRepository repoPath project
     else ret []) ;;
  match airtable o with
  | Some tables =>
      if truthy tables then processTables (split_char "," tables) project processors
      else ret processors
  | None => ret processors
  end.

(** The body of the inner [try]: embed the document, then write the chunk.
    The answer of the store to the write is not inspected. *)
Definition storeDocument (doc : ProcessedDocument) : M unit :=
  embedding <- Embedding.generateEmbedding embeddings_create (content doc) ;;
  (fun w =>
     (with_db (fst (Store.upsert_document_chunk (db w)
                      (projectId (metadata doc)) (sourceType (metadata doc))
                      (filePath (metadata doc)) (content doc) (metadata doc)
                      embedding)) w,
      inr tt)).

(** [try { ... } catch (error) { console.error(`Error processing document ...`) }] *)
Definition processDocument (doc : ProcessedDocument) : M unit :=
  try_catch (storeDocument doc)
    (fun error =>
       console_error ("Error processing document " +++ filePath (metadata doc) +++ ":")
         error).

(** [for (const doc of batch) { ... }] *)
Fixpoint forEachDocument (batch : list ProcessedDocument) : M unit :=
  match batch with
  | [] => ret tt
  | doc :: rest => processDocument doc ;;; forEachDocument rest
  end.

(** One turn of [for (let i = 0; i < processors.length; i += 50)]. *)
Definition processBatch (processors : list ProcessedDocument) (i : nat) : M unit :=
  console_log ("Processing batch " +++ string_of_nat (i / 50 + 1) +++ "/"
               +++ string_of_nat ((List.length processors + 49) / 50)) ;;;
  forEachDocument (slice processors i (i + 50)) ;;;
  sleep 1000.

Equations? ingestLoop (processors : list ProcessedDocument) (i : nat) (w : world)
  : world * (exn + unit) by wf (List.length processors - i) lt :=
ingestLoop processors i w with lt_dec i (List.length processors) => {
  | right _ => (w, inr tt)
  | left _ with processBatch processors i w => {
      | (w1, inl error) => (w1, inl error)
      | (w1, inr _) => ingestLoop processors (i + 50) w1 } }.
Proof. lia. Qed.

(** The body of the outer [try]. *)
Definition ingestion (o : options) : M unit :=
  project <- getOrCreateProject o ;;
  processors <- collectDocuments o (p_id project) ;;
  console_log ("Processing " +++ string_of_nat (List.length processors)
               +++ " documents...") ;;;
  ingestLoop processors 0 ;;;
  console_log "Generating knowledge base files..." ;;;
  generateContextFiles (p_id project) None ;;;
  console_log ("Successfully ingested project: " +++ p_name project) ;;;
  console_log ("Knowledge base files generated in: knowledge-base/contexts/"
               +++ string_of_nat (p_id project)).

(** [ingestProject]: a throw out of the body is logged and ends the process
    with status 1. (The pictographs that open three of the messages are
    left out.) *)
Definition ingestProject (o : options) (w : world) : world * outcome :=
  match (console_log "Starting project ingestion..." ;;; ingestion o) w with
  | (w', inr _) => (w', Returned)
  | (w', inl error) =>
      (emit (ConsoleError "Error during ingestion:" error) w', ProcessExit 1)
  end.

(** ** What the loop does, document by document *)

(** The vector [generateEmbedding] obtains for a document when its request
    is the [k]-th of the run, or the error it throws. *)
Definition embedded (k : nat) (doc : ProcessedDocument) : exn + embedding :=
  match embeddings_create k [Embedding.truncate (content doc)] with
  | inl e => inl e
  | inr [] => inl Embedding.no_item
  | inr (v :: _) => inr v
  end.

Definition written (d : database) (doc : ProcessedDocument) (v : embedding) : database :=
  fst (Store.upsert_document_chunk d (projectId (metadata doc))
         (sourceType (metadata doc)) (filePath (metadata doc)) (content doc)
         (metadata doc) v).

Definition failure_lines (doc : ProcessedDocument) (e : exn) : list (string * exn) :=
  [ ("Error generating embedding:", e);
    ("Error processing document " +++ filePath (metadata doc) +++ ":", e) ].

Definition afterDocument (doc : ProcessedDocument) (w : world) : world :=
  let w1 := emit (EmbeddingsRequest [Embedding.truncate (content doc)]) w in
  match embedded (List.length (requests (trace w))) doc with
  | inr v => with_db (written (db w) doc v) w1
  | inl e =>
      emit (ConsoleError ("Error processing document " +++ filePath (metadata doc) +++ ":") e)
        (emit (ConsoleError "Error generating embedding:" e) w1)
  end.

Lemma processDocument_after doc w :
  processDocument doc w = (afterDocument doc w, inr tt).
Proof.
  unfold processDocument, storeDocument, afterDocument, embedded, try_catch, bind,
    Embedding.generateEmbedding, Embedding.openai_embeddings_create, try_catch, bind.
  destruct (embeddings_create _ _) as [e|[|v l]]; reflexivity.
Qed.

Definition afterDocuments (docs : list ProcessedDocument) (w : world) : world :=
  fold_left (fun w doc => afterDocument doc w) docs w.

Lemma forEachDocument_after docs : forall w,
  forEachDocument docs w = (afterDocuments docs w, inr tt).
Proof.
  induction docs as [|doc docs IH]; intros w; simpl; trivial.
  unfold bind. now rewrite processDocument_after, IH.
Qed.

(** What the claims speak of: the requests sent, the errors logged, the
    tables and the files. Progress lines and pauses do not show here. *)
Definition observed (w : world)
  : list (list string) * list (string * exn) * database * list (string * string) :=
  (requests (trace w), errors_logged (trace w), db w, files w).

Lemma observed_emit_log line w : observed (emit (ConsoleLog line) w) = observed w.
Proof.
  unfold observed; simpl. rewrite requests_app, errors_logged_app; simpl.
  now rewrite !app_nil_r.
Qed.

Lemma observed_emit_sleep ms w : observed (emit (Sleep ms) w) = observed w.
Proof.
  unfold observed; simpl. rewrite requests_app, errors_logged_app; simpl.
  now rewrite !app_nil_r.
Qed.

Lemma afterDocument_observed doc w1 w2 :
  observed w1 = observed w2 ->
  observed (afterDocument doc w1) = observed (afterDocument doc w2).
Proof.
  unfold observed. intros H. injection H as Hr He Hd Hf.
  unfold afterDocument. rewrite Hr, Hd.
  destruct (embedded _ doc) as [e|v]; simpl;
    rewrite !requests_app, !errors_logged_app; simpl; congruence.
Qed.

Lemma afterDocuments_observed docs : forall w1 w2,
  observed w1 = observed w2 ->
  observed (afterDocuments docs w1) = observed (afterDocuments docs w2).
Proof.
  induction docs as [|doc docs IH]; intros w1 w2 H; simpl; trivial.
  apply IH. now apply afterDocument_observed.
Qed.

Local Arguments firstn : simpl never.
Local Arguments skipn : simpl never.

Lemma ingestLoop_step processors i w :
  ingestLoop processors i w =
  if i <? List.length processors then
    match processBatch processors i w with
    | (w1, inl error) => (w1, inl error)
    | (w1, inr _) => ingestLoop processors (i + 50) w1
    end
  else (w, inr tt).
Proof.
  simp ingestLoop.
  destruct (lt_dec i (List.length processors)) as [H|H]; simpl.
  - rewrite (proj2 (Nat.ltb_lt _ _) H).
    destruct (processBatch processors i w) as [w1 [e|u]]; now simp ingestLoop.
  - apply Nat.ltb_nlt in H as ->. reflexivity.
Qed.

Lemma processBatch_after processors i w :
  exists w1,
    processBatch processors i w = (w1, inr tt)
    /\ observed w1 = observed (afterDocuments (firstn 50 (skipn i processors)) w).
Proof.
  unfold processBatch, bind, console_log, sleep.
  rewrite forEachDocument_after, slice_window.
  eexists. split; [reflexivity|].
  rewrite observed_emit_sleep. apply afterDocuments_observed, observed_emit_log.
Qed.

(** The loop never throws, and it leaves what the documents leave one after
    the other. *)
Lemma ingestLoop_after n : forall processors i w,
  List.length processors - i <= n ->
  exists w',
    ingestLoop processors i w = (w', inr tt)
    /\ observed w' = observed (afterDocuments (skipn i processors) w).
Proof.
  induction n as [|n IH]; intros processors i w Hm; rewrite ingestLoop_step;
    destruct (Nat.ltb_spec i (List.length processors)) as [Hlt|Hge]; try lia.
  1, 3: exists w; now rewrite (skipn_all2 processors Hge).
  destruct (processBatch_after processors i w) as (w1 & -> & Hobs1).
  destruct (IH processors (i + 50) w1) as (w' & Hrun & Hobs); [lia|].
  exists w'. split; trivial. rewrite Hobs.
  rewrite (Nat.add_comm i 50), <- skipn_skipn.
  set (rest := skipn i processors) in *.
  replace (afterDocuments rest w)
    with (afterDocuments (skipn 50 rest) (afterDocuments (firstn 50 rest) w))
    by (unfold afterDocuments; now rewrite <- fold_left_app, firstn_skipn).
  now apply afterDocuments_observed.
Qed.

Definition request_of (doc : ProcessedDocument) : list string :=
  [Embedding.truncate (content doc)].

(** The lines logged for the document whose request is the [k]-th. *)
Definition lines_of (kd : nat * ProcessedDocument) : list (string * exn) :=
  match embedded (fst kd) (snd kd) with
  | inl e => failure_lines (snd kd) e
  | inr _ => []
  end.

(** The table after the document whose request is the [k]-th. *)
Definition write_of (d : database) (kd : nat * ProcessedDocument) : database :=
  match embedded (fst kd) (snd kd) with
  | inr v => written d (snd kd) v
  | inl _ => d
  end.

Lemma afterDocuments_effects docs : forall w,
  let numbered := combine (seq (List.length (requests (trace w))) (List.length docs)) docs in
  requests (trace (afterDocuments docs w))
  = requests (trace w) ++ map request_of docs
  /\ errors_logged (trace (afterDocuments docs w))
     = errors_logged (trace w) ++ flat_map lines_of numbered
  /\ db (afterDocuments docs w) = fold_left write_of numbered (db w)
  /\ files (afterDocuments docs w) = files w.
Proof.
  induction docs as [|doc docs IH]; intros w; simpl.
  - now rewrite !app_nil_r.
  - destruct (IH (afterDocument doc w)) as (Hr & He & Hd & Hf).
    assert (Hone : requests (trace (afterDocument doc w))
                   = requests (trace w) ++ [request_of doc]
                   /\ errors_logged (trace (afterDocument doc w))
                      = errors_logged (trace w)
                          ++ lines_of (List.length (requests (trace w)), doc)
                   /\ db (afterDocument doc w)
                      = write_of (db w) (List.length (requests (trace w)), doc)
                   /\ files (afterDocument doc w) = files w).
    { unfold afterDocument, lines_of, write_of, failure_lines, request_of; simpl.
      destruct (embedded _ doc) as [e|v]; simpl;
        rewrite !requests_app, !errors_logged_app; simpl;
        rewrite <- ?app_assoc, ?app_nil_r; auto. }
    destruct Hone as (Hr1 & He1 & Hd1 & Hf1).
    assert (Hk : List.length (requests (trace (afterDocument doc w)))
                 = S (List.length (requests (trace w))))
      by (rewrite Hr1, length_app; simpl; lia).
    rewrite Hk in He, Hd.
    unfold afterDocuments in *. simpl in *. repeat split.
    + rewrite Hr, Hr1, <- app_assoc. reflexivity.
    + rewrite He, He1, <- app_assoc. reflexivity.
    + rewrite Hd, Hd1. reflexivity.
    + congruence.
Qed.

(** C4 (amended). Once the project and the documents are there, the loop
    sends one embedding request per document, in order, whatever fails;
    for a document whose embedding fails it logs two lines, the second with
    the document's path, and writes nothing; every other document is handed
    to the store; the loop itself never throws. The script then ends with
    status 1 exactly when the generation of the context files throws, and
    returns (status 0) otherwise: failed documents do not show in the exit
    status. *)
Theorem ingestProject_skips_failed_documents o w w1 w2 project processors :
  getOrCreateProject o (emit (ConsoleLog "Starting project ingestion...") w)
  = (w1, inr project) ->
  collectDocuments o (p_id project) w1 = (w2, inr processors) ->
  let numbered :=
    combine (seq (List.length (requests (trace w2))) (List.length processors))
      processors in
  exists w3,
    ingestLoop processors 0
      (emit (ConsoleLog ("Processing " +++ string_of_nat (List.length processors)
                         +++ " documents...")) w2)
    = (w3, inr tt)
    /\ requests (trace w3) = requests (trace w2) ++ map request_of processors
    /\ errors_logged (trace w3) = errors_logged (trace w2) ++ flat_map lines_of numbered
    /\ db w3 = fold_left write_of numbered (db w2)
    /\ files w3 = files w2
    /\ snd (ingestProject o w)
       = match snd (generateContextFiles (p_id project) None
                      (emit (ConsoleLog "Generating knowledge base files...") w3)) with
         | inr _ => Returned
         | inl _ => ProcessExit 1
         end.
Proof.
  intros Hproject Hdocs numbered.
  set (w2' := emit (ConsoleLog ("Processing " +++ string_of_nat (List.length processors)
                                +++ " documents...")) w2).
  destruct (ingestLoop_after (List.length processors) processors 0 w2')
    as (w3 & Hrun & Hobs); [lia|].
  rewrite skipn_0 in Hobs.
  assert (Hobs' : observed w3 = observed (afterDocuments processors w2)).
  { rewrite Hobs. apply afterDocuments_observed, observed_emit_log. }
  unfold observed in Hobs'. injection Hobs' as Hr He Hd Hf.
  destruct (afterDocuments_effects processors w2) as (Hr' & He' & Hd' & Hf').
  exists w3. subst numbered.
  split; [exact Hrun|]. split; [congruence|]. split; [congruence|].
  split; [congruence|]. split; [congruence|].
  cbv beta iota delta [ingestProject ingestion bind console_log].
  rewrite Hproject. cbv beta iota. rewrite Hdocs. cbv beta iota.
  fold w2'. rewrite Hrun. cbv beta iota.
  destruct (generateContextFiles _ _ _) as [w4 [e|u]]; reflexivity.
Qed.

(** ** The project of a run *)

Lemma find_app_last {A} (f : A -> bool) l x :
  find f l = None -> f x = true -> find f (l ++ [x]) = Some x.
Proof.
  induction l as [|y l IH]; simpl; intros Hl Hx.
  - now rewrite Hx.
  - destruct (f y); [discriminate|auto].
Qed.

Lemma find_existsb_name n projects :
  find (fun pr => String.eqb (p_name pr) n) projects = None ->
  existsb (fun pr => String.eqb (p_name pr) n) projects = false.
Proof.
  induction projects as [|pr l IH]; simpl; trivial.
  destruct (String.eqb (p_name pr) n); [discriminate|exact IH].
Qed.

(** X21. With a name given, [getOrCreateProject] returns a stored project
    that bears it: if one was stored it is returned and the tables stay as
    they were (the description, tech stack and repository given are not
    applied to it), otherwise one row is added to [projects]; it never
    touches the chunks, keeps project names unique, and asking again returns
    the same project without any further change. Without a name it looks
    for a project called [undefined], and when there is none the insert is
    refused (the name may not be null) and the error is thrown, the tables
    staying as they were. *)
Theorem getOrCreateProject_by_name o w :
  (forall n, name o = Some n ->
     exists w1 project,
       getOrCreateProject o w = (w1, inr project)
       /\ p_name project = n
       /\ In project (projects (db w1))
       /\ (In n (map p_name (projects (db w))) -> db w1 = db w)
       /\ (exists added, projects (db w1) = projects (db w) ++ added
                         /\ List.length added <= 1)
       /\ document_chunks (db w1) = document_chunks (db w)
       /\ (NoDup (map p_name (projects (db w))) -> NoDup (map p_name (projects (db w1))))
       /\ exists w2, getOrCreateProject o w1 = (w2, inr project) /\ db w2 = db w1)
  /\ (name o = None ->
      ~ In "undefined" (map p_name (projects (db w))) ->
      getOrCreateProject o w = (w, inl (StoreError (NotNullViolation "name")))).
Proof.
  clear embeddings_create processCodeRepository processTable generateContextFiles.
  split.
  - intros n Hname.
    unfold getOrCreateProject, existingProject, insertProject, name_text, bind,
      console_log, ret, throw.
    rewrite Hname.
    destruct (find (fun pr => String.eqb (p_name pr) n) (projects (db w)))
      as [project|] eqn:F.
    + apply find_some in F as Hin. destruct Hin as [Hin Hn].
      apply String.eqb_eq in Hn.
      do 2 eexists. split; [reflexivity|]. simpl.
      split; [trivial|]. split; [trivial|]. split; [trivial|].
      split; [exists []; rewrite app_nil_r; auto|].
      split; [trivial|]. split; [trivial|].
      rewrite F. eexists. split; reflexivity.
    + rewrite (find_existsb_name n _ F).
      set (newProject := {| p_id := uuid_seed (db w); p_name := n;
                            p_description := description o;
                            p_tech_stack := match techStack o with
                                            | Some t => split_char "," t
                                            | None => []
                                            end;
                            p_repository_url := repo o |}).
      assert (Hnew : ~ In n (map p_name (projects (db w)))).
      { intros Hin. apply in_map_iff in Hin as (pr & Hpr & Hin).
        pose proof (find_none _ _ F pr Hin) as Hno. simpl in Hno.
        rewrite Hpr, String.eqb_refl in Hno. discriminate. }
      do 2 eexists. split; [reflexivity|]. simpl.
      split; [reflexivity|].
      split; [apply in_or_app; right; now left|].
      split; [intros Hin; contradiction|].
      split; [exists [newProject]; auto|].
      split; [reflexivity|]. split.
      * intros Hnd. rewrite map_app. simpl. apply NoDup_app; trivial.
        -- repeat constructor. simpl. tauto.
        -- intros m Hm [<-|[]]. contradiction.
      * rewrite (find_app_last _ _ newProject F) by (simpl; apply String.eqb_refl).
        eexists. split; reflexivity.
  - intros Hname Hnone.
    unfold getOrCreateProject, existingProject, insertProject, name_text, bind, throw.
    rewrite Hname.
    destruct (find (fun pr => String.eqb (p_name pr) "undefined") (projects (db w)))
      as [project|] eqn:F; [|reflexivity].
    apply find_some in F as [Hin Hn]. apply String.eqb_eq in Hn.
    exfalso. apply Hnone. rewrite <- Hn. now apply in_map.
Qed.

(** ** What the loop adds to the store *)

Lemma fold_write_of_extends numbered : forall d,
  Store.ids_fresh d ->
  let d' := fold_left write_of numbered d in
  (exists added,
      document_chunks d' = document_chunks d ++ added
      /\ List.length added <= List.length numbered
      /\ Forall (fun r => exists kd, In kd numbered
                            /\ dc_file_path r = Some (filePath (metadata (snd kd)))
                            /\ dc_chunk_content r = content (snd kd)) added)
  /\ projects d' = projects d
  /\ knowledge_contexts d' = knowledge_contexts d
  /\ Store.ids_fresh d'.
Proof.
  induction numbered as [|kd numbered IH]; intros d Hf; simpl.
  - repeat split; trivial. exists []. rewrite app_nil_r. repeat split; auto.
  - assert (Hone : (document_chunks (write_of d kd) = document_chunks d
                    \/ exists r, document_chunks (write_of d kd) = document_chunks d ++ [r]
                                 /\ dc_file_path r = Some (filePath (metadata (snd kd)))
                                 /\ dc_chunk_content r = content (snd kd))
                   /\ projects (write_of d kd) = projects d
                   /\ knowledge_contexts (write_of d kd) = knowledge_contexts d
                   /\ Store.ids_fresh (write_of d kd)).
    { unfold write_of, written. destruct (embedded (fst kd) (snd kd)) as [e|v]; [auto|].
      destruct (Store.upsert_document_chunk_extends d (projectId (metadata (snd kd)))
                  (sourceType (metadata (snd kd))) (filePath (metadata (snd kd)))
                  (content (snd kd)) (metadata (snd kd)) v Hf)
        as ([Hsame|Hrow] & Hp & Hk & Hf'); repeat split; auto.
      right. eexists. split; [exact Hrow|]. split; reflexivity. }
    destruct Hone as (Hrows & Hp & Hk & Hf').
    destruct (IH (write_of d kd) Hf') as ((added & Ha & Hlen & Hall) & Hp' & Hk' & Hf'').
    split; [|repeat split; congruence || trivial].
    assert (Hall' : Forall (fun r => exists kd0, In kd0 (kd :: numbered)
                              /\ dc_file_path r = Some (filePath (metadata (snd kd0)))
                              /\ dc_chunk_content r = content (snd kd0)) added).
    { eapply Forall_impl; [|exact Hall]. simpl. intros r (kd0 & Hin & Hr).
      exists kd0. auto. }
    destruct Hrows as [Hsame|(r & Hrow & Hr)].
    + exists added. rewrite Ha, Hsame. repeat split; trivial. simpl; lia.
    + exists (r :: added). rewrite Ha, Hrow, <- app_assoc. repeat split; trivial.
      * simpl; lia.
      * constructor; trivial. exists kd. split; [now left|trivial].
Qed.

(** X22. Whatever the embedding service and the store answer, the loop only
    ever adds chunks: it returns normally, the rows that were in the table
    stay as they are, in place, at most one row per document comes after
    them, each bearing the path and the content of one of the documents;
    projects, knowledge contexts and files are left alone. *)
Theorem ingestLoop_only_appends processors w :
  Store.ids_fresh (db w) ->
  exists w' added,
    ingestLoop processors 0 w = (w', inr tt)
    /\ document_chunks (db w') = document_chunks (db w) ++ added
    /\ List.length added <= List.length processors
    /\ Forall (fun r => exists doc, In doc processors
                          /\ dc_file_path r = Some (filePath (metadata doc))
                          /\ dc_chunk_content r = content doc) added
    /\ projects (db w') = projects (db w)
    /\ knowledge_contexts (db w') = knowledge_contexts (db w)
    /\ files w' = files w.
Proof.
  intros Hf.
  destruct (ingestLoop_after (List.length processors) processors 0 w)
    as (w' & Hrun & Hobs); [lia|].
  rewrite skipn_0 in Hobs. unfold observed in Hobs. injection Hobs as _ _ Hd Hfiles.
  destruct (afterDocuments_effects processors w) as (_ & _ & Hd' & Hfiles').
  set (numbered := combine (seq (List.length (requests (trace w))) (List.length processors))
                     processors) in *.
  destruct (fold_write_of_extends numbered (db w) Hf)
    as ((added & Ha & Hlen & Hall) & Hp & Hk & _).
  rewrite <- Hd', <- Hd in Ha, Hp, Hk.
  exists w', added. repeat split; trivial; try congruence.
  - subst numbered. rewrite length_combine, length_seq in Hlen. lia.
  - eapply Forall_impl; [|exact Hall]. simpl. intros r ([k doc] & Hin & Hr).
    exists doc. split; trivial. now apply in_combine_r in Hin.
Qed.

(** The row stored for a document under the key [id] when the service
    answers with [model]: the vector is that of the content cut to 8000
    characters, the content is stored whole. *)
Definition stored_row (model : string -> embedding) (id : uuid) (doc : ProcessedDocument)
  : document_chunk :=
  {| dc_id := id;
     dc_project_id := Some (projectId (metadata doc));
     dc_source_type := sourceType (metadata doc);
     dc_file_path := Some (filePath (metadata doc));
     dc_chunk_content := content doc;
     dc_contextual_content := None;
     dc_metadata := Some (metadata doc);
     dc_embedding := Some (model (Embedding.truncate (content doc))) |}.

Lemma fold_write_of_stores model docs :
  (forall k texts, embeddings_create k texts = inr (map model texts)) ->
  (forall text, List.length (model text) = EMBEDDING_DIM) ->
  forall k d,
    Store.ids_fresh d ->
    Forall (fun doc => Store.project_exists d (projectId (metadata doc)) = true) docs ->
    document_chunks (fold_left write_of (combine (seq k (List.length docs)) docs) d)
    = document_chunks d
      ++ map (fun nd => stored_row model (fst nd) (snd nd))
           (combine (seq (uuid_seed d) (List.length docs)) docs).
Proof.
  intros Hservice Hdim.
  induction docs as [|doc docs IH]; intros k d Hf Hprojects; simpl.
  - now rewrite app_nil_r.
  - inversion Hprojects as [|? ? Hp Hrest]; subst.
    unfold write_of at 2, embedded, written. simpl. rewrite Hservice. simpl.
    destruct (Store.upsert_document_chunk_appends d (projectId (metadata doc))
                (sourceType (metadata doc)) (filePath (metadata doc)) (content doc)
                (metadata doc) (model (Embedding.truncate (content doc))) Hf Hp
                (Hdim _)) as (_ & Hrows & Hprojects' & Hf').
    set (d1 := fst (Store.upsert_document_chunk d _ _ _ _ _ _)) in *.
    assert (Hseed : uuid_seed d1 = S (uuid_seed d)).
    { subst d1. unfold Store.upsert_document_chunk.
      now rewrite Hp, Hdim, Nat.eqb_refl. }
    rewrite IH; trivial.
    + rewrite Hrows, Hseed, <- app_assoc. reflexivity.
    + eapply Forall_impl; [|exact Hrest]. simpl. intros doc' H.
      unfold Store.project_exists. now rewrite Hprojects'.
Qed.

(** X23. With a service that answers every request and gives vectors of
    dimension 1536, and documents of stored projects, the loop stores every
    document: one new row per document, in the order of the documents, each
    with the document's project, source type, path, whole content and
    metadata, and with the vector of the content cut to its first 8000
    characters; no error is logged. *)
Theorem ingestLoop_stores_every_document model processors w :
  (forall k texts, embeddings_create k texts = inr (map model texts)) ->
  (forall text, List.length (model text) = EMBEDDING_DIM) ->
  Store.ids_fresh (db w) ->
  Forall (fun doc => Store.project_exists (db w) (projectId (metadata doc)) = true)
    processors ->
  exists w',
    ingestLoop processors 0 w = (w', inr tt)
    /\ document_chunks (db w')
       = document_chunks (db w)
         ++ map (fun nd => stored_row model (fst nd) (snd nd))
              (combine (seq (uuid_seed (db w)) (List.length processors)) processors)
    /\ errors_logged (trace w') = errors_logged (trace w).
Proof.
  intros Hservice Hdim Hf Hprojects.
  destruct (ingestLoop_after (List.length processors) processors 0 w)
    as (w' & Hrun & Hobs); [lia|].
  rewrite skipn_0 in Hobs. unfold observed in Hobs. injection Hobs as _ He Hd _.
  destruct (afterDocuments_effects processors w) as (_ & He' & Hd' & _).
  exists w'. split; [exact Hrun|]. split.
  - rewrite Hd, Hd'. now apply fold_write_of_stores.
  - rewrite He, He'.
    assert (Hnone : forall numbered, flat_map lines_of numbered = []).
    { induction numbered as [|kd numbered IH]; simpl; trivial.
      unfold lines_of at 1, embedded. rewrite Hservice. simpl. exact IH. }
    now rewrite Hnone, app_nil_r.
Qed.

(** ** The pauses of the loop *)

Lemma sleeps_afterDocuments docs : forall w,
  sleeps (trace (afterDocuments docs w)) = sleeps (trace w).
Proof.
  induction docs as [|doc docs IH]; intros w; simpl; trivial.
  unfold afterDocuments in *. simpl. rewrite IH.
  unfold afterDocument. destruct (embedded _ doc); simpl;
    rewrite !sleeps_app; simpl; now rewrite !app_nil_r.
Qed.

Lemma ingestLoop_sleeps n : forall processors i w,
  List.length processors - i <= n ->
  sleeps (trace (fst (ingestLoop processors i w)))
  = sleeps (trace w) ++ repeat 1000 ((List.length processors - i + 49) / 50).
Proof.
  induction n as [|n IH]; intros processors i w Hm; rewrite ingestLoop_step;
    destruct (Nat.ltb_spec i (List.length processors)) as [Hlt|Hge]; try lia.
  1, 3: replace (List.length processors - i) with 0 by lia; simpl;
        now rewrite app_nil_r.
  assert (Hdiv : (List.length processors - i + 49) / 50
                 = S ((List.length processors - (i + 50) + 49) / 50)).
  { destruct (Nat.le_gt_cases (List.length processors) (i + 50)) as [Hle|Hgt].
    - replace (List.length processors - (i + 50)) with 0 by lia.
      change ((0 + 49) / 50) with 0.
      symmetry. apply Nat.div_unique with (r := List.length processors - i - 1); lia.
    - replace (List.length processors - i + 49)
        with ((List.length processors - (i + 50) + 49) + 1 * 50) by lia.
      rewrite Nat.div_add by lia. lia. }
  rewrite Hdiv. set (later := (List.length processors - (i + 50) + 49) / 50) in *.
  unfold processBatch, bind, console_log, sleep.
  rewrite forEachDocument_after. rewrite IH by lia. fold later. simpl.
  rewrite sleeps_app, sleeps_afterDocuments. simpl.
  rewrite sleeps_app. simpl. now rewrite app_nil_r, <- app_assoc.
Qed.

(** X24. The loop pauses one second after every batch of 50 documents, the
    last one included, and at no other time: for n documents it pauses
    (n + 49) div 50 times, not at all when there is no document. *)
Theorem ingestLoop_pauses processors w :
  sleeps (trace (fst (ingestLoop processors 0 w)))
  = sleeps (trace w) ++ repeat 1000 ((List.length processors + 49) / 50).
Proof.
  rewrite (ingestLoop_sleeps (List.length processors)) by lia.
  now rewrite Nat.sub_0_r.
Qed.

End Script.

(** ** A run whose documents cannot be collected *)

(** Nothing was sent to the embedding service, stored as a chunk or written
    to a file between [w] and [w']. *)
Definition untouched (w w' : world) : Prop :=
  requests (trace w') = requests (trace w)
  /\ document_chunks (db w') = document_chunks (db w)
  /\ files w' = files w.

Lemma untouched_refl w : untouched w w.
Proof. repeat split. Qed.

Lemma untouched_trans w1 w2 w3 : untouched w1 w2 -> untouched w2 w3 -> untouched w1 w3.
Proof. unfold untouched. intros (?&?&?) (?&?&?). repeat split; congruence. Qed.

Lemma untouched_log line w : untouched w (emit (ConsoleLog line) w).
Proof.
  unfold untouched; simpl. rewrite requests_app; simpl. now rewrite app_nil_r.
Qed.

Lemma untouched_error line e w : untouched w (emit (ConsoleError line e) w).
Proof.
  unfold untouched; simpl. rewrite requests_app; simpl. now rewrite app_nil_r.
Qed.

Section Collecting.

Variable embeddings_create : nat -> list string -> exn + list embedding.
Variable git_ls_files : string -> exn + string.
Variable readFile : string -> exn + string.
Variable stat_mtime : string -> exn + string.
Variable createDocuments : string -> list string.
Variable select_all : string -> exn + list Processors.airtable_record.
Variable generateContextFiles : uuid -> option string -> M unit.

Definition codeProcessor : string -> uuid -> M (list ProcessedDocument) :=
  Processors.processCodeRepository git_ls_files readFile stat_mtime createDocuments.

Definition airtableProcessor : string -> uuid -> M (list ProcessedDocument) :=
  Processors.processTable select_all.

Lemma process_files_world repoPath project fileList : forall documents w,
  fst (Processors.process_files readFile stat_mtime createDocuments repoPath project
         fileList documents w) = w.
Proof.
  induction fileList as [|file rest IH]; intros documents w; simpl; trivial.
  destruct (Processors.shouldProcessFile file); [|apply IH].
  unfold bind, lift.
  destruct (readFile _); trivial. destruct (stat_mtime _); trivial.
Qed.

Lemma codeProcessor_untouched repoPath project w :
  untouched w (fst (codeProcessor repoPath project w)).
Proof.
  unfold codeProcessor, Processors.processCodeRepository, try_catch, bind, lift.
  destruct (git_ls_files repoPath) as [e|listing]; simpl.
  - destruct e; simpl; apply untouched_error || apply untouched_refl.
  - pose proof (process_files_world repoPath project
                  (filter truthy (split_char (ascii_of_nat 10) (trim listing))) [] w)
      as Hw.
    destruct (Processors.process_files _ _ _ _ _ _ _ _) as [w1 [e|docs]];
      simpl in Hw; subst w1; simpl.
    + apply untouched_error.
    + apply untouched_refl.
Qed.

Lemma processTables_unloadable project table e tables :
  In table tables -> select_all (trim table) = inl e ->
  forall documents w,
    exists w' e',
      processTables airtableProcessor tables project documents w = (w', inl e')
      /\ untouched w w'.
Proof.
  intros Hin Hfail.
  induction tables as [|t rest IH]; intros documents w; [contradiction|].
  simpl. unfold bind, console_log, airtableProcessor, Processors.processTable,
    try_catch, bind, lift.
  destruct (select_all (trim t)) as [e0|records] eqn:Ht; simpl.
  - do 2 eexists. split; [reflexivity|].
    eapply untouched_trans; [apply untouched_log|apply untouched_error].
  - destruct Hin as [->|Hin]; [congruence|].
    destruct (IH Hin (documents ++ Processors.push_records (trim t) project records [])
                (emit (ConsoleLog ("Processing Airtable table: " +++ t)) w))
      as (w' & e' & Hrun & Hun).
    exists w', e'. split; [exact Hrun|].
    eapply untouched_trans; [apply untouched_log|exact Hun].
Qed.

Lemma getOrCreateProject_untouched o w :
  exists w1 r, getOrCreateProject o w = (w1, r) /\ untouched w w1.
Proof.
  unfold getOrCreateProject, existingProject, insertProject, bind, console_log, ret,
    throw.
  destruct (find _ _); [|destruct (name o); [destruct (existsb _ _)|]];
    do 2 eexists; (split; [reflexivity|]);
    unfold untouched; simpl; rewrite ?requests_app; simpl; now rewrite ?app_nil_r.
Qed.

(** X25. One Airtable table that cannot be loaded aborts the whole run,
    wherever it stands in the list and even when the code repository was
    read without error: the script ends with status 1 without having sent
    anything to the embedding service, stored any chunk, written any file or
    generated the context files. *)
Theorem ingestProject_unloadable_table o w tables table e :
  airtable o = Some tables -> truthy tables = true ->
  In table (split_char "," tables) ->
  select_all (trim table) = inl e ->
  let run := ingestProject embeddings_create codeProcessor airtableProcessor
               generateContextFiles o w in
  snd run = ProcessExit 1
  /\ untouched w (fst run)
  /\ exists t e', trace (fst run) = t ++ [ConsoleError "Error during ingestion:" e'].
Proof.
  intros Hair Htruthy Hin Hfail.
  destruct (getOrCreateProject_untouched o
              (emit (ConsoleLog "Starting project ingestion...") w))
    as (w1 & [error|project] & Hproject & Hun1).
  { assert (Hrun : ingestProject embeddings_create codeProcessor airtableProcessor
                     generateContextFiles o w
                   = (emit (ConsoleError "Error during ingestion:" error) w1,
                      ProcessExit 1)).
    { cbv beta iota delta [ingestProject ingestion bind console_log].
      now rewrite Hproject. }
    cbv zeta. rewrite Hrun. simpl.
    split; [reflexivity|]. split; [|eauto].
    eapply untouched_trans; [apply untouched_log|].
    eapply untouched_trans; [exact Hun1|apply untouched_error]. }
  assert (Hcollect : exists w2 e',
            collectDocuments codeProcessor airtableProcessor o (p_id project) w1
            = (w2, inl e')
            /\ untouched w1 w2).
  { unfold collectDocuments, bind. rewrite Hair, Htruthy.
    destruct (given (repo o) || given (path o)).
    - unfold console_log at 1.
      set (repoPath := match path o with
                       | Some p => if truthy p then p else "./"
                       | None => "./"
                       end).
      set (w1' := emit (ConsoleLog ("Processing code repository: " +++ repoPath)) w1).
      pose proof (codeProcessor_untouched repoPath (p_id project) w1') as Hcode.
      destruct (codeProcessor repoPath (p_id project) w1') as [w2 [e0|docs]];
        simpl in Hcode.
      + exists w2, e0. split; trivial.
        eapply untouched_trans; [apply untouched_log|exact Hcode].
      + destruct (processTables_unloadable (p_id project) table e _ Hin Hfail docs w2)
          as (w3 & e' & Hrun & Hun).
        exists w3, e'. split; trivial.
        eapply untouched_trans; [apply untouched_log|].
        eapply untouched_trans; [exact Hcode|exact Hun].
    - unfold ret.
      destruct (processTables_unloadable (p_id project) table e _ Hin Hfail [] w1)
        as (w3 & e' & Hrun & Hun).
      now exists w3, e'. }
  destruct Hcollect as (w2 & e' & Hcollect & Hun2).
  assert (Hrun : ingestProject embeddings_create codeProcessor airtableProcessor
                   generateContextFiles o w
                 = (emit (ConsoleError "Error during ingestion:" e') w2, ProcessExit 1)).
  { cbv beta iota delta [ingestProject ingestion bind console_log].
    rewrite Hproject. cbv beta iota. rewrite Hcollect. reflexivity. }
  cbv zeta. rewrite Hrun. simpl.
  split; [reflexivity|]. split; [|eauto].
  eapply untouched_trans; [apply untouched_log|].
  eapply untouched_trans; [exact Hun1|].
  eapply untouched_trans; [exact Hun2|apply untouched_error].
Qed.

End Collecting.

(** ** Concrete runs *)

(** A service that rejects any request holding a text with "bad" in it. *)
Definition rejecting_marked (k : nat) (batch : list string) : exn + list embedding :=
  if existsb (includes "bad") batch then inl (ApiError "rejected")
  else inr (map (fun _ => Store.along 1) batch).

Definition tasks : list Processors.airtable_record :=
  [ {| Processors.rec_id := "rec1";
       Processors.rec_fields := [("Notes", Processors.VString "a first task, well described")] |};
    {| Processors.rec_id := "rec2";
       Processors.rec_fields := [("Notes", Processors.VString "a bad task, badly described")] |} ].

Definition no_repository (p : string) : exn + string := inl (IOError "not a repository").

Definition demo_processCodeRepository : string -> uuid -> M (list ProcessedDocument) :=
  Processors.processCodeRepository no_repository no_repository no_repository
    (fun text => [text]).

Definition demo_processTable : string -> uuid -> M (list ProcessedDocument) :=
  Processors.processTable (fun _ => inr tasks).

Definition demo_generateContextFiles (service : nat -> list string -> exn + list embedding)
  : uuid -> option string -> M unit :=
  Generator.generateContextFiles binary64 Generator.large_number_text service
    Generator.demo_rpc Generator.demo_clock
    Generator.demo_iso Generator.writable (fun rows => rows) (fun rows => rows)
    "/work" (fun _ => None).

Definition demo_options : options :=
  {| name := Some "demo"; description := None; techStack := None;
     path := None; repo := None; airtable := Some "Tasks" |}.

Definition demo_run (service : nat -> list string -> exn + list embedding)
  : world * outcome :=
  ingestProject service demo_processCodeRepository demo_processTable
    (demo_generateContextFiles service) demo_options Embedding.world0.

(** The second task fails to embed: it is logged and not stored, and the
    script still returns. *)
Example demo_run_with_failure :
  errors_logged (trace (fst (demo_run rejecting_marked)))
  = [ ("Error generating embedding:", ApiError "rejected");
      ("Error processing document airtable/Tasks/rec2:", ApiError "rejected") ]
  /\ map dc_file_path (document_chunks (db (fst (demo_run rejecting_marked))))
     = [Some "airtable/Tasks/rec1"]
  /\ snd (demo_run rejecting_marked) = Returned.
Proof. vm_compute. repeat split; reflexivity. Qed.

Example demo_run_without_failure :
  errors_logged (trace (fst (demo_run Embedding.constant_service))) = []
  /\ map dc_file_path (document_chunks (db (fst (demo_run Embedding.constant_service))))
     = [Some "airtable/Tasks/rec1"; Some "airtable/Tasks/rec2"]
  /\ snd (demo_run Embedding.constant_service) = Returned.
Proof. vm_compute. repeat split; reflexivity. Qed.

Definition demo_w1 : world :=
  fst (getOrCreateProject demo_options
         (emit (ConsoleLog "Starting project ingestion...") Embedding.world0)).

Definition demo_w2 : world :=
  fst (collectDocuments demo_processCodeRepository demo_processTable demo_options 7
         demo_w1).

Definition demo_documents : list ProcessedDocument :=
  Processors.push_records "Tasks" 7 tasks [].

Lemma ingestProject_skips_failed_documents_witness :
  exists w3,
    ingestLoop rejecting_marked demo_documents 0
      (emit (ConsoleLog ("Processing " +++ string_of_nat (List.length demo_documents)
                         +++ " documents...")) demo_w2)
    = (w3, inr tt)
    /\ requests (trace w3) = requests (trace demo_w2) ++ map request_of demo_documents
    /\ errors_logged (trace w3)
       = errors_logged (trace demo_w2)
         ++ flat_map (lines_of rejecting_marked)
              (combine (seq (List.length (requests (trace demo_w2)))
                          (List.length demo_documents)) demo_documents)
    /\ db w3
       = fold_left (write_of rejecting_marked)
           (combine (seq (List.length (requests (trace demo_w2)))
                       (List.length demo_documents)) demo_documents)
           (db demo_w2)
    /\ files w3 = files demo_w2
    /\ snd (demo_run rejecting_marked)
       = match snd (demo_generateContextFiles rejecting_marked
                      (p_id Store.demo_project) None
                      (emit (ConsoleLog "Generating knowledge base files...") w3)) with
         | inr _ => Returned
         | inl _ => ProcessExit 1
         end.
Proof.
  apply (ingestProject_skips_failed_documents rejecting_marked
           demo_processCodeRepository demo_processTable
           (demo_generateContextFiles rejecting_marked)
           demo_options Embedding.world0 demo_w1 demo_w2 Store.demo_project
           demo_documents).
  - vm_compute. reflexivity.
  - vm_compute. reflexivity.
Defined.

(** The claim as stated: a run in which a document failed ends with another
    exit status than a run in which none did. *)
Definition exit_status_reflects_failures : Prop :=
  forall service1 service2 code tables kb1 kb2 o w,
    let run1 := ingestProject service1 code tables kb1 o w in
    let run2 := ingestProject service2 code tables kb2 o w in
    (exists line e, In (line, e) (errors_logged (trace (fst run1)))) ->
    errors_logged (trace (fst run2)) = [] ->
    exit_status (snd run1) <> exit_status (snd run2).

(** C4 (as stated, refuted). The run over the two tasks in which the second
    fails to embed and the run in which both are stored end with the same
    status, 0. *)
Lemma exit_status_ignores_failures : ~ exit_status_reflects_failures.
Proof.
  intros H.
  apply (H rejecting_marked Embedding.constant_service
           demo_processCodeRepository demo_processTable
           (demo_generateContextFiles rejecting_marked)
           (demo_generateContextFiles Embedding.constant_service)
           demo_options Embedding.world0).
  - exists "Error generating embedding:", (ApiError "rejected").
    vm_compute. now left.
  - vm_compute. reflexivity.
  - vm_compute. reflexivity.
Qed.

(** ** A repository with a [#] in a directory name *)

Definition hash_listing (repoPath : string) : exn + string :=
  inr ("src/c#/parser.ts" +++ nl +++ "src/c#/lexer.ts" +++ nl).

Definition hash_readFile (p : string) : exn + string :=
  inr (if includes "parser" p then "parse tokens into a tree" else "cut text into tokens").

Definition hash_stat (p : string) : exn + string := inr "2024-05-01T10:00:00.000Z".

(** A splitter that cuts a text into its two halves. *)
Definition halves (text : string) : list string :=
  let half := String.length text / 2 in
  [ substring 0 half text; substring half (String.length text - half) text ].

Definition hash_options : options :=
  {| name := Some "demo"; description := None; techStack := None;
     path := Some "repo"; repo := None; airtable := None |}.

Definition hash_run : world * outcome :=
  ingestProject Embedding.constant_service
    (Processors.processCodeRepository hash_listing hash_readFile hash_stat halves)
    demo_processTable (demo_generateContextFiles Embedding.constant_service)
    hash_options Embedding.world0.

(** C6 (the code departs from the claim). The tracked files
    [src/c#/parser.ts] and [src/c#/lexer.ts], two chunks each, are stored
    under their path followed by [#chunk-1] and [#chunk-2]; cutting those
    origin paths at the first [#] gives [src/c] for all four, not the path
    of either file, and the code summary puts the four chunks in one group
    under the heading [src/c]. *)
Theorem hash_in_path_breaks_regrouping :
  let rows := document_chunks (db (fst hash_run)) in
  map dc_file_path rows
  = [ Some "src/c#/parser.ts#chunk-1"; Some "src/c#/parser.ts#chunk-2";
      Some "src/c#/lexer.ts#chunk-1"; Some "src/c#/lexer.ts#chunk-2" ]
  /\ map (fun c => Generator.file_of_chunk_path (dc_file_path c)) rows
     = [ "src/c"; "src/c"; "src/c"; "src/c" ]
  /\ (exists fileGroups,
        Generator.fileGroups rows = inr fileGroups
        /\ map (fun g => (fst g, List.length (snd g)))
             (Generator.Object_entries fileGroups)
           = [ ("src/c", 4) ])
  /\ snd hash_run = Returned.
Proof.
  cbv zeta. split; [vm_compute; reflexivity|]. split; [vm_compute; reflexivity|].
  split; [|vm_compute; reflexivity].
  exists (Generator.group_by String.eqb
            (fun chunk => Generator.file_of_chunk_path (dc_file_path chunk))
            (document_chunks (db (fst hash_run)))).
  split; vm_compute; reflexivity.
Qed.

(** The same repository without the [#]: one group per file. *)
Definition plain_listing (repoPath : string) : exn + string :=
  inr ("src/c/parser.ts" +++ nl +++ "src/c/lexer.ts" +++ nl).

Definition plain_rows : list document_chunk :=
  document_chunks
    (db (fst (ingestProject Embedding.constant_service
                (Processors.processCodeRepository plain_listing hash_readFile
                   hash_stat halves)
                demo_processTable (demo_generateContextFiles Embedding.constant_service)
                hash_options Embedding.world0))).

Definition plain_origin (r : document_chunk) : string :=
  if includes "parse" (dc_chunk_content r) || includes "tree" (dc_chunk_content r)
  then "src/c/parser.ts" else "src/c/lexer.ts".

Lemma fileGroups_by_file_witness :
  exists groups,
    Generator.fileGroups plain_rows = inr groups
    /\ NoDup (map fst (Generator.Object_entries groups))
    /\ (forall f cs, In (f, cs) (Generator.Object_entries groups) ->
          cs <> [] /\ cs = filter (fun r => String.eqb (plain_origin r) f) plain_rows)
    /\ (forall r, In r plain_rows ->
          In (plain_origin r) (map fst (Generator.Object_entries groups))).
Proof.
  apply (Generator.fileGroups_by_file plain_origin plain_rows).
  intros r Hr. vm_compute in Hr.
  destruct Hr as [<-|[<-|[<-|[<-|[]]]]];
    (split; [reflexivity|split; [reflexivity|split; [reflexivity|]]]);
    [exists 2, 0|exists 2, 1|exists 2, 0|exists 2, 1]; vm_compute; reflexivity.
Defined.

Lemma ingestLoop_only_appends_witness :
  exists w' added,
    ingestLoop rejecting_marked demo_documents 0 Embedding.world0 = (w', inr tt)
    /\ document_chunks (db w') = document_chunks (db Embedding.world0) ++ added
    /\ List.length added <= List.length demo_documents
    /\ Forall (fun r => exists doc, In doc demo_documents
                          /\ dc_file_path r = Some (filePath (metadata doc))
                          /\ dc_chunk_content r = content doc) added
    /\ projects (db w') = projects (db Embedding.world0)
    /\ knowledge_contexts (db w') = knowledge_contexts (db Embedding.world0)
    /\ files w' = files Embedding.world0.
Proof.
  apply (ingestLoop_only_appends rejecting_marked demo_documents Embedding.world0).
  constructor.
Defined.

Definition constant_model (text : string) : embedding := Store.along 1.

Lemma ingestLoop_stores_every_document_witness :
  exists w',
    ingestLoop Embedding.constant_service demo_documents 0 Embedding.world0 = (w', inr tt)
    /\ document_chunks (db w')
       = document_chunks (db Embedding.world0)
         ++ map (fun nd => stored_row constant_model (fst nd) (snd nd))
              (combine (seq (uuid_seed (db Embedding.world0)) (List.length demo_documents))
                 demo_documents)
    /\ errors_logged (trace w') = errors_logged (trace Embedding.world0).
Proof.
  apply (ingestLoop_stores_every_document Embedding.constant_service constant_model
           demo_documents Embedding.world0).
  - reflexivity.
  - intros text. vm_compute. reflexivity.
  - constructor.
  - vm_compute. repeat constructor.
Defined.

Definition unreachable_base (tableName : string) : exn + list Processors.airtable_record :=
  inl (ApiError "unreachable").

Definition unloadable_run : world * outcome :=
  ingestProject Embedding.constant_service
    (codeProcessor hash_listing hash_readFile hash_stat halves)
    (airtableProcessor unreachable_base)
    (demo_generateContextFiles Embedding.constant_service) demo_options Embedding.world0.

Lemma ingestProject_unloadable_table_witness :
  snd unloadable_run = ProcessExit 1
  /\ untouched Embedding.world0 (fst unloadable_run)
  /\ exists t e', trace (fst unloadable_run)
                  = t ++ [ConsoleError "Error during ingestion:" e'].
Proof.
  apply (ingestProject_unloadable_table Embedding.constant_service hash_listing
           hash_readFile hash_stat halves unreachable_base
           (demo_generateContextFiles Embedding.constant_service)
           demo_options Embedding.world0 "Tasks" "Tasks" (ApiError "unreachable")).
  - reflexivity.
  - reflexivity.
  - left. reflexivity.
  - reflexivity.
Defined.

Lemma getOrCreateProject_by_name_witness :
  exists w1 project,
    getOrCreateProject demo_options Embedding.world0 = (w1, inr project)
    /\ p_name project = "demo"
    /\ In project (projects (db w1))
    /\ (In "demo" (map p_name (projects (db Embedding.world0))) ->
        db w1 = db Embedding.world0)
    /\ (exists added, projects (db w1) = projects (db Embedding.world0) ++ added
                      /\ List.length added <= 1)
    /\ document_chunks (db w1) = document_chunks (db Embedding.world0)
    /\ (NoDup (map p_name (projects (db Embedding.world0))) ->
        NoDup (map p_name (projects (db w1))))
    /\ exists w2, getOrCreateProject demo_options w1 = (w2, inr project)
                  /\ db w2 = db w1.
Proof.
  apply (proj1 (getOrCreateProject_by_name demo_options Embedding.world0) "demo").
  reflexivity.
Defined.

(** Without [--name] and without a project called [undefined], the script
    ends with status 1 before anything is collected. *)
Example nameless_run :
  let run := ingestProject Embedding.constant_service demo_processCodeRepository
               demo_processTable (demo_generateContextFiles Embedding.constant_service)
               {| name := None; description := None; techStack := None;
                  path := None; repo := None; airtable := Some "Tasks" |}
               Embedding.world0 in
  snd run = ProcessExit 1
  /\ errors_logged (trace (fst run))
     = [("Error during ingestion:", StoreError (NotNullViolation "name"))]
  /\ db (fst run) = db Embedding.world0.
Proof. vm_compute. repeat split; reflexivity. Qed.

(** ** A tracked file called [constructor#1.ts] *)

Definition inherited_name_listing (repoPath : string) : exn + string :=
  inr ("constructor#1.ts" +++ nl).

(** The file is read and stored as a code chunk; the context files stop at
    the code summary, and the script ends with status 1. *)
Example inherited_name_run :
  let run := ingestProject Embedding.constant_service
               (Processors.processCodeRepository inherited_name_listing hash_readFile
                  hash_stat (fun text => [text]))
               demo_processTable (demo_generateContextFiles Embedding.constant_service)
               hash_options Embedding.world0 in
  map dc_file_path (document_chunks (db (fst run))) = [Some "constructor#1.ts"]
  /\ map fst (files (fst run))
     = ["/work/knowledge-base/contexts/7/project-overview.md"]
  /\ errors_logged (trace (fst run))
     = [ ("Error generating code summaries:",
          TypeError "acc[filePath].push is not a function");
         ("Error during ingestion:",
          TypeError "acc[filePath].push is not a function") ]
  /\ snd run = ProcessExit 1.
Proof. vm_compute. repeat split; reflexivity. Qed.

End Ingest.
